(** * Token-lifecycle client of the NFT minting API

    A shallow embedding of [mint.js], [retrieve.js], [get-item.js] and
    [verify-owner.js], together with the parts of the JavaScript runtime
    they rely on (strings, [JSON.stringify] / [JSON.parse], property
    access and truthiness).  Everything the client cannot compute by
    itself -- the RPC endpoint, the file system, [fetch], and the
    [ethers] helpers whose code is not part of the repository -- is
    gathered in a [Host] record and the client is verified for every
    host.

    Layout: first the data model and the operations, then concrete hosts
    used as scenarios, then the lemmas and the theorems. *)

From Stdlib Require Import String Ascii List ZArith NArith QArith Lia Bool Sorted.
From Stdlib Require Import DecimalString DecimalN DecimalZ DecimalFacts DecimalPos.
Import ListNotations.
Local Open Scope string_scope.
Local Close Scope Q_scope.

Set Warnings "-register-all".

(** ** Strings *)

(** Strings are sequences of bytes (UTF-8).  The two characters that
    cannot be written inside a literal are named. *)
Definition dquote : ascii := "034"%char.
Definition bslash : ascii := "092"%char.

(** [s.startsWith(p)] *)
Fixpoint startsWith (s p : string) {struct p} : bool :=
  match p with
  | EmptyString => true
  | String a p' =>
      match s with
      | EmptyString => false
      | String b s' => Ascii.eqb b a && startsWith s' p'
      end
  end.

(** [s.includes(needle)] *)
Fixpoint includes (s needle : string) : bool :=
  if startsWith s needle then true
  else match s with
       | EmptyString => false
       | String _ r => includes r needle
       end.

(** [s.toLowerCase()], on the ASCII letters: the strings compared by the
    client are hexadecimal ledger addresses. *)
Definition lower_ascii (c : ascii) : ascii :=
  let n := N_of_ascii c in
  if (65 <=? n)%N && (n <=? 90)%N then ascii_of_N (n + 32) else c.

Fixpoint toLowerCase (s : string) : string :=
  match s with
  | EmptyString => ""
  | String c r => String (lower_ascii c) (toLowerCase r)
  end.

(** [s.split(sep)] for a one-character separator. *)
Fixpoint split (sep : ascii) (s : string) : list string :=
  match s with
  | EmptyString => [""]
  | String c r =>
      if Ascii.eqb c sep then "" :: split sep r
      else match split sep r with
           | [] => [String c ""]
           | h :: t => String c h :: t
           end
  end.

(** [s.trim()].  The white space and the line terminators of the
    language, as UTF-8 has them: U+0009 to U+000D and U+0020 in one
    byte, U+00A0 in two, and U+1680, U+2000 to U+200A, U+2028, U+2029,
    U+202F, U+205F, U+3000 and U+FEFF (the byte-order mark) in three. *)
Definition is_space (c : ascii) : bool :=
  let n := N_of_ascii c in
  ((9 <=? n)%N && (n <=? 13)%N) || (n =? 32)%N.

(** What follows the white-space character at the head of [s], when
    there is one. *)
Definition after_space (s : string) : option string :=
  match s with
  | EmptyString => None
  | String c r =>
      if is_space c then Some r
      else
        match r with
        | String c2 r2 =>
            if (N_of_ascii c =? 194)%N && (N_of_ascii c2 =? 160)%N then Some r2
            else
              match r2 with
              | String c3 r3 =>
                  let n1 := N_of_ascii c in
                  let n2 := N_of_ascii c2 in
                  let n3 := N_of_ascii c3 in
                  if ((n1 =? 225) && (n2 =? 154) && (n3 =? 128))%N
                     || ((n1 =? 226) && (n2 =? 128)
                         && (((128 <=? n3) && (n3 <=? 138))
                             || (n3 =? 168) || (n3 =? 169) || (n3 =? 175)))%N
                     || ((n1 =? 226) && (n2 =? 129) && (n3 =? 159))%N
                     || ((n1 =? 227) && (n2 =? 128) && (n3 =? 128))%N
                     || ((n1 =? 239) && (n2 =? 187) && (n3 =? 191))%N
                  then Some r3 else None
              | EmptyString => None
              end
        | EmptyString => None
        end
  end.

Fixpoint trimStart_from (fuel : nat) (s : string) : string :=
  match fuel with
  | O => s
  | S f =>
      match after_space s with
      | Some r => trimStart_from f r
      | None => s
      end
  end.

Definition trimStart (s : string) : string := trimStart_from (String.length s) s.

Definition all_space (s : string) : bool :=
  match trimStart s with
  | EmptyString => true
  | _ => false
  end.

Fixpoint trimEnd (s : string) : string :=
  match s with
  | EmptyString => ""
  | String c r => if all_space s then "" else String c (trimEnd r)
  end.

Definition trim (s : string) : string := trimEnd (trimStart s).

Definition tail_of (s : string) : string :=
  match s with
  | EmptyString => ""
  | String _ r => r
  end.

(** Decimal rendering of integers: [BigInt.prototype.toString] and
    [Number.prototype.toString] on integral values. *)
Definition string_of_Z (z : Z) : string := NilZero.string_of_int (Z.to_int z).
Definition string_of_N (n : N) : string := string_of_Z (Z.of_N n).

(** ** Numbers

    A Number is an IEEE 754 binary64 value.  A finite non-zero one is
    kept by what [Number::toString] prints of it: the sign and the
    digits [s] and exponent [u] of its shortest decimal that reads back
    as the same value, [s * 10 ^ u] with [s] not ending in 0.  The
    decimals that stand for a Number in this way are those that
    [number_of_decimal] maps to themselves. *)
Inductive number : Type :=
| NumNaN
| NumInf (negative : bool)
| NumZero (negative : bool)
| NumDec (negative : bool) (digits : positive) (exponent : Z).

Definition number_eqb (a b : number) : bool :=
  match a, b with
  | NumNaN, NumNaN => true
  | NumInf x, NumInf y => Bool.eqb x y
  | NumZero x, NumZero y => Bool.eqb x y
  | NumDec x m e, NumDec y m' e' => Bool.eqb x y && Pos.eqb m m' && Z.eqb e e'
  | _, _ => false
  end.

(** The magnitude of a binary64 value: [m * 2 ^ e] with
    [2 ^ 52 <= m < 2 ^ 53] and [-1074 <= e <= 971], or [m < 2 ^ 52] and
    [e = -1074]. *)
Inductive binary64 : Type :=
| B64_zero
| B64_inf
| B64_fin (m : Z) (e : Z).

Definition binary64_eqb (a b : binary64) : bool :=
  match a, b with
  | B64_zero, B64_zero => true
  | B64_inf, B64_inf => true
  | B64_fin m e, B64_fin m' e' => Z.eqb m m' && Z.eqb e e'
  | _, _ => false
  end.

(** [n / (d * b ^ e)] as a fraction of integers. *)
Definition scale (b n d e : Z) : Z * Z :=
  if (0 <=? e)%Z then (n, d * b ^ e)%Z else (n * b ^ (- e), d)%Z.

(** The binary64 value nearest to [n / d], ties to even. *)
Definition round_binary64 (n d : Z) : binary64 :=
  let e0 := (Z.log2 n - Z.log2 d - 52)%Z in
  let e1 := if (fst (scale 2 n d e0) / snd (scale 2 n d e0) <? 2 ^ 52)%Z
            then (e0 - 1)%Z else e0 in
  let e := Z.max e1 (-1074) in
  let N := fst (scale 2 n d e) in
  let D := snd (scale 2 n d e) in
  let q := (N / D)%Z in
  let r := (N mod D)%Z in
  let m := if (2 * r <? D)%Z then q
           else if (D <? 2 * r)%Z then (q + 1)%Z
           else if Z.even q then q else (q + 1)%Z in
  let m' := if (m =? 2 ^ 53)%Z then (2 ^ 52)%Z else m in
  let e' := if (m =? 2 ^ 53)%Z then (e + 1)%Z else e in
  if (m' =? 0)%Z then B64_zero
  else if (971 <? e')%Z then B64_inf
  else B64_fin m' e'.

Fixpoint count_digits (fuel : nat) (x : Z) : Z :=
  match fuel with
  | O => 0
  | S f => if (x <=? 0)%Z then 0%Z else (1 + count_digits f (x / 10))%Z
  end.

(** The number of decimal digits of [x > 0]. *)
Definition ndigits (x : Z) : Z := count_digits (S (Z.to_nat (Z.log2 x))) x.

(** [floor (log10 (n / d))] *)
Definition ilog10 (n d : Z) : Z :=
  let p := (ndigits n - ndigits d)%Z in
  if (snd (scale 10 n d p) <=? fst (scale 10 n d p))%Z then p else (p - 1)%Z.

Fixpoint strip_zeros (fuel : nat) (m e : Z) : Z * Z :=
  match fuel with
  | O => (m, e)
  | S f => if (m mod 10 =? 0)%Z then strip_zeros f (m / 10) (e + 1) else (m, e)
  end.

(** [m * 10 ^ e] with the zeros at the end of [m] moved to the exponent. *)
Definition normalise (m e : Z) : Z * Z :=
  strip_zeros (S (Z.to_nat (Z.log2 m))) m e.

(** The binary64 value nearest to [c * 10 ^ u], for [c > 0]. *)
Definition round_decimal (c u : Z) : binary64 :=
  if (310 <? u + ndigits c)%Z then B64_inf
  else if (u + ndigits c <? -330)%Z then B64_zero
  else round_binary64 (fst (scale 10 c 1 (- u))) (snd (scale 10 c 1 (- u))).

Definition rounds_to (x : binary64) (c u : Z) : bool :=
  (0 <? c)%Z && binary64_eqb (round_decimal c u) x.

(** The digits of [Number::toString]: the fewest digits [s] for which
    [s * 10 ^ u] rounds to [x = n / d], and among these the closest to
    [x].  Seventeen digits always suffice. *)
Fixpoint shortest_from (fuel : nat) (k n d p : Z) (x : binary64) : Z * Z :=
  let u := (p + 1 - k)%Z in
  let N := fst (scale 10 n d u) in
  let D := snd (scale 10 n d u) in
  let lo := (N / D)%Z in
  let r := (N mod D)%Z in
  let hi := (lo + 1)%Z in
  let nearest := if (2 * r <? D)%Z then lo
                 else if (D <? 2 * r)%Z then hi
                 else if Z.even lo then lo else hi in
  let found :=
    if (r =? 0)%Z then (if rounds_to x lo u then Some lo else None)
    else match rounds_to x lo u, rounds_to x hi u with
         | true, true => Some nearest
         | true, false => Some lo
         | false, true => Some hi
         | false, false => None
         end in
  match found with
  | Some c => normalise c u
  | None =>
      match fuel with
      | O => normalise nearest u
      | S f => shortest_from f (k + 1) n d p x
      end
  end.

Definition shortest (m e : Z) : Z * Z :=
  let n := fst (scale 2 m 1 (- e)) in
  let d := snd (scale 2 m 1 (- e)) in
  shortest_from 16 1 n d (ilog10 n d) (B64_fin m e).

(** The Number that the decimal [mantissa * 10 ^ exponent] denotes:
    the nearest binary64 value. *)
Definition number_of_decimal (negative : bool) (mantissa exponent : Z) : number :=
  if (mantissa <=? 0)%Z then NumZero negative
  else
    match round_decimal (fst (normalise mantissa exponent))
            (snd (normalise mantissa exponent)) with
    | B64_zero => NumZero negative
    | B64_inf => NumInf negative
    | B64_fin m e => NumDec negative (Z.to_pos (fst (shortest m e))) (snd (shortest m e))
    end.

(** The Number of an integer. *)
Definition number_of_Z (z : Z) : number :=
  number_of_decimal (z <? 0)%Z (Z.abs z) 0.

(** The numbers that JSON text can carry and give back: the finite ones
    other than [-0]. *)
Definition json_number (v : number) : bool :=
  match v with
  | NumZero negative => negb negative
  | NumDec negative m e =>
      negb (Z.pos m mod 10 =? 0)%Z
      && number_eqb (number_of_decimal negative (Z.pos m) e) v
  | _ => false
  end.

(** ** Number::toString *)

Definition pos_digits (p : positive) : string := NilEmpty.string_of_uint (Pos.to_uint p).

Fixpoint zeros (n : nat) : string :=
  match n with
  | O => ""
  | S k => String "0" (zeros k)
  end.

Fixpoint take (n : nat) (s : string) : string :=
  match n, s with
  | S k, String c r => String c (take k r)
  | _, _ => ""
  end.

Fixpoint drop (n : nat) (s : string) : string :=
  match n, s with
  | S k, String _ r => drop k r
  | _, _ => s
  end.

Definition print_magnitude (m : positive) (e : Z) : string :=
  let s := pos_digits m in
  let k := Z.of_nat (String.length s) in
  let n := (e + k)%Z in
  if (k <=? n)%Z && (n <=? 21)%Z then s ++ zeros (Z.to_nat (n - k))
  else if (0 <? n)%Z && (n <=? 21)%Z then take (Z.to_nat n) s ++ "." ++ drop (Z.to_nat n) s
  else if (-6 <? n)%Z && (n <=? 0)%Z then "0." ++ zeros (Z.to_nat (- n)) ++ s
  else take 1 s ++ (if (k =? 1)%Z then "" else "." ++ drop 1 s)
       ++ "e" ++ (if (n - 1 <? 0)%Z then "-" else "+")
       ++ pos_digits (Z.to_pos (Z.abs (n - 1))).

Definition print_number (v : number) : string :=
  match v with
  | NumNaN => "NaN"
  | NumInf false => "Infinity"
  | NumInf true => "-Infinity"
  | NumZero _ => "0"
  | NumDec negative m e => (if negative then "-" else "") ++ print_magnitude m e
  end.

(** ** Number literals *)

Definition digit_of (c : ascii) : option (Decimal.uint -> Decimal.uint) :=
  match c with
  | "0"%char => Some Decimal.D0
  | "1"%char => Some Decimal.D1
  | "2"%char => Some Decimal.D2
  | "3"%char => Some Decimal.D3
  | "4"%char => Some Decimal.D4
  | "5"%char => Some Decimal.D5
  | "6"%char => Some Decimal.D6
  | "7"%char => Some Decimal.D7
  | "8"%char => Some Decimal.D8
  | "9"%char => Some Decimal.D9
  | _ => None
  end.

Definition is_digit (c : ascii) : bool :=
  match digit_of c with Some _ => true | None => false end.

Fixpoint read_digits (s : string) : Decimal.uint * string :=
  match s with
  | EmptyString => (Decimal.Nil, "")
  | String c r =>
      match digit_of c with
      | Some D => let (d, rest) := read_digits r in (D d, rest)
      | None => (Decimal.Nil, s)
      end
  end.

Fixpoint span_digits (s : string) : string * string :=
  match s with
  | EmptyString => ("", "")
  | String c r =>
      if is_digit c then
        match span_digits r with
        | (ds, rest) => (String c ds, rest)
        end
      else ("", s)
  end.

Fixpoint digits_value (s : string) (acc : Z) : Z :=
  match s with
  | EmptyString => acc
  | String c r => digits_value r (acc * 10 + (Z.of_N (N_of_ascii c) - 48))%Z
  end.

(** int: 0, or a digit from 1 to 9 followed by digits *)
Definition lex_int (s : string) : option (string * string) :=
  match s with
  | EmptyString => None
  | String c r =>
      if Ascii.eqb c "0" then Some ("0", r)
      else if is_digit c then Some (span_digits s)
      else None
  end.

(** frac: nothing, or a point followed by at least one digit *)
Definition lex_frac (s : string) : option (string * string) :=
  match s with
  | String "." r =>
      match span_digits r with
      | (EmptyString, _) => None
      | (ds, rest) => Some (ds, rest)
      end
  | _ => Some ("", s)
  end.

(** exp: nothing, or e or E, an optional sign and at least one digit *)
Definition lex_exp (s : string) : option (Z * string) :=
  match s with
  | String c r =>
      if Ascii.eqb c "e" || Ascii.eqb c "E" then
        let negative := match r with String "-" _ => true | _ => false end in
        let r' := match r with String "-" t => t | String "+" t => t | _ => r end in
        match span_digits r' with
        | (EmptyString, _) => None
        | (ds, rest) =>
            Some (if negative then (- digits_value ds 0)%Z else digits_value ds 0, rest)
        end
      else Some (0%Z, s)
  | EmptyString => Some (0%Z, "")
  end.

Definition lex_unsigned (negative : bool) (s1 : string) : option (number * string) :=
  match lex_int s1 with
  | None => None
  | Some (ip, r1) =>
      match lex_frac r1 with
      | None => None
      | Some (fp, r2) =>
          match lex_exp r2 with
          | None => None
          | Some (ex, r3) =>
              Some (number_of_decimal negative (digits_value (ip ++ fp) 0)
                      (ex - Z.of_nat (String.length fp)), r3)
          end
      end
  end.

(** number: an optional minus sign, int, frac and exp *)
Definition lex_number (s : string) : option (number * string) :=
  match s with
  | String "-" r => lex_unsigned true r
  | _ => lex_unsigned false s
  end.

Fixpoint all_digits (s : string) : bool :=
  match s with
  | EmptyString => true
  | String c r => is_digit c && all_digits r
  end.

Definition head_is_digit (s : string) : bool :=
  match s with
  | EmptyString => false
  | String c _ => is_digit c
  end.

(** After a number: a further digit, a fraction or an exponent. *)
Definition number_continues (rest : string) : bool :=
  match rest with
  | EmptyString => false
  | String c _ => is_digit c || Ascii.eqb c "." || Ascii.eqb c "e" || Ascii.eqb c "E"
  end.

(** ** JSON values

    The data the client serialises and parses: null, booleans, Numbers,
    strings, arrays and objects.  Values that JSON text cannot carry at
    all (undefined, functions, symbols, BigInts) are not among them.  An
    object is the list of its members in property order.  In a run-time
    object the keys are pairwise distinct and the array indices come
    first, in ascending order; [wf_json] says so, and that the numbers
    are those JSON text gives back ([json_number]). *)
Inductive json : Type :=
| JNull
| JBool (b : bool)
| JNum (n : number)
| JStr (s : string)
| JArr (items : list json)
| JObj (members : list (string * json)).

(** An integer literal stands for its Number. *)
Coercion number_of_Z : Z >-> number.
Arguments JNum n%_Z.

Fixpoint distinct (l : list string) : bool :=
  match l with
  | [] => true
  | k :: tl => negb (existsb (String.eqb k) tl) && distinct tl
  end.

(** An array index: the canonical numeral of an integer below
    [2 ^ 32 - 1]. *)
Definition array_index (k : string) : option Z :=
  match k with
  | EmptyString => None
  | String c r =>
      if all_digits k && (negb (Ascii.eqb c "0") || String.eqb r "")
         && (digits_value k 0 <? 2 ^ 32 - 1)%Z
      then Some (digits_value k 0) else None
  end.

(** The order of the own property keys: array indices by value, then
    the other keys as they were created. *)
Definition precedes (a b : string) : bool :=
  match array_index a, array_index b with
  | Some i, Some j => (i <? j)%Z
  | Some _, None => true
  | None, Some _ => false
  | None, None => true
  end.

Fixpoint key_order (l : list string) : bool :=
  match l with
  | [] => true
  | k :: tl => forallb (precedes k) tl && key_order tl
  end.

Fixpoint wf_json (v : json) : bool :=
  match v with
  | JNum n => json_number n
  | JArr l => forallb wf_json l
  | JObj kvs =>
      distinct (map fst kvs) && key_order (map fst kvs)
      && forallb (fun kv => wf_json (snd kv)) kvs
  | _ => true
  end.

(** *** [JSON.stringify] *)

Definition hex_digit (n : N) : ascii :=
  if (n <? 10)%N then ascii_of_N (48 + n) else ascii_of_N (87 + n).

(** QuoteJSONString: the quote, the backslash and the control characters
    are escaped, every other byte is copied. *)
Definition escape_char (c : ascii) : string :=
  if Ascii.eqb c dquote then String bslash (String dquote "")
  else if Ascii.eqb c bslash then String bslash (String bslash "")
  else if Ascii.eqb c "008" then String bslash "b"
  else if Ascii.eqb c "012" then String bslash "f"
  else if Ascii.eqb c "010" then String bslash "n"
  else if Ascii.eqb c "013" then String bslash "r"
  else if Ascii.eqb c "009" then String bslash "t"
  else if (N_of_ascii c <? 32)%N then
    String bslash
      ("u00" ++ String (hex_digit (N_of_ascii c / 16))
                  (String (hex_digit (N_of_ascii c mod 16)) ""))
  else String c "".

Fixpoint escape (s : string) : string :=
  match s with
  | EmptyString => ""
  | String c r => escape_char c ++ escape r
  end.

Definition quote (s : string) : string :=
  String dquote (escape s ++ String dquote "").

Fixpoint join (sep : string) (l : list string) : string :=
  match l with
  | [] => ""
  | x :: tl => match tl with [] => x | _ => x ++ sep ++ join sep tl end
  end.

Fixpoint stringify (v : json) : string :=
  match v with
  | JNull => "null"
  | JBool true => "true"
  | JBool false => "false"
  | JNum (NumNaN | NumInf _) => "null"
  | JNum n => print_number n
  | JStr s => quote s
  | JArr l => "[" ++ join "," (map stringify l) ++ "]"
  | JObj kvs =>
      "{" ++ join "," (map (fun kv => quote (fst kv) ++ ":" ++ stringify (snd kv)) kvs) ++ "}"
  end.

Definition member_text (kv : string * json) : string :=
  quote (fst kv) ++ ":" ++ stringify (snd kv).

(** *** [JSON.parse] *)

Definition is_json_ws (c : ascii) : bool :=
  Ascii.eqb c " " || Ascii.eqb c "009" || Ascii.eqb c "010" || Ascii.eqb c "013".

Fixpoint skip_ws (s : string) : string :=
  match s with
  | EmptyString => ""
  | String c r => if is_json_ws c then skip_ws r else s
  end.

Fixpoint strip_prefix (p s : string) : option string :=
  match p with
  | EmptyString => Some s
  | String a p' =>
      match s with
      | EmptyString => None
      | String b s' => if Ascii.eqb a b then strip_prefix p' s' else None
      end
  end.

(** A number literal, as the Number it denotes. *)
Definition parse_number (s : string) : option (json * string) :=
  match lex_number s with
  | Some (v, rest) => Some (JNum v, rest)
  | None => None
  end.

Definition hex_val (c : ascii) : option N :=
  let n := N_of_ascii c in
  if (48 <=? n)%N && (n <=? 57)%N then Some (n - 48)%N
  else if (97 <=? n)%N && (n <=? 102)%N then Some (n - 87)%N
  else if (65 <=? n)%N && (n <=? 70)%N then Some (n - 55)%N
  else None.

(** The UTF-8 bytes of a code point.  A surrogate that an escape leaves
    without its other half has no UTF-8 form and is kept in the same
    three-byte pattern. *)
Definition utf8_encode (cp : N) : string :=
  if (cp <? 128)%N then String (ascii_of_N cp) ""
  else if (cp <? 2048)%N then
    String (ascii_of_N (192 + cp / 64)) (String (ascii_of_N (128 + cp mod 64)) "")
  else if (cp <? 65536)%N then
    String (ascii_of_N (224 + cp / 4096))
      (String (ascii_of_N (128 + (cp / 64) mod 64))
         (String (ascii_of_N (128 + cp mod 64)) ""))
  else
    String (ascii_of_N (240 + cp / 262144))
      (String (ascii_of_N (128 + (cp / 4096) mod 64))
         (String (ascii_of_N (128 + (cp / 64) mod 64))
            (String (ascii_of_N (128 + cp mod 64)) ""))).

(** The code unit of the four hexadecimal digits of an escape. *)
Definition hex4 (a b c d : ascii) : option N :=
  match hex_val a, hex_val b, hex_val c, hex_val d with
  | Some x, Some y, Some z, Some w => Some (((x * 16 + y) * 16 + z) * 16 + w)%N
  | _, _, _, _ => None
  end.

(** The code point of a surrogate pair: [unit] is a leading surrogate
    and [r], the text after its escape, starts with the escape of a
    trailing one. *)
Definition surrogate_pair (unit : N) (r : string) : option N :=
  if (55296 <=? unit)%N && (unit <=? 56319)%N then
    match r with
    | String b (String u (String g1 (String g2 (String g3 (String g4 _))))) =>
        if Ascii.eqb b bslash && Ascii.eqb u "u" then
          match hex4 g1 g2 g3 g4 with
          | Some low =>
              if (56320 <=? low)%N && (low <=? 57343)%N
              then Some (65536 + (unit - 55296) * 1024 + (low - 56320))%N
              else None
          | None => None
          end
        else None
    | _ => None
    end
  else None.

Definition simple_escape (e : ascii) : option ascii :=
  if Ascii.eqb e dquote then Some dquote
  else if Ascii.eqb e bslash then Some bslash
  else if Ascii.eqb e "/" then Some "/"%char
  else if Ascii.eqb e "b" then Some "008"%char
  else if Ascii.eqb e "f" then Some "012"%char
  else if Ascii.eqb e "n" then Some "010"%char
  else if Ascii.eqb e "r" then Some "013"%char
  else if Ascii.eqb e "t" then Some "009"%char
  else None.

(** The characters of a string literal after its opening quote. *)
Fixpoint parse_string_body (s : string) : option (string * string) :=
  match s with
  | EmptyString => None
  | String c r =>
      if Ascii.eqb c dquote then Some ("", r)
      else if Ascii.eqb c bslash then
        match r with
        | String "u" (String h1 (String h2 (String h3 (String h4 r')))) =>
            match hex4 h1 h2 h3 h4 with
            | None => None
            | Some unit =>
                match surrogate_pair unit r' with
                | Some cp =>
                    match r' with
                    | String _ (String _ (String _ (String _ (String _ (String _ r''))))) =>
                        match parse_string_body r'' with
                        | Some (body, rest) => Some (utf8_encode cp ++ body, rest)
                        | None => None
                        end
                    | _ => None
                    end
                | None =>
                    match parse_string_body r' with
                    | Some (body, rest) => Some (utf8_encode unit ++ body, rest)
                    | None => None
                    end
                end
            end
        | String e r' =>
            match simple_escape e, parse_string_body r' with
            | Some x, Some (body, rest) => Some (String x body, rest)
            | _, _ => None
            end
        | EmptyString => None
        end
      else if (N_of_ascii c <? 32)%N then None
      else match parse_string_body r with
           | Some (body, rest) => Some (String c body, rest)
           | None => None
           end
  end.

(** Defining a property.  A repeated key overwrites the value in place;
    a new array index goes among the indices, by value; any other new
    key goes to the end. *)
Fixpoint obj_replace (k : string) (v : json) (o : list (string * json))
  : list (string * json) :=
  match o with
  | [] => []
  | (k', v') :: tl =>
      if String.eqb k k' then (k', v) :: tl else (k', v') :: obj_replace k v tl
  end.

Fixpoint obj_insert (i : Z) (k : string) (v : json) (o : list (string * json))
  : list (string * json) :=
  match o with
  | [] => [(k, v)]
  | (k', v') :: tl =>
      match array_index k' with
      | Some j => if (i <? j)%Z then (k, v) :: o else (k', v') :: obj_insert i k v tl
      | None => (k, v) :: o
      end
  end.

Definition obj_set (k : string) (v : json) (o : list (string * json)) : list (string * json) :=
  if existsb (String.eqb k) (map fst o) then obj_replace k v o
  else match array_index k with
       | Some i => obj_insert i k v o
       | None => (o ++ [(k, v)])%list
       end.

Definition obj_of_members (raw : list (string * json)) : list (string * json) :=
  fold_left (fun o kv => obj_set (fst kv) (snd kv) o) raw [].

(** Recursive descent; [fuel] bounds the nesting and every call consumes
    input, so the length of the text is always enough. *)
Fixpoint parse_value (fuel : nat) (s : string) {struct fuel} : option (json * string) :=
  match fuel with
  | O => None
  | S f =>
      match skip_ws s with
      | EmptyString => None
      | String c r =>
          if Ascii.eqb c "n" then option_map (pair JNull) (strip_prefix "ull" r)
          else if Ascii.eqb c "t" then option_map (pair (JBool true)) (strip_prefix "rue" r)
          else if Ascii.eqb c "f" then option_map (pair (JBool false)) (strip_prefix "alse" r)
          else if Ascii.eqb c dquote then
            match parse_string_body r with
            | Some (str, rest) => Some (JStr str, rest)
            | None => None
            end
          else if Ascii.eqb c "[" then
            if startsWith (skip_ws r) "]" then Some (JArr [], tail_of (skip_ws r))
            else match parse_elements f r with
                 | Some (l, rest) => Some (JArr l, rest)
                 | None => None
                 end
          else if Ascii.eqb c "{" then
            if startsWith (skip_ws r) "}" then Some (JObj [], tail_of (skip_ws r))
            else match parse_members f r with
                 | Some (raw, rest) => Some (JObj (obj_of_members raw), rest)
                 | None => None
                 end
          else parse_number (String c r)
      end
  end
with parse_elements (fuel : nat) (s : string) {struct fuel} : option (list json * string) :=
  match fuel with
  | O => None
  | S f =>
      match parse_value f s with
      | None => None
      | Some (v, r) =>
          if startsWith (skip_ws r) "," then
            match parse_elements f (tail_of (skip_ws r)) with
            | Some (l, rest) => Some (v :: l, rest)
            | None => None
            end
          else if startsWith (skip_ws r) "]" then Some ([v], tail_of (skip_ws r))
          else None
      end
  end
with parse_members (fuel : nat) (s : string) {struct fuel}
  : option (list (string * json) * string) :=
  match fuel with
  | O => None
  | S f =>
      if startsWith (skip_ws s) (String dquote "") then
        match parse_string_body (tail_of (skip_ws s)) with
        | None => None
        | Some (k, r1) =>
            if startsWith (skip_ws r1) ":" then
              match parse_value f (tail_of (skip_ws r1)) with
              | None => None
              | Some (v, r3) =>
                  if startsWith (skip_ws r3) "," then
                    match parse_members f (tail_of (skip_ws r3)) with
                    | Some (l, rest) => Some ((k, v) :: l, rest)
                    | None => None
                    end
                  else if startsWith (skip_ws r3) "}" then
                    Some ([(k, v)], tail_of (skip_ws r3))
                  else None
              end
            else None
        end
      else None
  end.

Definition parse_json (s : string) : option json :=
  match parse_value (S (String.length s)) s with
  | Some (v, rest) => match skip_ws rest with EmptyString => Some v | _ => None end
  | None => None
  end.

(** What may follow a value inside a text. *)
Definition ends_token (rest : string) : bool :=
  match rest with
  | EmptyString => true
  | String c _ => Ascii.eqb c "," || Ascii.eqb c "]" || Ascii.eqb c "}"
  end.

(** ** JavaScript values *)

(** Truthiness ([!v], [v || d]) of a JSON value. *)
Definition truthy (v : json) : bool :=
  match v with
  | JNull => false
  | JBool b => b
  | JNum (NumNaN | NumZero _) => false
  | JNum _ => true
  | JStr s => negb (String.eqb s "")
  | JArr _ | JObj _ => true
  end.

(** An argument or a property may also be [undefined]: [None]. *)
Definition or_default (v : option json) (d : json) : json :=
  match v with
  | Some x => if truthy x then x else d
  | None => d
  end.

Fixpoint lookup (key : string) (o : list (string * json)) : option json :=
  match o with
  | [] => None
  | (k, v) :: tl => if String.eqb key k then Some v else lookup key tl
  end.

(** Own property of a non-null value, for the keys the client reads
    ([name], [description], [image], [traits], [contractAddress]):
    none of them exists on arrays, strings, numbers or booleans. *)
Definition member (v : json) (key : string) : option json :=
  match v with
  | JObj o => lookup key o
  | _ => None
  end.

(** Numbers as the token-identifier checks see them: not-a-number, the
    two infinities, or a finite value. *)
Inductive JsNum : Type :=
| NaN
| Infinity (negative : bool)
| Fin (q : Q).

Definition isNaN (n : JsNum) : bool :=
  match n with NaN => true | _ => false end.

(** [n < 0] *)
Definition lt_zero (n : JsNum) : bool :=
  match n with
  | NaN => false
  | Infinity negative => negative
  | Fin q => negb (Qle_bool 0 q)
  end.

Definition num_of_N (n : N) : JsNum := Fin (inject_Z (Z.of_N n)).

(** The [tokenId] argument of [getItem] and [verifyOwner]
    ([{number|string}], possibly missing). *)
Inductive TokenIdArg : Type :=
| TidUndefined
| TidNull
| TidNumber (n : JsNum)
| TidString (s : string).

(** ** Outcomes and errors

    Every error of the client is an [Error] object told apart by its
    message, so an abrupt completion carries the message. *)
Inductive Outcome (A : Type) : Type :=
| Return (a : A)
| Throw (message : string).
Arguments Return {A} a.
Arguments Throw {A} message.

(** The messages of the engine's own errors are fixed representatives. *)
Definition SyntaxError_message : string := "Unexpected token in JSON".
Definition TypeError_null (key : string) : string :=
  "Cannot read properties of null (reading '" ++ key ++ "')".
Definition TypeError_undefined (key : string) : string :=
  "Cannot read properties of undefined (reading '" ++ key ++ "')".
Definition TypeError_buffer : string :=
  "The first argument must be of type string or an instance of Buffer".

(** [JSON.parse(s)] *)
Definition JSON_parse (s : string) : Outcome json :=
  match parse_json s with
  | Some v => Return v
  | None => Throw SyntaxError_message
  end.

(** [v.key], which raises on [null]. *)
Definition get_prop (v : json) (key : string) : Outcome (option json) :=
  match v with
  | JNull => Throw (TypeError_null key)
  | _ => Return (member v key)
  end.

(** ** The ledger as the client sees it *)

Record LogDescription : Type := {
  ld_name : string;
  ld_tokenId : option Z  (* args.tokenId *)
}.

(** A log of a receipt, by what the contract interface makes of it: an
    event of the ABI, an event the ABI does not know, or data that fails
    to decode. *)
Inductive Log : Type :=
| LogEvent (d : LogDescription)
| LogUnknown
| LogMalformed (message : string).

Record Receipt : Type := {
  blockNumber : Z;
  logs : option (list Log)
}.

Record Tx : Type := {
  hash : string;
  wait : Outcome Receipt
}.

(** The entry points of the contract, each with the outcome of calling
    it: a fixed view of the ledger for the duration of a call.  Unsigned
    integers of the contract are [N], and [Number(bigint)] is taken to be
    exact; [tokenURI] and [ownerOf] receive the JavaScript number the
    client passes. *)
Record Contract : Type := {
  balanceOf : string -> Outcome N;
  tokenOfOwnerByIndex : string -> N -> Outcome N;
  tokenURI : JsNum -> Outcome string;
  ownerOf : JsNum -> Outcome string;
  totalSupply : Outcome N;
  contract_mint : string -> string -> Outcome Tx;
  contract_safeMint : string -> string -> Outcome Tx;
  contract_mintWithMetadata : string -> string -> Outcome Tx
}.

(** What the client takes from its environment. *)
Record Host : Type := {
  (* ethers.isAddress *)
  isAddress : string -> bool;
  (* Number(s) on a string *)
  StringToNumber : string -> JsNum;
  (* String(n) and n.toString() *)
  NumberToString : JsNum -> string;
  (* Buffer.from(s, 'base64').toString() *)
  base64_decode : string -> string;
  (* typeof fetch !== 'undefined' *)
  fetch_available : bool;
  (* fetch(url, { method: 'HEAD' }), then headers.get('content-type') *)
  fetch_head : string -> Outcome (option string);
  (* fs.readFileSync(path, 'utf8') *)
  readFileSync : string -> Outcome string;
  (* new ethers.Wallet(privateKey, provider) *)
  newWallet : string -> Outcome unit;
  (* new ethers.Contract(address, abi, runner) at an endpoint; the signing
     key is present for writes *)
  connect : string -> string -> option string -> Contract
}.

(** [contract.interface.parseLog(log)] of ethers 6 (the version whose
    [ethers.isAddress] and [ethers.JsonRpcProvider] the client calls): it
    starts with [this.getEvent(log.topics[0])], so an [undefined] log
    raises a TypeError; an event outside the ABI gives [null]; data that
    does not decode raises. *)
Definition parseLog (log : option Log) : Outcome (option LogDescription) :=
  match log with
  | None => Throw (TypeError_undefined "topics")
  | Some (LogEvent d) => Return (Some d)
  | Some LogUnknown => Return None
  | Some (LogMalformed message) => Throw message
  end.

(** ** Effects

    A call is a computation that may raise and that records, in order,
    what it asked of the outside world. *)
Inductive LedgerCall : Type :=
| CallBalanceOf (owner : string)
| CallTokenOfOwnerByIndex (owner : string) (index : N)
| CallTokenURI (tokenId : JsNum)
| CallOwnerOf (tokenId : JsNum)
| CallTotalSupply
| CallMint (to metadata : string)
| CallSafeMint (to metadata : string)
| CallMintWithMetadata (to metadata : string)
| CallWait (txHash : string).

Inductive Event : Type :=
| EvFetchHead (url : string)
| EvReadFile (path : string)
| EvLedger (call : LedgerCall).

Definition Trace : Type := list Event.
Bind Scope list_scope with Trace.

Definition M (A : Type) : Type := Trace -> Outcome A * Trace.

Definition ret {A : Type} (a : A) : M A := fun tr => (Return a, tr).

Definition throw {A : Type} (message : string) : M A := fun tr => (Throw message, tr).

Definition bind {A B : Type} (m : M A) (k : A -> M B) : M B :=
  fun tr =>
    match m tr with
    | (Return a, tr') => k a tr'
    | (Throw e, tr') => (Throw e, tr')
    end.

(** try { m } catch (error) { h error.message } *)
Definition try_catch {A : Type} (m : M A) (h : string -> M A) : M A :=
  fun tr =>
    match m tr with
    | (Return a, tr') => (Return a, tr')
    | (Throw e, tr') => h e tr'
    end.

Definition lift {A : Type} (o : Outcome A) : M A := fun tr => (o, tr).

Definition perform {A : Type} (ev : Event) (o : Outcome A) : M A :=
  fun tr => (o, (tr ++ [ev])%list).

Definition ledger {A : Type} (c : LedgerCall) (o : Outcome A) : M A :=
  perform (EvLedger c) o.

Notation "x <- m ;; k" := (bind m (fun x => k))
  (at level 61, m at next level, right associativity).

Definition is_ledger (e : Event) : bool :=
  match e with EvLedger _ => true | _ => false end.

Definition ledger_calls (tr : Trace) : list LedgerCall :=
  flat_map (fun e => match e with EvLedger c => [c] | _ => [] end) tr.

(** ** Configuration *)

Record Config : Type := {
  cfg_contractAddress : option string;
  cfg_privateKey : option string;
  cfg_rpcUrl : option string
}.

Definition no_config : Config :=
  {| cfg_contractAddress := None; cfg_privateKey := None; cfg_rpcUrl := None |}.

Definition nonempty (s : string) : bool := negb (String.eqb s "").

(** config.rpcUrl || 'https://polygon-rpc.com/' *)
Definition rpcUrl_of (config : Config) : string :=
  match cfg_rpcUrl config with
  | Some u => if nonempty u then u else "https://polygon-rpc.com/"
  | None => "https://polygon-rpc.com/"
  end.

(** [!a || !ethers.isAddress(a)] fails exactly on a non-empty string the
    library accepts. *)
Definition valid_address (H : Host) (a : option json) : option string :=
  match a with
  | Some (JStr s) => if nonempty s && isAddress H s then Some s else None
  | _ => None
  end.

Section Client.

Variable H : Host.

(** Lines 73-80 of mint.js (and the same lines of the three readers):
    the address persisted by the deployment script. *)
Definition readDeployment : M (option json) :=
  try_catch
    (text <- perform (EvReadFile "deployment.json") (readFileSync H "deployment.json") ;;
     deploymentInfo <- lift (JSON_parse text) ;;
     lift (get_prop deploymentInfo "contractAddress"))
    (fun _ => throw "Contract address not provided and deployment.json not found").

(** The block each of the four functions starts its ledger work with:
    the override, else [deployment.json], then the well-formedness
    check. *)
Definition loadContractAddress (config : Config) : M string :=
  contractAddress <-
    match cfg_contractAddress config with
    | Some a => if nonempty a then ret (Some (JStr a)) else readDeployment
    | None => readDeployment
    end ;;
  match valid_address H contractAddress with
  | Some a => ret a
  | None => throw "Invalid contract address"
  end.

(** ** Metadata codec *)

(** mint.js, lines 117-126 *)
Definition buildMetadata (imageUrl : string) (traits : json) : json :=
  JObj [ ("name", or_default (member traits "name") (JStr "Game Item"));
         ("description", or_default (member traits "description") (JStr "A game item NFT"));
         ("image", JStr imageUrl);
         ("traits", traits) ].

Definition encodeMetadata (imageUrl : string) (traits : json) : string :=
  stringify (buildMetadata imageUrl traits).

(** retrieve.js, lines 123-138, and get-item.js, lines 80-94 *)
Definition decodeMetadata (tokenURI : string) : Outcome json :=
  if startsWith tokenURI "data:application/json" then
    match nth_error (split "," tokenURI) 1 with
    | Some base64Data => JSON_parse (base64_decode H base64Data)
    | None => Throw TypeError_buffer
    end
  else if startsWith tokenURI "{" then JSON_parse tokenURI
  else if startsWith tokenURI "http" then Return (JObj [("uri", JStr tokenURI)])
  else Return (JObj [("raw", JStr tokenURI)]).

(** ** mint.js *)

Record MintResult : Type := {
  mr_success : bool;
  mr_transactionHash : string;
  mr_blockNumber : Z;
  mr_tokenId : option string;
  mr_destinationAddress : string;
  mr_imageUrl : string;
  mr_traits : json
}.

(** Lines 42-61: the HEAD probe of the image. *)
Definition probeImage (imageUrl : string) : M unit :=
  try_catch
    (if fetch_available H then
       contentType <- perform (EvFetchHead imageUrl) (fetch_head H imageUrl) ;;
       match contentType with
       | Some ct =>
           if startsWith ct "image/" then ret tt
           else throw "URL does not point to an image"
       | None => throw "URL does not point to an image"
       end
     else ret tt)
    (fun message =>
       if includes message "fetch" || includes message "undefined" then ret tt
       else throw message).

(** Lines 30-65 *)
Definition validateMint (destinationAddress imageUrl traits : option json)
  : M (string * string * json) :=
  to <- match valid_address H destinationAddress with
        | Some a => ret a
        | None => throw "Invalid destination address"
        end ;;
  image <- match imageUrl with
           | Some (JStr u) => if nonempty u then ret u else throw "Image URL is required"
           | _ => throw "Image URL is required"
           end ;;
  _ <- probeImage image ;;
  match traits with
  | Some (JArr l) => ret (to, image, JArr l)
  | Some (JObj o) => ret (to, image, JObj o)
  | _ => throw "Traits must be a valid object"
  end.

(** Lines 88-95 *)
Definition readPrivateKey : M string :=
  try_catch
    (text <- perform (EvReadFile "polygon_private_key.txt")
               (readFileSync H "polygon_private_key.txt") ;;
     ret (if startsWith (trim text) "0x" then trim text else "0x" ++ trim text))
    (fun _ => throw "Private key not provided and polygon_private_key.txt not found").

(** Lines 86-100 *)
Definition loadPrivateKey (config : Config) : M string :=
  privateKey <-
    match cfg_privateKey config with
    | Some k => if nonempty k then ret k else readPrivateKey
    | None => readPrivateKey
    end ;;
  if nonempty privateKey && startsWith privateKey "0x" then ret privateKey
  else throw "Invalid private key format".

(** Lines 67-115: configuration, wallet and contract handle. *)
Definition openMintContract (config : Config) : M Contract :=
  contractAddress <- loadContractAddress config ;;
  privateKey <- loadPrivateKey config ;;
  _ <- lift (newWallet H privateKey) ;;
  ret (connect H (rpcUrl_of config) contractAddress (Some privateKey)).

Definition mint_failed_prefix : string :=
  "Minting failed. Tried mint, safeMint, and mintWithMetadata. Original error: ".

(** Lines 131-150 *)
Definition submitMint (c : Contract) (to metadataJson : string) : M Tx :=
  try_catch
    (ledger (CallMint to metadataJson) (contract_mint c to metadataJson))
    (fun error =>
       try_catch
         (ledger (CallSafeMint to metadataJson) (contract_safeMint c to metadataJson))
         (fun error2 =>
            try_catch
              (ledger (CallMintWithMetadata to metadataJson)
                 (contract_mintWithMetadata c to metadataJson))
              (fun error3 => throw (mint_failed_prefix ++ error)))).

(** The callback of [receipt.logs.find]. *)
Definition isTransferLog (log : Log) : bool :=
  match parseLog (Some log) with
  | Return (Some d) => String.eqb (ld_name d) "Transfer"
  | Return None => false
  | Throw _ => false
  end.

(** [transferEvent && transferEvent.args && transferEvent.args.tokenId],
    then [tokenId.toString()]. *)
Definition eventTokenId (transferEvent : option LogDescription) : option string :=
  match transferEvent with
  | Some d =>
      match ld_tokenId d with
      | Some id => if (id =? 0)%Z then None else Some (string_of_Z id)
      | None => None
      end
  | None => None
  end.

(** Lines 158-173 *)
Definition tokenIdFromReceipt (receipt : Receipt) : M (option string) :=
  match logs receipt with
  | Some ls =>
      transferEvent <- lift (parseLog (find isTransferLog ls)) ;;
      ret (eventTokenId transferEvent)
  | None => ret None
  end.

(** Lines 175-183 *)
Definition tokenIdFallback (c : Contract) (tokenId : option string) : M (option string) :=
  match tokenId with
  | Some id => ret (Some id)
  | None =>
      try_catch
        (supply <- ledger CallTotalSupply (totalSupply c) ;;
         ret (Some (string_of_Z (Z.of_N supply - 1))))
        (fun _ => ret None)
  end.

(** Lines 156-193: after the submission. *)
Definition confirmMint (c : Contract) (tx : Tx) (to image : string) (traits : json)
  : M MintResult :=
  receipt <- ledger (CallWait (hash tx)) (wait tx) ;;
  tokenId <- tokenIdFromReceipt receipt ;;
  tokenId <- tokenIdFallback c tokenId ;;
  ret {| mr_success := true;
         mr_transactionHash := hash tx;
         mr_blockNumber := blockNumber receipt;
         mr_tokenId := tokenId;
         mr_destinationAddress := to;
         mr_imageUrl := image;
         mr_traits := traits |}.

Definition mint (destinationAddress imageUrl traits : option json)
  (config : Config) : M MintResult :=
  try_catch
    (checked <- validateMint destinationAddress imageUrl traits ;;
     let '(to, image, traitsObj) := checked in
     contract <- openMintContract config ;;
     tx <- submitMint contract to (encodeMetadata image traitsObj) ;;
     confirmMint contract tx to image traitsObj)
    (fun error => throw error).

(** ** retrieve.js *)

Inductive Item : Type :=
| ItemOk (tokenId : string) (metadata traits name description image : json)
| ItemFailed (tokenId : string) (error : string).

Definition item_tokenId (i : Item) : string :=
  match i with
  | ItemOk tokenId _ _ _ _ _ => tokenId
  | ItemFailed tokenId _ => tokenId
  end.

(** Lines 74-84: [remaining] iterations are left, [i] is the index and
    [tokenIds] the array so far; a failing read empties the array and
    leaves the loop. *)
Fixpoint indexLoop (c : Contract) (walletAddress : string) (remaining : nat) (i : N)
  (tokenIds : list string) : M (list string) :=
  match remaining with
  | O => ret tokenIds
  | S k =>
      r <- try_catch
             (tokenId <- ledger (CallTokenOfOwnerByIndex walletAddress i)
                           (tokenOfOwnerByIndex c walletAddress i) ;;
              ret (Some tokenId))
             (fun _ => ret None) ;;
      match r with
      | Some tokenId =>
          indexLoop c walletAddress k (i + 1)%N (tokenIds ++ [string_of_N tokenId])%list
      | None => ret []
      end
  end.

(** Lines 60-87.  [None] is the early [return []] on a zero balance. *)
Definition indexedTokens (c : Contract) (walletAddress : string) : M (option (list string)) :=
  try_catch
    (balance <- ledger (CallBalanceOf walletAddress) (balanceOf c walletAddress) ;;
     if (balance =? 0)%N then ret None
     else
       tokenIds <- indexLoop c walletAddress (N.to_nat balance) 0%N [] ;;
       ret (Some tokenIds))
    (fun _ => ret (Some [])).

(** Lines 98-108 *)
Fixpoint scanLoop (c : Contract) (walletAddress : string) (remaining : nat) (tokenId : N)
  (tokenIds : list string) : M (list string) :=
  match remaining with
  | O => ret tokenIds
  | S k =>
      r <- try_catch
             (owner <- ledger (CallOwnerOf (num_of_N tokenId)) (ownerOf c (num_of_N tokenId)) ;;
              ret (Some owner))
             (fun _ => ret None) ;;
      match r with
      | Some owner =>
          if String.eqb (toLowerCase owner) (toLowerCase walletAddress) then
            scanLoop c walletAddress k (tokenId + 1)%N (tokenIds ++ [string_of_N tokenId])%list
          else scanLoop c walletAddress k (tokenId + 1)%N tokenIds
      | None => scanLoop c walletAddress k (tokenId + 1)%N tokenIds
      end
  end.

(** Lines 89-114, entered when the array is empty. *)
Definition scanTokens (c : Contract) (walletAddress : string) : M (list string) :=
  try_catch
    (supply <- ledger CallTotalSupply (totalSupply c) ;;
     scanLoop c walletAddress (N.to_nat supply) 1%N [])
    (fun error => throw ("Failed to retrieve tokens: " ++ error)).

(** Lines 120-156: one token of the batch. *)
Definition fetchItem (c : Contract) (tokenId : string) : M Item :=
  try_catch
    (uri <- ledger (CallTokenURI (StringToNumber H tokenId))
              (tokenURI c (StringToNumber H tokenId)) ;;
     metadata <- lift (decodeMetadata uri) ;;
     traits <- lift (get_prop metadata "traits") ;;
     ret (ItemOk tokenId metadata
            (or_default traits (JObj []))
            (or_default (member metadata "name") (JStr ("Item #" ++ tokenId)))
            (or_default (member metadata "description") (JStr ""))
            (or_default (member metadata "image") (JStr ""))))
    (fun error => ret (ItemFailed tokenId error)).

Fixpoint fetchItems (c : Contract) (tokenIds : list string) : M (list Item) :=
  match tokenIds with
  | [] => ret []
  | tokenId :: rest =>
      item <- fetchItem c tokenId ;;
      items <- fetchItems c rest ;;
      ret (item :: items)
  end.

Definition retrieve (walletAddress : option json) (config : Config)
  : M (list Item) :=
  try_catch
    (wallet <- match valid_address H walletAddress with
               | Some a => ret a
               | None => throw "Invalid wallet address"
               end ;;
     contractAddress <- loadContractAddress config ;;
     let contract := connect H (rpcUrl_of config) contractAddress None in
     indexed <- indexedTokens contract wallet ;;
     match indexed with
     | None => ret []
     | Some tokenIds =>
         tokenIds <- (if (List.length tokenIds =? 0)%nat then scanTokens contract wallet
                      else ret tokenIds) ;;
         fetchItems contract tokenIds
     end)
    (fun error => throw error).

(** ** get-item.js and verify-owner.js *)

(** Number(tokenId) *)
Definition Number (tokenId : TokenIdArg) : JsNum :=
  match tokenId with
  | TidUndefined => NaN
  | TidNull => Fin 0
  | TidNumber n => n
  | TidString s => StringToNumber H s
  end.

(** The text of [tokenId] inside a template literal. *)
Definition show_tokenId (tokenId : TokenIdArg) : string :=
  match tokenId with
  | TidUndefined => "undefined"
  | TidNull => "null"
  | TidNumber n => NumberToString H n
  | TidString s => s
  end.

(** get-item.js, lines 20-28; verify-owner.js, lines 28-35 *)
Definition validateTokenId (tokenId : TokenIdArg) : M JsNum :=
  match tokenId with
  | TidUndefined | TidNull => throw "Token ID is required"
  | _ =>
      if isNaN (Number tokenId) || lt_zero (Number tokenId)
      then throw "Token ID must be a valid number"
      else ret (Number tokenId)
  end.

Definition token_not_found (tokenId : TokenIdArg) : string :=
  "Token ID " ++ show_tokenId tokenId ++ " does not exist or has been burned".

(** get-item.js, lines 62-68; verify-owner.js, lines 69-75 *)
Definition readOwner (c : Contract) (tokenId : TokenIdArg) (tokenIdNumber : JsNum)
  : M string :=
  try_catch
    (ledger (CallOwnerOf tokenIdNumber) (ownerOf c tokenIdNumber))
    (fun _ => throw (token_not_found tokenId)).

Record TokenView : Type := {
  tv_tokenId : string;
  tv_owner : string;
  tv_metadata : option json;
  tv_traits : json;
  tv_name : json;
  tv_description : json;
  tv_image : json;
  tv_contractAddress : string
}.

(** get-item.js, lines 70-105: the four fields keep their initial values
    when the read or the decoding raises. *)
Definition readMetadata (c : Contract) (tokenId : TokenIdArg)
  (tokenIdNumber : JsNum) : M (option json * json * json * json * json) :=
  try_catch
    (uri <- ledger (CallTokenURI tokenIdNumber) (tokenURI c tokenIdNumber) ;;
     metadata <- lift (decodeMetadata uri) ;;
     traits <- lift (get_prop metadata "traits") ;;
     ret (Some metadata,
          or_default traits (JObj []),
          or_default (member metadata "name") (JStr ("Item #" ++ show_tokenId tokenId)),
          or_default (member metadata "description") (JStr ""),
          or_default (member metadata "image") (JStr "")))
    (fun _ => ret (None, JObj [], JStr "", JStr "", JStr "")).

Definition getItem (tokenId : TokenIdArg) (config : Config) : M TokenView :=
  try_catch
    (tokenIdNumber <- validateTokenId tokenId ;;
     contractAddress <- loadContractAddress config ;;
     let contract := connect H (rpcUrl_of config) contractAddress None in
     owner <- readOwner contract tokenId tokenIdNumber ;;
     fields <- readMetadata contract tokenId tokenIdNumber ;;
     let '(metadata, traits, name, description, image) := fields in
     ret {| tv_tokenId := NumberToString H tokenIdNumber;
            tv_owner := owner;
            tv_metadata := metadata;
            tv_traits := traits;
            tv_name := name;
            tv_description := description;
            tv_image := image;
            tv_contractAddress := contractAddress |})
    (fun error => throw error).

Record Verification : Type := {
  isOwner : bool;
  vr_walletAddress : string;
  actualOwner : string;
  vr_tokenId : string;
  vr_contractAddress : string
}.

Definition verifyOwner (walletAddress : option json) (tokenId : TokenIdArg)
  (config : Config) : M Verification :=
  try_catch
    (wallet <- match valid_address H walletAddress with
               | Some a => ret a
               | None => throw "Invalid wallet address"
               end ;;
     tokenIdNumber <- validateTokenId tokenId ;;
     contractAddress <- loadContractAddress config ;;
     let contract := connect H (rpcUrl_of config) contractAddress None in
     owner <- readOwner contract tokenId tokenIdNumber ;;
     ret {| isOwner := String.eqb (toLowerCase wallet) (toLowerCase owner);
            vr_walletAddress := wallet;
            actualOwner := owner;
            vr_tokenId := NumberToString H tokenIdNumber;
            vr_contractAddress := contractAddress |})
    (fun error => throw error).

End Client.

(** ** Scenarios

    Concrete hosts on which the client can be run.  The contract is the
    repository's [GameItem] (deploy/contracts/GameItem.sol): identifiers
    are handed out from 1 up to [MAX_SUPPLY], [totalSupply] is the number
    handed out, the three mint entry points do the same, and the
    enumerable extension ([tokenOfOwnerByIndex]) is absent.  The caller
    is taken to be the owner of the contract. *)

Definition is_hex (c : ascii) : bool :=
  match hex_val c with Some _ => true | None => false end.

Fixpoint all_hex (s : string) : bool :=
  match s with
  | EmptyString => true
  | String c r => is_hex c && all_hex r
  end.

(** [0x] and forty hexadecimal digits. *)
Definition hex_address (s : string) : bool :=
  startsWith s "0x" && (String.length s =? 42)%nat && all_hex (tail_of (tail_of s)).

(** Decimal numerals, the empty string being 0. *)
Definition decimal_number (s : string) : JsNum :=
  match s with
  | EmptyString => Fin 0
  | _ => match read_digits s with
         | (d, EmptyString) => Fin (inject_Z (Z.of_N (N.of_uint d)))
         | _ => NaN
         end
  end.

Fixpoint fraction_digits (fuel : nat) (r den : Z) : string :=
  match fuel with
  | O => ""
  | S f =>
      if (r =? 0)%Z then ""
      else String (ascii_of_N (48 + Z.to_N (r * 10 / den)))
             (fraction_digits f ((r * 10) mod den) den)
  end.

Definition show_number (n : JsNum) : string :=
  match n with
  | NaN => "NaN"
  | Infinity false => "Infinity"
  | Infinity true => "-Infinity"
  | Fin q =>
      let num := Z.abs (Qnum q) in
      let den := Z.pos (Qden q) in
      (if (Qnum q <? 0)%Z then "-" else "") ++ string_of_Z (num / den)
      ++ (if (num mod den =? 0)%Z then ""
          else "." ++ fraction_digits 17 (num mod den) den)
  end.

Definition base64_val (c : ascii) : option N :=
  let n := N_of_ascii c in
  if (65 <=? n)%N && (n <=? 90)%N then Some (n - 65)%N
  else if (97 <=? n)%N && (n <=? 122)%N then Some (n - 71)%N
  else if (48 <=? n)%N && (n <=? 57)%N then Some (n + 4)%N
  else if (n =? 43)%N || (n =? 45)%N then Some 62%N
  else if (n =? 47)%N || (n =? 95)%N then Some 63%N
  else None.

Fixpoint base64_bytes (s : string) (acc bits : N) : string :=
  match s with
  | EmptyString => ""
  | String c r =>
      if Ascii.eqb c "=" then ""
      else match base64_val c with
           | None => base64_bytes r acc bits
           | Some v =>
               let acc' := (acc * 64 + v)%N in
               if (2 <=? bits)%N then
                 String (ascii_of_N (acc' / 2 ^ (bits - 2)))
                   (base64_bytes r (acc' mod 2 ^ (bits - 2)) (bits - 2))
               else base64_bytes r acc' (bits + 6)
           end
  end.

Definition base64_text (s : string) : string := base64_bytes s 0 0.

Definition uint_of_num (n : JsNum) : option N :=
  match n with
  | Fin q =>
      if ((Qnum q mod Z.pos (Qden q) =? 0) && (0 <=? Qnum q))%Z
      then Some (Z.to_N (Qnum q / Z.pos (Qden q)))
      else None
  | _ => None
  end.

Record GameItemState : Type := {
  nextTokenId : N;
  owners : list (N * string);
  tokenURIs : list (N * string)
}.

Fixpoint assoc (id : N) (l : list (N * string)) : option string :=
  match l with
  | [] => None
  | (k, v) :: tl => if (id =? k)%N then Some v else assoc id tl
  end.

Definition MAX_SUPPLY : N := 1000000.

Definition transferReceipt (tokenId : N) : Receipt :=
  {| blockNumber := 100;
     logs := Some [LogUnknown;
                   LogEvent {| ld_name := "Transfer"; ld_tokenId := Some (Z.of_N tokenId) |}] |}.

Definition gameItem_mint (s : GameItemState) : Outcome Tx :=
  if (nextTokenId s <=? MAX_SUPPLY)%N then
    Return {| hash := "0xfeed"; wait := Return (transferReceipt (nextTokenId s)) |}
  else Throw "execution reverted: Max supply reached".

Definition gameItem (s : GameItemState) : Contract :=
  {| balanceOf := fun a =>
       Return (N.of_nat (List.length
                 (filter (fun kv => String.eqb (toLowerCase (snd kv)) (toLowerCase a))
                    (owners s))));
     tokenOfOwnerByIndex := fun _ _ => Throw "execution reverted";
     tokenURI := fun n =>
       match uint_of_num n with
       | Some id =>
           match assoc id (owners s), assoc id (tokenURIs s) with
           | Some _, Some uri => Return uri
           | Some _, None => Return ""
           | None, _ => Throw "execution reverted: ERC721NonexistentToken"
           end
       | None => Throw "invalid BigNumberish value"
       end;
     ownerOf := fun n =>
       match uint_of_num n with
       | Some id =>
           match assoc id (owners s) with
           | Some o => Return o
           | None => Throw "execution reverted: ERC721NonexistentToken"
           end
       | None => Throw "invalid BigNumberish value"
       end;
     totalSupply := Return (nextTokenId s - 1)%N;
     contract_mint := fun _ _ => gameItem_mint s;
     contract_safeMint := fun _ _ => gameItem_mint s;
     contract_mintWithMetadata := fun _ _ => gameItem_mint s |}.

Definition hostOf (fetchable : bool) (c : Contract) : Host :=
  {| isAddress := hex_address;
     StringToNumber := decimal_number;
     NumberToString := show_number;
     base64_decode := base64_text;
     fetch_available := fetchable;
     fetch_head := fun url =>
       if startsWith url "http" then Return (Some "image/png")
       else Throw ("Failed to parse URL from " ++ url);
     readFileSync := fun path => Throw ("ENOENT: no such file or directory, open '" ++ path ++ "'");
     newWallet := fun _ => Return tt;
     connect := fun _ _ _ => c |}.

Definition alice : string := "0xabcdef0123456789abcdef0123456789abcdef01".
Definition alice_checksummed : string := "0xABCDEF0123456789ABCDEF0123456789ABCDEF01".
Definition bob : string := "0x2222222222222222222222222222222222222222".
Definition gameItemAddress : string := "0x3333333333333333333333333333333333333333".

Definition demoConfig : Config :=
  {| cfg_contractAddress := Some gameItemAddress;
     cfg_privateKey := Some "0x01";
     cfg_rpcUrl := None |}.

Definition swordTraits : json := JObj [("name", JStr "Sword"); ("attack", JNum 100)].

(** Total supply 5, of which [alice] holds 2 and 4. *)
Definition fiveTokens : GameItemState :=
  {| nextTokenId := 6;
     owners := [(1, bob); (2, alice_checksummed); (3, bob); (4, alice_checksummed); (5, bob)]%N;
     tokenURIs := [(1, "https://example.com/1.json");
                   (2, encodeMetadata "https://example.com/sword.png" swordTraits);
                   (3, "not-json-not-uri");
                   (4, "data:application/json;base64,eyJuYW1lIjoiU2hpZWxkIn0=");
                   (5, "{broken")]%N |}.

Definition fiveHost : Host := hostOf true (gameItem fiveTokens).

(** An enumerable contract whose second of three per-index reads fails. *)
Definition flakyIndex : Contract :=
  {| balanceOf := fun _ => Return 3%N;
     tokenOfOwnerByIndex := fun _ i =>
       if (i =? 1)%N then Throw "timeout" else Return (2 * i + 2)%N;
     tokenURI := tokenURI (gameItem fiveTokens);
     ownerOf := ownerOf (gameItem fiveTokens);
     totalSupply := totalSupply (gameItem fiveTokens);
     contract_mint := contract_mint (gameItem fiveTokens);
     contract_safeMint := contract_safeMint (gameItem fiveTokens);
     contract_mintWithMetadata := contract_mintWithMetadata (gameItem fiveTokens) |}.

Definition flakyHost : Host := hostOf true flakyIndex.

(** A contract that rejects every mint entry point, each with its own
    reason. *)
Definition rejecting : Contract :=
  {| balanceOf := balanceOf (gameItem fiveTokens);
     tokenOfOwnerByIndex := tokenOfOwnerByIndex (gameItem fiveTokens);
     tokenURI := tokenURI (gameItem fiveTokens);
     ownerOf := ownerOf (gameItem fiveTokens);
     totalSupply := totalSupply (gameItem fiveTokens);
     contract_mint := fun _ _ => Throw "revert A";
     contract_safeMint := fun _ _ => Throw "revert B";
     contract_mintWithMetadata := fun _ _ => Throw "revert C" |}.

Definition rejectingHost : Host := hostOf true rejecting.

(** A contract whose mint confirms without any Transfer event the ABI
    knows. *)
Definition silentMint : Contract :=
  {| balanceOf := balanceOf (gameItem fiveTokens);
     tokenOfOwnerByIndex := tokenOfOwnerByIndex (gameItem fiveTokens);
     tokenURI := tokenURI (gameItem fiveTokens);
     ownerOf := ownerOf (gameItem fiveTokens);
     totalSupply := Return 5%N;
     contract_mint := fun _ _ =>
       Return {| hash := "0xfeed";
                 wait := Return {| blockNumber := 100; logs := Some [LogUnknown] |} |};
     contract_safeMint := fun _ _ => Throw "no such method";
     contract_mintWithMetadata := fun _ _ => Throw "no such method" |}.

Definition silentHost : Host := hostOf true silentMint.

(** The same contract behind an older runtime, without [fetch]. *)
Definition legacyHost : Host := hostOf false (gameItem fiveTokens).

(** ** Vocabulary of the statements *)

(** The identifiers [start], [start + 1], ... ([count] of them). *)
Fixpoint N_range (start : N) (count : nat) : list N :=
  match count with
  | O => []
  | S k => start :: N_range (start + 1) k
  end.

(** The owner read of [id] succeeds and names [wallet], up to case. *)
Definition owned_by (c : Contract) (wallet : string) (id : N) : bool :=
  match ownerOf c (num_of_N id) with
  | Return o => String.eqb (toLowerCase o) (toLowerCase wallet)
  | Throw _ => false
  end.

(** [n] is negative. *)
Definition negative (n : JsNum) : Prop :=
  match n with
  | NaN => False
  | Infinity neg => neg = true
  | Fin q => (q < 0)%Q
  end.

(** The inputs the token-identifier check refuses. *)
Definition tokenId_refused (H : Host) (tokenId : TokenIdArg) : Prop :=
  tokenId = TidUndefined \/ tokenId = TidNull \/
  Number H tokenId = NaN \/ negative (Number H tokenId).

Definition tokenId_error (message : string) : Prop :=
  message = "Token ID is required" \/ message = "Token ID must be a valid number".

(** A non-null structured value: an object or an array. *)
Definition is_object (v : json) : bool :=
  match v with
  | JArr _ | JObj _ => true
  | _ => false
  end.

Definition missing_image (imageUrl : option json) : Prop :=
  match imageUrl with
  | Some (JStr u) => u = ""
  | _ => True
  end.

Definition invalid_traits (traits : option json) : Prop :=
  match traits with
  | Some t => is_object t = false
  | None => True
  end.

(** The errors of the validating step of [mint]: its three messages, or
    what the probe of the image raised. *)
Definition validation_error (H : Host) (imageUrl : option json) (message : string) : Prop :=
  message = "Invalid destination address" \/
  message = "Image URL is required" \/
  message = "Traits must be a valid object" \/
  (exists u, imageUrl = Some (JStr u) /\ fetch_available H = true /\
             (message = "URL does not point to an image" \/
              fetch_head H u = Throw message)).

(** The write calls among the ledger calls of a trace. *)
Definition is_submission (c : LedgerCall) : bool :=
  match c with
  | CallMint _ _ | CallSafeMint _ _ | CallMintWithMetadata _ _ => true
  | _ => false
  end.

(** ** Further scenarios *)

(** An enumerable contract that reports the holder's tokens in its own
    order: 4 before 2. *)
Definition enumerable : Contract :=
  {| balanceOf := fun _ => Return 2%N;
     tokenOfOwnerByIndex := fun _ i => Return (4 - 2 * i)%N;
     tokenURI := tokenURI (gameItem fiveTokens);
     ownerOf := ownerOf (gameItem fiveTokens);
     totalSupply := totalSupply (gameItem fiveTokens);
     contract_mint := contract_mint (gameItem fiveTokens);
     contract_safeMint := contract_safeMint (gameItem fiveTokens);
     contract_mintWithMetadata := contract_mintWithMetadata (gameItem fiveTokens) |}.

Definition enumerableHost : Host := hostOf true enumerable.

(** A contract without [balanceOf]. *)
Definition noBalance : Contract :=
  {| balanceOf := fun _ => Throw "execution reverted";
     tokenOfOwnerByIndex := tokenOfOwnerByIndex (gameItem fiveTokens);
     tokenURI := tokenURI (gameItem fiveTokens);
     ownerOf := ownerOf (gameItem fiveTokens);
     totalSupply := totalSupply (gameItem fiveTokens);
     contract_mint := contract_mint (gameItem fiveTokens);
     contract_safeMint := contract_safeMint (gameItem fiveTokens);
     contract_mintWithMetadata := contract_mintWithMetadata (gameItem fiveTokens) |}.

Definition noBalanceHost : Host := hostOf true noBalance.

Definition carol : string := "0x4444444444444444444444444444444444444444".

(** A mint that is accepted and then reverts at confirmation. *)
Definition reverting : Contract :=
  {| balanceOf := balanceOf (gameItem fiveTokens);
     tokenOfOwnerByIndex := tokenOfOwnerByIndex (gameItem fiveTokens);
     tokenURI := tokenURI (gameItem fiveTokens);
     ownerOf := ownerOf (gameItem fiveTokens);
     totalSupply := totalSupply (gameItem fiveTokens);
     contract_mint := fun _ _ =>
       Return {| hash := "0xdead"; wait := Throw "transaction execution reverted" |};
     contract_safeMint := contract_safeMint (gameItem fiveTokens);
     contract_mintWithMetadata := contract_mintWithMetadata (gameItem fiveTokens) |}.

Definition revertingHost : Host := hostOf true reverting.

(** A mint whose Transfer event carries identifier 0. *)
Definition zeroId : Contract :=
  {| balanceOf := balanceOf (gameItem fiveTokens);
     tokenOfOwnerByIndex := tokenOfOwnerByIndex (gameItem fiveTokens);
     tokenURI := tokenURI (gameItem fiveTokens);
     ownerOf := ownerOf (gameItem fiveTokens);
     totalSupply := Return 1%N;
     contract_mint := fun _ _ =>
       Return {| hash := "0xfeed";
                 wait := Return {| blockNumber := 7;
                                   logs := Some [LogEvent {| ld_name := "Transfer";
                                                             ld_tokenId := Some 0%Z |}] |} |};
     contract_safeMint := contract_safeMint (gameItem fiveTokens);
     contract_mintWithMetadata := contract_mintWithMetadata (gameItem fiveTokens) |}.

Definition zeroIdHost : Host := hostOf true zeroId.

(** A host with the two persisted files of a deployment. *)
Definition deployedHost : Host :=
  {| isAddress := hex_address;
     StringToNumber := decimal_number;
     NumberToString := show_number;
     base64_decode := base64_text;
     fetch_available := true;
     fetch_head := fetch_head fiveHost;
     readFileSync := fun path =>
       if String.eqb path "deployment.json"
       then Return (stringify (JObj [("contractAddress", JStr gameItemAddress);
                                     ("ownerAddress", JStr bob)]))
       else if String.eqb path "polygon_private_key.txt"
       then Return (String " " (String "a" (String "b" (String "010" EmptyString))))
       else Throw "ENOENT";
     newWallet := fun _ => Return tt;
     connect := fun _ _ _ => gameItem fiveTokens |}.

(** ** logger.js

    The audit log is a CSV file per operation under the storage
    directory.  The disk is the list of the files with their contents,
    and a file that cannot be written makes [fs.writeFileSync] and
    [fs.appendFileSync] raise. *)

Record Disk : Type := {
  contents : list (string * string);
  writable : string -> bool
}.

Fixpoint disk_lookup (path : string) (l : list (string * string)) : option string :=
  match l with
  | [] => None
  | (p, c) :: tl => if String.eqb path p then Some c else disk_lookup path tl
  end.

Fixpoint disk_store (path data : string) (l : list (string * string))
  : list (string * string) :=
  match l with
  | [] => [(path, data)]
  | (p, c) :: tl =>
      if String.eqb path p then (p, data) :: tl else (p, c) :: disk_store path data tl
  end.

Definition readDisk (d : Disk) (path : string) : option string :=
  disk_lookup path (contents d).

(** fs.existsSync(path) *)
Definition existsSync (d : Disk) (path : string) : bool :=
  match readDisk d path with Some _ => true | None => false end.

(** fs.writeFileSync(path, data) *)
Definition writeFileSync (path data : string) (d : Disk) : Outcome Disk :=
  if writable d path then
    Return {| contents := disk_store path data (contents d); writable := writable d |}
  else Throw ("EACCES: permission denied, open '" ++ path ++ "'").

(** fs.appendFileSync(path, data, 'utf8') *)
Definition appendFileSync (path data : string) (d : Disk) : Outcome Disk :=
  if writable d path then
    Return {| contents :=
                disk_store path
                  (match readDisk d path with Some old => old | None => "" end ++ data)
                  (contents d);
              writable := writable d |}
  else Throw ("EACCES: permission denied, open '" ++ path ++ "'").

(** path.join(STORAGE_PATH, name), for a storage path without a trailing
    separator. *)
Definition logFile (storage name : string) : string := storage ++ "/" ++ name.

(** s.replace(/c/g, r) for a one-character pattern. *)
Fixpoint replaceAll (c r : ascii) (s : string) : string :=
  match s with
  | EmptyString => ""
  | String x tl => String (if Ascii.eqb x c then r else x) (replaceAll c r tl)
  end.

(** errorMessage.replace(/,/g, ';').replace(/\n/g, ' ') *)
Definition sanitize (errorMessage : string) : string :=
  replaceAll "010" " " (replaceAll "," ";" errorMessage).

(** String(v), as a template literal renders a value. *)
Fixpoint js_toString (v : json) : string :=
  match v with
  | JNull => "null"
  | JBool true => "true"
  | JBool false => "false"
  | JNum n => print_number n
  | JStr s => s
  | JArr l => join "," (map (fun x => match x with
                                      | JNull => ""
                                      | _ => js_toString x
                                      end) l)
  | JObj _ => "[object Object]"
  end.

(** [`${v || ''}`] for a value that may be missing. *)
Definition field_or_empty (v : option json) : string :=
  match v with
  | Some x => if truthy x then js_toString x else ""
  | None => ""
  end.

(** field => `"${field}"` *)
Definition csv_field (field : string) : string :=
  String dquote (field ++ String dquote "").

Definition csv_line (fields : list string) : string :=
  join "," (map csv_field fields) ++ String "010" "".

Definition mint_header : string :=
  "timestamp,wallet_address,destination_address,image_url,token_id,transaction_hash,block_number,success,error_message"
  ++ String "010" "".

Definition retrieve_header : string :=
  "timestamp,wallet_address,items_count,success,error_message" ++ String "010" "".

(** Lines 34-43 and 63-72: the header when the file is new, then the
    line; the [catch] of the caller drops whatever raises. *)
Definition appendLog (file header line : string) (d : Disk) : Disk :=
  match (if existsSync d file then Return d else writeFileSync file header d) with
  | Throw _ => d
  | Return started =>
      match appendFileSync file line started with
      | Return written => written
      | Throw _ => started
      end
  end.

Definition mint_line (now : string)
  (walletAddress destinationAddress imageUrl tokenId transactionHash blockNumber : option json)
  (success : bool) (errorMessage : string) : string :=
  csv_line [ now;
             field_or_empty walletAddress;
             field_or_empty destinationAddress;
             field_or_empty imageUrl;
             field_or_empty tokenId;
             field_or_empty transactionHash;
             field_or_empty blockNumber;
             if success then "true" else "false";
             sanitize errorMessage ].

(** logMint; [now] is [new Date().toISOString()]. *)
Definition logMint (storage now : string)
  (walletAddress destinationAddress imageUrl tokenId transactionHash blockNumber : option json)
  (success : bool) (errorMessage : string) (d : Disk) : Disk :=
  appendLog (logFile storage "mint_logs.csv") mint_header
    (mint_line now walletAddress destinationAddress imageUrl tokenId transactionHash
       blockNumber success errorMessage) d.

Definition retrieve_line (now : string) (walletAddress : option json) (itemsCount : nat)
  (success : bool) (errorMessage : string) : string :=
  csv_line [ now;
             field_or_empty walletAddress;
             string_of_N (N.of_nat itemsCount);
             if success then "true" else "false";
             sanitize errorMessage ].

(** logRetrieve *)
Definition logRetrieve (storage now : string) (walletAddress : option json)
  (itemsCount : nat) (success : bool) (errorMessage : string) (d : Disk) : Disk :=
  appendLog (logFile storage "retrieve_logs.csv") retrieve_header
    (retrieve_line now walletAddress itemsCount success errorMessage) d.

(** ** server.js *)

Record Response : Type := {
  status : nat;
  payload : json
}.

(** res.json(v) *)
Definition res_json (v : json) : Response := {| status := 200; payload := v |}.

(** res.status(code).json({ error, message }) *)
Definition res_error (code : nat) (error message : string) : Response :=
  {| status := code;
     payload := JObj [("error", JStr error); ("message", JStr message)] |}.

(** The three places a request can carry the key.  [body] is [req.body]:
    the parsed body, which the body parser of the framework leaves empty
    or, in its later versions, undefined ([None]) when the request has
    none. *)
Record Credentials : Type := {
  header_apiKey : option string;
  body : option json;
  query_apiKey : option json
}.

Definition truthy_or (v : option json) (otherwise : option json) : option json :=
  match v with
  | Some x => if truthy x then Some x else otherwise
  | None => otherwise
  end.

(** req.headers['x-api-key'] || req.body.apiKey || req.query.apiKey,
    when it is truthy; the body is read only when the header gives
    nothing. *)
Definition providedKey (cr : Credentials) : Outcome (option json) :=
  match truthy_or (option_map JStr (header_apiKey cr)) None with
  | Some key => Return (Some key)
  | None =>
      match body cr with
      | None => Throw (TypeError_undefined "apiKey")
      | Some b =>
          match get_prop b "apiKey" with
          | Throw e => Throw e
          | Return fromBody => Return (truthy_or fromBody (truthy_or (query_apiKey cr) None))
          end
      end
  end.

(** providedKey !== endpointKey *)
Definition same_key (provided : json) (endpointKey : string) : bool :=
  match provided with
  | JStr s => String.eqb s endpointKey
  | _ => false
  end.

Section Server.

Variable H : Host.

(** Lines 42-71.  [None] is [next()]; what the middleware raises is left
    to the error handler of the framework. *)
Definition authenticate (cr : Credentials) : M (option Response) :=
  provided <- lift (providedKey cr) ;;
  match provided with
  | None =>
      ret (Some (res_error 401 "Unauthorized"
                   "API key is required. Include it in X-API-Key header, or as apiKey in body/query."))
  | Some key =>
      loaded <- try_catch
                  (text <- perform (EvReadFile "endpoint_key.txt")
                             (readFileSync H "endpoint_key.txt") ;;
                   ret (Some (trim text)))
                  (fun _ => ret None) ;;
      match loaded with
      | None =>
          ret (Some (res_error 500 "Server configuration error" "Endpoint key file not found"))
      | Some endpointKey =>
          if same_key key endpointKey then ret None
          else ret (Some (res_error 403 "Forbidden" "Invalid API key"))
      end
  end.

(** A handler behind the middleware. *)
Definition guarded (cr : Credentials) (handler : M Response) : M Response :=
  verdict <- authenticate cr ;;
  match verdict with
  | Some response => ret response
  | None => handler
  end.

(** Lines 222-224, 294-296 and 355-357: the configuration a GET request
    can give, from its query string. *)
Definition queryConfig (contractAddress rpcUrl : option string) : Config :=
  {| cfg_contractAddress :=
       match contractAddress with
       | Some a => if nonempty a then Some a else None
       | None => None
       end;
     cfg_privateKey := None;
     cfg_rpcUrl :=
       match rpcUrl with
       | Some u => if nonempty u then Some u else None
       | None => None
       end |}.

Definition json_of_TokenView (item : TokenView) : json :=
  JObj [ ("tokenId", JStr (tv_tokenId item));
         ("owner", JStr (tv_owner item));
         ("metadata", match tv_metadata item with Some m => m | None => JNull end);
         ("traits", tv_traits item);
         ("name", tv_name item);
         ("description", tv_description item);
         ("image", tv_image item);
         ("contractAddress", JStr (tv_contractAddress item)) ].

Definition json_of_Item (item : Item) : json :=
  match item with
  | ItemOk tokenId metadata traits name description image =>
      JObj [ ("tokenId", JStr tokenId); ("metadata", metadata); ("traits", traits);
             ("name", name); ("description", description); ("image", image) ]
  | ItemFailed tokenId error =>
      JObj [ ("tokenId", JStr tokenId); ("metadata", JNull); ("error", JStr error) ]
  end.

Definition json_of_MintResult (r : MintResult) : json :=
  JObj [ ("success", JBool (mr_success r));
         ("transactionHash", JStr (mr_transactionHash r));
         ("blockNumber", JNum (mr_blockNumber r));
         ("tokenId", match mr_tokenId r with Some id => JStr id | None => JNull end);
         ("destinationAddress", JStr (mr_destinationAddress r));
         ("imageUrl", JStr (mr_imageUrl r));
         ("traits", mr_traits r) ].

Definition success_data (data : json) : json :=
  JObj [("success", JBool true); ("data", data)].

(** Lines 288-315: GET /api/item/:tokenId *)
Definition handleGetItem (tokenId : string) (contractAddress rpcUrl : option string)
  : M Response :=
  try_catch
    (item <- getItem H (TidString tokenId) (queryConfig contractAddress rpcUrl) ;;
     ret (res_json (success_data (json_of_TokenView item))))
    (fun message => ret (res_error 500 "Internal Server Error" message)).

(** Lines 216-253: GET /api/retrieve/:walletAddress, which also writes
    the retrieve log. *)
Definition handleRetrieve (storage now : string) (walletAddress : string)
  (contractAddress rpcUrl : option string) (tr : Trace) (d : Disk)
  : Response * Trace * Disk :=
  match retrieve H (Some (JStr walletAddress)) (queryConfig contractAddress rpcUrl) tr with
  | (Return items, tr') =>
      (res_json (JObj [ ("success", JBool true);
                        ("count", JNum (Z.of_nat (List.length items)));
                        ("data", JArr (map json_of_Item items)) ]),
       tr',
       logRetrieve storage now (Some (JStr walletAddress)) (List.length items) true "" d)
  | (Throw message, tr') =>
      (res_error 500 "Internal Server Error" message,
       tr',
       logRetrieve storage now (Some (JStr walletAddress)) 0 false message d)
  end.

(** An uploaded image as the upload middleware hands it over; [base64]
    is [buffer.toString('base64')]. *)
Record Upload : Type := {
  originalname : string;
  mimetype : string;
  base64 : string
}.

Record MintBody : Type := {
  mb_destinationAddress : option json;
  mb_imageUrl : option json;
  mb_traits : option json
}.

Definition is_falsy (v : option json) : bool :=
  match v with
  | Some x => negb (truthy x)
  | None => true
  end.

(** Lines 81-138 of the mint handler: what is checked and assembled
    before [mint] is called.  The result is the 400 response, or the
    destination, the image reference and the traits handed to [mint]. *)
Definition prepareMint (body : MintBody) (imageFile : option Upload)
  : Response + (option json * option json * option json) :=
  if is_falsy (mb_destinationAddress body) then
    inl (res_error 400 "Bad Request" "destinationAddress is required")
  else
    match (match mb_traits body with
           | Some (JStr text) =>
               match JSON_parse text with
               | Return v => Return (Some v)
               | Throw e => Throw e
               end
           | other => Return other
           end) with
    | Throw _ => inl (res_error 400 "Bad Request" "traits must be a valid JSON object")
    | Return traitsObj =>
        if is_falsy traitsObj || negb (match traitsObj with
                                       | Some v => is_object v
                                       | None => false
                                       end) then
          inl (res_error 400 "Bad Request" "traits object is required")
        else
          match (match imageFile with
                 | Some file =>
                     Some (Some (JStr ("data:" ++ mimetype file ++ ";base64," ++ base64 file)))
                 | None =>
                     if is_falsy (mb_imageUrl body) then None else Some (mb_imageUrl body)
                 end) with
          | None =>
              inl (res_error 400 "Bad Request"
                     "Either image file upload or imageUrl is required")
          | Some finalImageUrl =>
              if is_falsy finalImageUrl then
                inl (res_error 400 "Bad Request"
                       "Image is required (either upload a file or provide imageUrl)")
              else inr (mb_destinationAddress body, finalImageUrl, traitsObj)
          end
    end.

(** Lines 153-160: the wallet named in the log. *)
Definition logWallet : M json :=
  try_catch
    (text <- perform (EvReadFile "deployment.json") (readFileSync H "deployment.json") ;;
     deploymentInfo <- lift (JSON_parse text) ;;
     ownerAddress <- lift (get_prop deploymentInfo "ownerAddress") ;;
     ret (or_default ownerAddress (JStr "unknown")))
    (fun _ => ret (JStr "unknown")).

(** Lines 162-195: the call of [mint] and its log entry; a failure is
    logged and raised again. *)
Definition mintAndLog (storage now : string) (walletAddress : json)
  (destinationAddress finalImageUrl traitsObj : option json) (config : Config)
  (tr : Trace) (d : Disk) : Outcome Response * Trace * Disk :=
  match mint H destinationAddress finalImageUrl traitsObj config tr with
  | (Return result, tr') =>
      (Return (res_json (success_data (json_of_MintResult result))),
       tr',
       logMint storage now (Some walletAddress) destinationAddress finalImageUrl
         (option_map JStr (mr_tokenId result))
         (Some (JStr (mr_transactionHash result)))
         (Some (JNum (mr_blockNumber result)))
         true "" d)
  | (Throw message, tr') =>
      (Throw message,
       tr',
       logMint storage now (Some walletAddress) destinationAddress finalImageUrl
         None None None false message d)
  end.

End Server.

(** The log after a sequence of entries. *)
Definition logAll (file header : string) (lines : list string) (d : Disk) : Disk :=
  fold_left (fun disk line => appendLog file header line disk) lines d.

(** A disk without files, on which everything can be written. *)
Definition emptyDisk : Disk := {| contents := []; writable := fun _ => true |}.

(** A server whose key file holds [key], beside the deployment file, in
    front of the contract [c]. *)
Definition serverHost (key : string) (c : Contract) : Host :=
  {| isAddress := hex_address;
     StringToNumber := decimal_number;
     NumberToString := show_number;
     base64_decode := base64_text;
     fetch_available := true;
     fetch_head := fetch_head fiveHost;
     readFileSync := fun path =>
       if String.eqb path "endpoint_key.txt" then Return key
       else if String.eqb path "deployment.json"
       then Return (stringify (JObj [("contractAddress", JStr gameItemAddress);
                                     ("ownerAddress", JStr bob)]))
       else Throw "ENOENT";
     newWallet := fun _ => Return tt;
     connect := fun _ _ _ => c |}.

Definition secretHost : Host :=
  serverHost ("secret" ++ String "010" "") (gameItem fiveTokens).

Definition headerKey (key : string) : Credentials :=
  {| header_apiKey := Some key; body := Some (JObj []); query_apiKey := None |}.

(** ** deploy/scripts/deploy.js *)

Definition newline : string := String "010" "".

(** JSON.stringify(v, null, 2) *)
Fixpoint stringify_indent (indent : string) (v : json) : string :=
  match v with
  | JArr [] => "[]"
  | JArr l =>
      "[" ++ newline ++ (indent ++ "  ")
      ++ join ("," ++ newline ++ (indent ++ "  "))
           (map (stringify_indent (indent ++ "  ")) l)
      ++ newline ++ indent ++ "]"
  | JObj [] => "{}"
  | JObj kvs =>
      "{" ++ newline ++ (indent ++ "  ")
      ++ join ("," ++ newline ++ (indent ++ "  "))
           (map (fun kv => quote (fst kv) ++ ": " ++ stringify_indent (indent ++ "  ") (snd kv))
              kvs)
      ++ newline ++ indent ++ "}"
  | _ => stringify v
  end.

(** What the script reads of a transaction receipt. *)
Record DeployReceipt : Type := {
  dr_blockNumber : Z;
  dr_status : option Z;
  dr_contractAddress : option string
}.

(** The contract object [deploy] returns: the hash of its deployment
    transaction, when there is one, and [getAddress()]. *)
Record Deployed : Type := {
  deploymentTransaction : option string;
  getAddress : Outcome string
}.

(** The environment of the script.  The receipt lookup is indexed by the
    attempt: the network answers differently as time passes. *)
Record Network : Type := {
  net_readKey : Outcome string;
  net_wallet : string -> Outcome string;
  net_getBalance : string -> Outcome Z;
  net_readArtifact : Outcome unit;
  net_estimateGas : string -> Outcome Z;
  net_deploy : string -> Z -> Outcome Deployed;
  net_getTransactionReceipt : nat -> string -> Outcome (option DeployReceipt);
  net_now : string;
  net_writeFile : string -> string -> Outcome unit
}.

(** A run of the script: how it ends, how many receipt lookups it made
    and the file it wrote. *)
Record DeployRun : Type := {
  result : Outcome unit;
  lookups : nat;
  written : option (string * string)
}.

Definition failed (message : string) : DeployRun :=
  {| result := Throw message; lookups := 0; written := None |}.

Definition and_then {A : Type} (o : Outcome A) (k : A -> DeployRun) : DeployRun :=
  match o with
  | Return a => k a
  | Throw e => failed e
  end.

Definition maxAttempts : nat := 60.

(** Lines 87-109.  A lookup that raises, or finds nothing, leaves
    [receipt] null; the error raised for a receipt whose status is not 1
    is caught by the same [catch], with [receipt] already set. *)
Fixpoint pollLoop (net : Network) (txHash : string) (remaining attempts : nat)
  : option DeployReceipt * nat :=
  match remaining with
  | O => (None, attempts)
  | S k =>
      match net_getTransactionReceipt net (S attempts) txHash with
      | Return (Some receipt) => (Some receipt, S attempts)
      | _ => pollLoop net txHash k (S attempts)
      end
  end.

Definition pollReceipt (net : Network) (txHash : string) : option DeployReceipt * nat :=
  pollLoop net txHash maxAttempts 0.

Definition deploymentInfo (contractAddress ownerAddress deployedAt : string) : json :=
  JObj [ ("contractAddress", JStr contractAddress);
         ("ownerAddress", JStr ownerAddress);
         ("network", JStr "polygon");
         ("deployedAt", JStr deployedAt) ].

Definition deployment_text (contractAddress ownerAddress deployedAt : string) : string :=
  stringify_indent "" (deploymentInfo contractAddress ownerAddress deployedAt).

(** fs.writeFileSync("deployment.json", ...) *)
Definition saveDeployment (net : Network) (contractAddress ownerAddress : string)
  : Outcome unit * option (string * string) :=
  match net_writeFile net "deployment.json"
          (deployment_text contractAddress ownerAddress (net_now net)) with
  | Return _ =>
      (Return tt,
       Some ("deployment.json", deployment_text contractAddress ownerAddress (net_now net)))
  | Throw e => (Throw e, None)
  end.

Definition no_contract_address : string :=
  "Could not determine contract address from transaction receipt".

(** Lines 118-148: the receipt names no contract. *)
Definition addressFallback (net : Network) (gameItem : Deployed) (ownerAddress : string)
  : Outcome unit * option (string * string) :=
  match getAddress gameItem with
  | Return addr =>
      if nonempty addr then
        match saveDeployment net addr ownerAddress with
        | (Return _, file) => (Return tt, file)
        | (Throw _, file) => (Throw no_contract_address, file)
        end
      else (Throw no_contract_address, None)
  | Throw _ => (Throw no_contract_address, None)
  end.

(** Lines 115-168 *)
Definition recordDeployment (net : Network) (gameItem : Deployed) (ownerAddress : string)
  (receipt : DeployReceipt) : Outcome unit * option (string * string) :=
  match dr_contractAddress receipt with
  | Some a =>
      if nonempty a then saveDeployment net a ownerAddress
      else addressFallback net gameItem ownerAddress
  | None => addressFallback net gameItem ownerAddress
  end.

Definition not_confirmed (attempts : nat) (txHash : string) : string :=
  "Transaction not confirmed after " ++ string_of_N (N.of_nat (attempts * 5))
  ++ " seconds. Check PolygonScan: https://polygonscan.com/tx/" ++ txHash.

(** Lines 82-168: from the submitted transaction to the saved file. *)
Definition confirmDeployment (net : Network) (gameItem : Deployed)
  (ownerAddress txHash : string) : DeployRun :=
  match pollReceipt net txHash with
  | (None, attempts) =>
      {| result := Throw (not_confirmed attempts txHash);
         lookups := attempts;
         written := None |}
  | (Some receipt, attempts) =>
      {| result := fst (recordDeployment net gameItem ownerAddress receipt);
         lookups := attempts;
         written := snd (recordDeployment net gameItem ownerAddress receipt) |}
  end.

(** main *)
Definition main (net : Network) : DeployRun :=
  and_then (net_readKey net) (fun text =>
  let privateKey := if startsWith (trim text) "0x" then trim text else "0x" ++ trim text in
  and_then (net_wallet net privateKey) (fun ownerAddress =>
  and_then (net_getBalance net ownerAddress) (fun _ =>
  and_then (net_readArtifact net) (fun _ =>
  and_then (net_estimateGas net ownerAddress) (fun estimatedGas =>
  and_then (net_deploy net ownerAddress (estimatedGas + 50000)) (fun gameItem =>
  match deploymentTransaction gameItem with
  | None => failed "Failed to get deployment transaction"
  | Some txHash =>
      if negb (nonempty txHash) || negb (String.length txHash =? 66)%nat
      then failed ("Invalid transaction hash: " ++ txHash)
      else confirmDeployment net gameItem ownerAddress txHash
  end)))))).

(** The file of a run and its result agree: a file is written only by
    a run that ends well, and it is the deployment file with the text
    of a deployment record. *)
Definition run_is_consistent (net : Network) (r : Outcome unit) (w : option (string * string))
  : Prop :=
  match w with
  | Some (path, text) =>
      path = "deployment.json" /\ r = Return tt /\
      exists a o, a <> "" /\ text = deployment_text a o (net_now net)
  | None => r <> Return tt
  end.

(** A network on which the deployment transaction is mined, and
    reverted, by the time of the third lookup. *)
Definition deployHash : string :=
  "0x1111111111111111111111111111111111111111111111111111111111111111".

Definition revertedNetwork : Network :=
  {| net_readKey := Return ("ab" ++ newline);
     net_wallet := fun _ => Return bob;
     net_getBalance := fun _ => Return 1%Z;
     net_readArtifact := Return tt;
     net_estimateGas := fun _ => Return 2000000%Z;
     net_deploy := fun _ _ =>
       Return {| deploymentTransaction := Some deployHash;
                 getAddress := Return gameItemAddress |};
     net_getTransactionReceipt := fun attempt _ =>
       if (attempt <? 2)%nat then Return None
       else if (attempt =? 2)%nat then Throw "timeout"
       else Return (Some {| dr_blockNumber := 9; dr_status := Some 0%Z;
                            dr_contractAddress := Some gameItemAddress |});
     net_now := "2024-01-01T00:00:00.000Z";
     net_writeFile := fun _ _ => Return tt |}.

(** A network that never shows the transaction. *)
Definition silentNetwork : Network :=
  {| net_readKey := net_readKey revertedNetwork;
     net_wallet := net_wallet revertedNetwork;
     net_getBalance := net_getBalance revertedNetwork;
     net_readArtifact := net_readArtifact revertedNetwork;
     net_estimateGas := net_estimateGas revertedNetwork;
     net_deploy := net_deploy revertedNetwork;
     net_getTransactionReceipt := fun attempt _ =>
       if Nat.even attempt then Return None else Throw "transaction not found";
     net_now := net_now revertedNetwork;
     net_writeFile := net_writeFile revertedNetwork |}.

(** A client host whose deployment file is the one a deployment wrote. *)
Definition freshlyDeployedHost : Host :=
  {| isAddress := hex_address;
     StringToNumber := decimal_number;
     NumberToString := show_number;
     base64_decode := base64_text;
     fetch_available := true;
     fetch_head := fetch_head fiveHost;
     readFileSync := fun path =>
       if String.eqb path "deployment.json"
       then Return (deployment_text gameItemAddress bob "2024-01-01T00:00:00.000Z")
       else Throw "ENOENT";
     newWallet := fun _ => Return tt;
     connect := fun _ _ _ => gameItem fiveTokens |}.

(** ** deploy/contracts/GameItem.sol

    The contract's own storage and functions.  What it inherits -- the
    token ledger of ERC721 with its URI storage -- is a parameter: a
    state [Token] with the two internal functions the contract calls,
    either of which may revert.  A revert is an [Outcome] without a
    state: the storage stays as it was before the call.  Calls that a
    recipient makes back into the contract from its receive hook are not
    modelled. *)

Module GameItemContract.

Definition address : Type := N.

Definition uint256_max : N := 2 ^ 256 - 1.

Section Inherited.

Variable Token : Type.
Variable _safeMint : address -> N -> Token -> Outcome Token.
Variable _setTokenURI : N -> string -> Token -> Outcome Token.

Record Storage : Type := {
  erc721 : Token;
  owner : address;
  _nextTokenId : N
}.

(** The storage a deployment by [initialOwner] leaves. *)
Definition deployed (initialOwner : address) (fresh : Token) : Storage :=
  {| erc721 := fresh; owner := initialOwner; _nextTokenId := 1 |}.

(** The body shared, word for word, by [mint] and [safeMint]. *)
Definition mintBody (to : address) (metadata : string) (s : Storage)
  : Outcome (Storage * N) :=
  if negb (_nextTokenId s <=? MAX_SUPPLY)%N then Throw "Max supply reached"
  else
    let tokenId := _nextTokenId s in
    if (tokenId =? uint256_max)%N then Throw "Panic(0x11)"
    else
      match _safeMint to tokenId (erc721 s) with
      | Throw e => Throw e
      | Return minted =>
          match _setTokenURI tokenId metadata minted with
          | Throw e => Throw e
          | Return stored =>
              Return ({| erc721 := stored; owner := owner s;
                         _nextTokenId := tokenId + 1 |}, tokenId)
          end
      end.

(** function mint(address to, string memory metadata) public onlyOwner *)
Definition mint (sender to : address) (metadata : string) (s : Storage)
  : Outcome (Storage * N) :=
  if negb (sender =? owner s)%N then Throw "OwnableUnauthorizedAccount"
  else mintBody to metadata s.

(** function safeMint(address to, string memory tokenURI) public onlyOwner *)
Definition safeMint (sender to : address) (tokenURI : string) (s : Storage)
  : Outcome (Storage * N) :=
  if negb (sender =? owner s)%N then Throw "OwnableUnauthorizedAccount"
  else mintBody to tokenURI s.

(** function mintWithMetadata(...) public onlyOwner: an internal call of
    [mint], with the same sender. *)
Definition mintWithMetadata (sender to : address) (metadata : string) (s : Storage)
  : Outcome (Storage * N) :=
  if negb (sender =? owner s)%N then Throw "OwnableUnauthorizedAccount"
  else mint sender to metadata s.

(** function totalSupply() public view *)
Definition totalSupply (s : Storage) : Outcome N :=
  if (_nextTokenId s =? 0)%N then Throw "Panic(0x11)"
  else Return (_nextTokenId s - 1)%N.

Inductive Call : Type :=
| Mint (sender to : address) (metadata : string)
| SafeMint (sender to : address) (tokenURI : string)
| MintWithMetadata (sender to : address) (metadata : string).

Definition call (c : Call) (s : Storage) : Outcome (Storage * N) :=
  match c with
  | Mint sender to metadata => mint sender to metadata s
  | SafeMint sender to tokenURI => safeMint sender to tokenURI s
  | MintWithMetadata sender to metadata => mintWithMetadata sender to metadata s
  end.

(** A sequence of transactions: the final storage and the identifiers
    returned by the ones that did not revert, in order. *)
Fixpoint run (calls : list Call) (s : Storage) : Storage * list N :=
  match calls with
  | [] => (s, [])
  | c :: tl =>
      match call c s with
      | Return (s', tokenId) =>
          (fst (run tl s'), tokenId :: snd (run tl s'))
      | Throw _ => run tl s
      end
  end.

End Inherited.

Arguments erc721 {Token}.
Arguments owner {Token}.
Arguments _nextTokenId {Token}.
Arguments totalSupply {Token}.
Arguments deployed {Token}.

End GameItemContract.

(** A contract handle of the client of which only the total supply
    answers: the one of the storage [s]. *)
Definition supplyOf {Token : Type} (s : GameItemContract.Storage Token) : Contract :=
  {| balanceOf := fun _ => Throw "execution reverted";
     tokenOfOwnerByIndex := fun _ _ => Throw "execution reverted";
     tokenURI := fun _ => Throw "execution reverted";
     ownerOf := fun _ => Throw "execution reverted";
     totalSupply := GameItemContract.totalSupply s;
     contract_mint := fun _ _ => Throw "execution reverted";
     contract_safeMint := fun _ _ => Throw "execution reverted";
     contract_mintWithMetadata := fun _ _ => Throw "execution reverted" |}.

(** A token ledger that accepts every recipient but address 0. *)
Definition plainLedger (to : GameItemContract.address) (tokenId : N) (t : list (N * N))
  : Outcome (list (N * N)) :=
  if (to =? 0)%N then Throw "ERC721InvalidReceiver" else Return ((tokenId, to) :: t).

Definition plainURIs (tokenId : N) (uri : string) (t : list (N * N))
  : Outcome (list (N * N)) := Return t.

(** * Lemmas *)

(** ** Strings *)
Lemma length_append (a b : string) :
  String.length (a ++ b) = String.length a + String.length b.
Proof. induction a as [|c a IH]; simpl; [reflexivity | now rewrite IH]. Qed.

Lemma append_assoc (a b c : string) : (a ++ b) ++ c = a ++ (b ++ c).
Proof. induction a as [|x a IH]; simpl; [reflexivity | now rewrite IH]. Qed.

Lemma append_nil_r (s : string) : s ++ "" = s.
Proof. induction s as [|c s IH]; simpl; [reflexivity | now rewrite IH]. Qed.

Lemma parse_escape_char (c : ascii) (tail body rest : string) :
  parse_string_body tail = Some (body, rest) ->
  parse_string_body (escape_char c ++ tail) = Some (String c body, rest).
Proof.
  intros H.
  destruct c as [[|] [|] [|] [|] [|] [|] [|] [|]]; cbn; rewrite H; reflexivity.
Qed.

Lemma parse_string_escape (s rest : string) :
  parse_string_body (escape s ++ String dquote rest) = Some (s, rest).
Proof.
  induction s as [|c s IH]; simpl.
  - reflexivity.
  - rewrite append_assoc. now apply parse_escape_char.
Qed.

Lemma parse_quote (s rest : string) :
  exists tail, quote s ++ rest = String dquote tail /\
               parse_string_body tail = Some (s, rest).
Proof.
  exists (escape s ++ String dquote rest). split.
  - unfold quote. simpl. now rewrite append_assoc.
  - apply parse_string_escape.
Qed.


(** ** Numbers *)

Lemma number_continues_head (rest : string) :
  number_continues rest = false -> head_is_digit rest = false.
Proof.
  destruct rest as [|c r]; cbn [number_continues head_is_digit]; [reflexivity|].
  intros H. now destruct (is_digit c).
Qed.

Lemma span_digits_app (ds rest : string) :
  all_digits ds = true -> head_is_digit rest = false ->
  span_digits (ds ++ rest) = (ds, rest).
Proof.
  intros Hd Hr. induction ds as [|c ds IH]; cbn [append span_digits].
  - destruct rest as [|c r]; [reflexivity|]. cbn [head_is_digit] in Hr.
    cbn [span_digits]. now rewrite Hr.
  - cbn [all_digits] in Hd. apply andb_true_iff in Hd. destruct Hd as [Hc Hd].
    rewrite Hc, (IH Hd). reflexivity.
Qed.

Lemma all_digits_app (a b : string) :
  all_digits (a ++ b) = all_digits a && all_digits b.
Proof.
  induction a as [|c a IH]; cbn [append all_digits]; [reflexivity | now rewrite IH, andb_assoc].
Qed.

Lemma all_digits_zeros (z : nat) : all_digits (zeros z) = true.
Proof. induction z as [|z IH]; simpl; [reflexivity | exact IH]. Qed.

Lemma all_digits_uint (d : Decimal.uint) : all_digits (NilEmpty.string_of_uint d) = true.
Proof. induction d; simpl; try exact IHd; reflexivity. Qed.

Lemma all_digits_pos (p : positive) : all_digits (pos_digits p) = true.
Proof. apply all_digits_uint. Qed.

Lemma digits_value_app (a b : string) (acc : Z) :
  digits_value (a ++ b) acc = digits_value b (digits_value a acc).
Proof. revert acc. induction a as [|c a IH]; intros acc; simpl; [reflexivity | apply IH]. Qed.

Lemma digits_value_zeros (z : nat) (acc : Z) :
  digits_value (zeros z) acc = (acc * 10 ^ Z.of_nat z)%Z.
Proof.
  revert acc. induction z as [|z IH]; intros acc.
  - simpl. lia.
  - cbn [zeros digits_value]. rewrite IH. rewrite Nat2Z.inj_succ, Z.pow_succ_r by lia.
    change (Z.of_N (N_of_ascii "0") - 48)%Z with 0%Z. lia.
Qed.

Lemma digits_value_uint_acc (d : Decimal.uint) (acc : positive) :
  digits_value (NilEmpty.string_of_uint d) (Z.pos acc) = Z.pos (Pos.of_uint_acc d acc).
Proof.
  revert acc. induction d; intros acc; cbn [NilEmpty.string_of_uint digits_value Pos.of_uint_acc];
    try reflexivity;
    match goal with
    | |- digits_value _ ?a = _ =>
        match goal with
        | |- _ = Z.pos (Pos.of_uint_acc _ ?b) =>
            replace a with (Z.pos b)
              by (match goal with
                  | |- context [(Z.of_N (N_of_ascii ?c) - 48)%Z] =>
                      let v := eval vm_compute in (Z.of_N (N_of_ascii c) - 48)%Z in
                      change (Z.of_N (N_of_ascii c) - 48)%Z with v
                  end; lia)
        end
    end; apply IHd.
Qed.

Lemma digits_value_uint (d : Decimal.uint) :
  digits_value (NilEmpty.string_of_uint d) 0 = Z.of_N (Pos.of_uint d).
Proof.
  induction d; cbn [NilEmpty.string_of_uint digits_value Pos.of_uint]; try reflexivity;
    try exact IHd;
    match goal with
    | |- digits_value _ ?a = Z.of_N (N.pos (Pos.of_uint_acc _ ?b)) =>
        replace a with (Z.pos b)
          by (match goal with
              | |- context [(Z.of_N (N_of_ascii ?c) - 48)%Z] =>
                  let v := eval vm_compute in (Z.of_N (N_of_ascii c) - 48)%Z in
                  change (Z.of_N (N_of_ascii c) - 48)%Z with v
              end; lia)
    end; apply digits_value_uint_acc.
Qed.

Lemma digits_value_pos (p : positive) : digits_value (pos_digits p) 0 = Z.pos p.
Proof.
  unfold pos_digits. rewrite digits_value_uint, DecimalPos.Unsigned.of_to. reflexivity.
Qed.

Lemma to_uint_fixed (p : positive) : Decimal.unorm (Pos.to_uint p) = Pos.to_uint p.
Proof.
  rewrite <- DecimalPos.Unsigned.to_of, DecimalPos.Unsigned.of_to. reflexivity.
Qed.

Lemma to_uint_no_leading_zero (p : positive) (d : Decimal.uint) :
  Pos.to_uint p <> Decimal.D0 d.
Proof.
  intros E. pose proof (to_uint_fixed p) as F. rewrite E in F.
  rewrite unorm_D0 in F.
  destruct (Decimal.nzhead d) eqn:N;
    try (rewrite unorm_nzhead in F by (rewrite N; discriminate);
         exact (nzhead_nonzero _ _ F)).
  apply (DecimalPos.Unsigned.to_uint_nonzero p).
  rewrite E, <- F. apply unorm_0. exact N.
Qed.

(** The digits of a positive number start with a digit other than 0. *)
Lemma pos_digits_head (p : positive) :
  exists c tl, pos_digits p = String c tl /\ is_digit c = true /\ Ascii.eqb c "0" = false
               /\ Ascii.eqb c "-" = false.
Proof.
  unfold pos_digits.
  pose proof (DecimalPos.Unsigned.to_uint_nonnil p) as NN.
  pose proof (to_uint_no_leading_zero p) as NZ.
  destruct (Pos.to_uint p) as [|d|d|d|d|d|d|d|d|d|d];
    [congruence | exfalso; exact (NZ d eq_refl) | ..];
    cbn [NilEmpty.string_of_uint]; eexists; eexists; repeat split.
Qed.

(** ** Prefixes *)

Lemma take_drop (n : nat) (s : string) : take n s ++ drop n s = s.
Proof.
  revert s. induction n as [|n IH]; intros s; [reflexivity|].
  destruct s as [|c r]; [reflexivity|]. simpl. now rewrite IH.
Qed.

Lemma length_drop (n : nat) (s : string) : String.length (drop n s) = String.length s - n.
Proof.
  revert s. induction n as [|n IH]; intros s; simpl; [lia|].
  destruct s as [|c r]; simpl; [reflexivity | apply IH].
Qed.

Lemma all_digits_take (n : nat) (s : string) : all_digits s = true -> all_digits (take n s) = true.
Proof.
  revert s. induction n as [|n IH]; intros s H; [reflexivity|].
  destruct s as [|c r]; [reflexivity|]. simpl in *.
  apply andb_true_iff in H. destruct H as [Hc Hr]. now rewrite Hc, IH.
Qed.

Lemma all_digits_drop (n : nat) (s : string) : all_digits s = true -> all_digits (drop n s) = true.
Proof.
  revert s. induction n as [|n IH]; intros s H; [exact H|].
  destruct s as [|c r]; [reflexivity|]. simpl in *.
  apply andb_true_iff in H. destruct H as [_ Hr]. now apply IH.
Qed.

(** ** Trailing zeros *)

Lemma strip_zeros_pow (z : nat) :
  forall (fuel : nat) (m e : Z),
    (0 < m)%Z -> (m mod 10 <> 0)%Z -> z < fuel ->
    strip_zeros fuel (m * 10 ^ Z.of_nat z) e = (m, (e + Z.of_nat z)%Z).
Proof.
  induction z as [|z IH]; intros fuel m e Hm Hmod Hf.
  - destruct fuel as [|f]; [lia|]. cbn [strip_zeros]. rewrite Z.mul_1_r.
    destruct (m mod 10 =? 0)%Z eqn:E; [apply Z.eqb_eq in E; contradiction|].
    f_equal. cbn. lia.
  - destruct fuel as [|f]; [lia|]. cbn [strip_zeros].
    rewrite Nat2Z.inj_succ, Z.pow_succ_r by lia.
    replace (m * (10 * 10 ^ Z.of_nat z))%Z with ((m * 10 ^ Z.of_nat z) * 10)%Z by lia.
    rewrite Z.mod_mul by lia. cbn [Z.eqb].
    rewrite Z.div_mul by lia.
    rewrite IH by (assumption || lia). f_equal. lia.
Qed.

Lemma normalise_pow (z : nat) (m e : Z) :
  (0 < m)%Z -> (m mod 10 <> 0)%Z ->
  normalise (m * 10 ^ Z.of_nat z) e = (m, (e + Z.of_nat z)%Z).
Proof.
  intros Hm Hmod. unfold normalise. apply strip_zeros_pow; [assumption | assumption |].
  assert (Hp : (2 ^ Z.of_nat z <= m * 10 ^ Z.of_nat z)%Z).
  { assert (2 ^ Z.of_nat z <= 10 ^ Z.of_nat z)%Z by (apply Z.pow_le_mono_l; lia).
    assert (0 < 10 ^ Z.of_nat z)%Z by (apply Z.pow_pos_nonneg; lia).
    nia. }
  assert (Hl : (Z.of_nat z <= Z.log2 (m * 10 ^ Z.of_nat z))%Z).
  { rewrite <- (Z.log2_pow2 (Z.of_nat z)) at 1 by lia. now apply Z.log2_le_mono. }
  lia.
Qed.

Lemma normalise_fixed (m e : Z) :
  (0 < m)%Z -> (m mod 10 <> 0)%Z -> normalise m e = (m, e).
Proof.
  intros Hm Hmod. pose proof (normalise_pow 0 m e Hm Hmod) as N.
  cbn in N. rewrite Z.mul_1_r, Z.add_0_r in N. exact N.
Qed.

(** ** The four parts of a literal *)

Lemma lex_int_digits (ds rest : string) :
  all_digits ds = true ->
  (exists c tl, ds = String c tl /\ is_digit c = true /\ Ascii.eqb c "0" = false) ->
  head_is_digit rest = false ->
  lex_int (ds ++ rest) = Some (ds, rest).
Proof.
  intros Hd (c & tl & E & Hc & H0) Hr. subst ds. unfold lex_int.
  cbn [append]. rewrite H0, Hc.
  change (String c (tl ++ rest)) with (String c tl ++ rest).
  now rewrite span_digits_app.
Qed.

Lemma lex_frac_none (rest : string) :
  number_continues rest = false -> lex_frac rest = Some ("", rest).
Proof.
  destruct rest as [|c r]; [reflexivity|]. simpl. intros H.
  apply orb_false_iff in H. destruct H as [H _].
  apply orb_false_iff in H. destruct H as [H _].
  apply orb_false_iff in H. destruct H as [_ H].
  unfold lex_frac.
  destruct c as [[|] [|] [|] [|] [|] [|] [|] [|]]; try reflexivity. discriminate H.
Qed.

Lemma lex_frac_exp (rest : string) :
  lex_frac (String "e" rest) = Some ("", String "e" rest).
Proof. reflexivity. Qed.

Lemma lex_frac_digits (ds rest : string) :
  all_digits ds = true -> ds <> "" -> head_is_digit rest = false ->
  lex_frac ("." ++ ds ++ rest) = Some (ds, rest).
Proof.
  intros Hd Hne Hr. cbn [append lex_frac]. rewrite span_digits_app by assumption.
  destruct ds; [congruence | reflexivity].
Qed.

Lemma lex_exp_none (rest : string) :
  number_continues rest = false -> lex_exp rest = Some (0%Z, rest).
Proof.
  destruct rest as [|c r]; [reflexivity|]. simpl. intros H.
  apply orb_false_iff in H. destruct H as [H HE].
  apply orb_false_iff in H. destruct H as [_ He].
  unfold lex_exp. now rewrite He, HE.
Qed.

Lemma lex_exp_digits (x : Z) (rest : string) :
  x <> 0%Z -> head_is_digit rest = false ->
  lex_exp ("e" ++ (if (x <? 0)%Z then "-" else "+") ++ pos_digits (Z.to_pos (Z.abs x)) ++ rest)
  = Some (x, rest).
Proof.
  intros Hx Hr.
  pose proof (all_digits_pos (Z.to_pos (Z.abs x))) as Hd.
  pose proof (digits_value_pos (Z.to_pos (Z.abs x))) as Hv.
  destruct (pos_digits_head (Z.to_pos (Z.abs x))) as (c & tl & E & _).
  destruct (x <? 0)%Z eqn:Hs; cbn [append lex_exp Ascii.eqb Bool.eqb orb];
    rewrite span_digits_app by assumption; rewrite E; rewrite <- E; rewrite Hv;
    f_equal; f_equal; [apply Z.ltb_lt in Hs | apply Z.ltb_ge in Hs]; lia.
Qed.

(** ** Printing and reading back *)

Lemma number_eqb_eq (a b : number) : number_eqb a b = true -> a = b.
Proof.
  destruct a, b; cbn; try discriminate; intros H.
  - reflexivity.
  - apply Bool.eqb_prop in H. now subst.
  - apply Bool.eqb_prop in H. now subst.
  - apply andb_true_iff in H. destruct H as [H He].
    apply andb_true_iff in H. destruct H as [Hn Hm].
    apply Bool.eqb_prop in Hn. apply Pos.eqb_eq in Hm. apply Z.eqb_eq in He. now subst.
Qed.

Lemma number_of_decimal_normalised (negative : bool) (M E m e : Z) :
  (0 < M)%Z -> (0 < m)%Z -> (m mod 10 <> 0)%Z -> normalise M E = (m, e) ->
  number_of_decimal negative M E = number_of_decimal negative m e.
Proof.
  intros HM Hm Hmod HN. unfold number_of_decimal.
  destruct (M <=? 0)%Z eqn:E1; [apply Z.leb_le in E1; lia|].
  destruct (m <=? 0)%Z eqn:E2; [apply Z.leb_le in E2; lia|].
  now rewrite HN, (normalise_fixed m e Hm Hmod).
Qed.

Lemma print_magnitude_head (m : positive) (e : Z) :
  exists c tl, print_magnitude m e = String c tl /\ is_digit c = true.
Proof.
  unfold print_magnitude.
  destruct (pos_digits_head m) as (c & tl & E & Hc & _). rewrite E.
  destruct ((_ <=? _)%Z && (_ <=? 21)%Z).
  { cbn [append]. eauto. }
  destruct ((0 <? _)%Z && (_ <=? 21)%Z) eqn:B.
  { apply andb_true_iff in B. destruct B as [B _]. apply Z.ltb_lt in B.
    destruct (Z.to_nat (e + Z.of_nat (String.length (String c tl)))) as [|n'] eqn:En; [lia|].
    cbn [take append]. eauto. }
  destruct ((-6 <? _)%Z && (_ <=? 0)%Z).
  { cbn [append]. eexists. eexists. split; reflexivity. }
  cbn [take append]. eauto.
Qed.

Lemma lex_magnitude (negative : bool) (m : positive) (e : Z) (rest : string) :
  (Z.pos m mod 10 <> 0)%Z ->
  number_continues rest = false ->
  lex_unsigned negative (print_magnitude m e ++ rest) =
  Some (number_of_decimal negative (Z.pos m) e, rest).
Proof.
  intros Hmod Hrest.
  pose proof (number_continues_head rest Hrest) as Hhead.
  pose proof (all_digits_pos m) as Hd.
  pose proof (digits_value_pos m) as Hv.
  destruct (pos_digits_head m) as (c & tl & E & Hc & H0 & _).
  unfold print_magnitude, lex_unsigned. rewrite E in *.
  set (s := String c tl) in *.
  assert (E' : s = String c tl) by reflexivity.
  set (k := Z.of_nat (String.length s)).
  assert (Hk : (1 <= k)%Z) by (unfold k, s; cbn [String.length]; lia).
  set (n := (e + k)%Z).
  destruct ((k <=? n)%Z && (n <=? 21)%Z) eqn:A.
  { (* digits followed by zeros *)
    apply andb_true_iff in A. destruct A as [A1 A2]. apply Z.leb_le in A1.
    rewrite (lex_int_digits (s ++ zeros (Z.to_nat (n - k))) rest).
    - rewrite (lex_frac_none rest Hrest), (lex_exp_none rest Hrest).
      f_equal. f_equal. rewrite append_nil_r, digits_value_app, Hv, digits_value_zeros.
      cbn [String.length]. apply number_of_decimal_normalised; try lia.
      rewrite normalise_pow by lia. f_equal. unfold n, k in *. lia.
    - rewrite all_digits_app, Hd, all_digits_zeros. reflexivity.
    - rewrite E'. cbn [append]. eauto.
    - exact Hhead. }
  destruct ((0 <? n)%Z && (n <=? 21)%Z) eqn:B.
  { (* a point inside the digits *)
    apply andb_true_iff in B. destruct B as [B1 B2]. apply Z.ltb_lt in B1. apply Z.leb_le in B2.
    assert (Hnk : (n < k)%Z).
    { destruct (k <=? n)%Z eqn:X; [|apply Z.leb_gt in X; exact X].
      apply Z.leb_le in B2. rewrite B2 in A. discriminate A. }
    rewrite !append_assoc.
    rewrite (lex_int_digits (take (Z.to_nat n) s) ("." ++ drop (Z.to_nat n) s ++ rest)).
    - rewrite (lex_frac_digits (drop (Z.to_nat n) s) rest).
      + rewrite (lex_exp_none rest Hrest). f_equal. f_equal.
        rewrite take_drop, Hv, length_drop. f_equal. unfold n, k in *. lia.
      + now apply all_digits_drop.
      + intros F. pose proof (length_drop (Z.to_nat n) s) as L. rewrite F in L.
        cbn [String.length] in L. unfold k in Hnk. lia.
      + exact Hhead.
    - now apply all_digits_take.
    - rewrite E'. destruct (Z.to_nat n) as [|n'] eqn:En; [lia|]. cbn [take]. eauto.
    - reflexivity. }
  destruct ((-6 <? n)%Z && (n <=? 0)%Z) eqn:C.
  { (* zeros after the point *)
    apply andb_true_iff in C. destruct C as [C1 C2]. apply Z.leb_le in C2.
    cbn [append lex_int Ascii.eqb Bool.eqb].
    change (String "." ((zeros (Z.to_nat (- n)) ++ s) ++ rest))
      with ("." ++ (zeros (Z.to_nat (- n)) ++ s) ++ rest).
    rewrite (lex_frac_digits (zeros (Z.to_nat (- n)) ++ s) rest).
    - rewrite (lex_exp_none rest Hrest). f_equal. f_equal.
      cbn [append digits_value]. rewrite digits_value_app, digits_value_zeros.
      change (Z.of_N (N_of_ascii "0") - 48)%Z with 0%Z. cbn [Z.mul Z.add]. rewrite Hv.
      rewrite length_append. f_equal.
      assert (Hz : String.length (zeros (Z.to_nat (- n))) = Z.to_nat (- n)).
      { generalize (Z.to_nat (- n)). intros z. induction z; cbn; congruence. }
      rewrite Hz. unfold n, k in *. lia.
    - rewrite all_digits_app, all_digits_zeros, Hd. reflexivity.
    - rewrite E'. destruct (zeros (Z.to_nat (- n))); discriminate.
    - exact Hhead. }
  (* exponent notation *)
  assert (Hn1 : (n - 1 <> 0)%Z).
  { intros F. assert (n = 1%Z) by lia. rewrite H in B. cbn in B. discriminate B. }
  clear E'. subst s. cbn [take drop].
  assert (Hkt : (k =? 1)%Z = match tl with EmptyString => true | _ => false end).
  { unfold k. destruct tl; cbn [String.length]; [reflexivity|]. apply Z.eqb_neq. lia. }
  rewrite Hkt. rewrite !append_assoc.
  cbn [all_digits] in Hd. apply andb_true_iff in Hd. destruct Hd as [_ Hdtl].
  destruct tl as [|c2 tl2].
  - rewrite (lex_int_digits (String c "")).
    + cbn [append]. rewrite lex_frac_exp.
      change (String "e" ((if (n - 1 <? 0)%Z then "-" else "+") ++
                pos_digits (Z.to_pos (Z.abs (n - 1))) ++ rest))
        with ("e" ++ (if (n - 1 <? 0)%Z then "-" else "+") ++
                pos_digits (Z.to_pos (Z.abs (n - 1))) ++ rest).
      rewrite (lex_exp_digits (n - 1) rest Hn1 Hhead).
      cbn [append]. rewrite Hv. do 3 f_equal.
      unfold n, k. cbn [String.length]. lia.
    + cbn [all_digits]. now rewrite Hc.
    + eauto.
    + reflexivity.
  - rewrite (lex_int_digits (String c "")).
    + rewrite (append_assoc "." (String c2 tl2)).
      rewrite (lex_frac_digits (String c2 tl2)).
      * rewrite (lex_exp_digits (n - 1) rest Hn1 Hhead).
        cbn [append]. rewrite Hv. do 3 f_equal.
        unfold n, k. cbn [String.length]. lia.
      * exact Hdtl.
      * discriminate.
      * reflexivity.
    + cbn [all_digits]. now rewrite Hc.
    + eauto.
    + reflexivity.
Qed.

(** Reading what [Number::toString] printed gives the number back. *)
Lemma lex_number_print (v : number) (rest : string) :
  json_number v = true ->
  number_continues rest = false ->
  lex_number (print_number v ++ rest) = Some (v, rest).
Proof.
  intros Hv Hrest. destruct v as [| neg | neg | neg m e]; try discriminate Hv.
  - destruct neg; [discriminate Hv|]. cbn [print_number append lex_number].
    unfold lex_unsigned. cbn [lex_int Ascii.eqb Bool.eqb].
    now rewrite (lex_frac_none rest Hrest), (lex_exp_none rest Hrest).
  - cbn [json_number] in Hv. apply andb_true_iff in Hv. destruct Hv as [Hmod Heq].
    apply negb_true_iff, Z.eqb_neq in Hmod. apply number_eqb_eq in Heq.
    cbn [print_number]. destruct neg.
    + cbn [append lex_number]. rewrite lex_magnitude by assumption. now rewrite Heq.
    + cbn [append]. destruct (print_magnitude_head m e) as (c & tl & E & Hc).
      assert (Hl : lex_number (print_magnitude m e ++ rest) =
                   lex_unsigned false (print_magnitude m e ++ rest)).
      { rewrite E. cbn [append]. unfold lex_number.
        destruct c as [[|] [|] [|] [|] [|] [|] [|] [|]]; try reflexivity. discriminate Hc. }
      rewrite Hl, lex_magnitude by assumption. now rewrite Heq.
Qed.

(** ** JSON text *)

Lemma ends_token_number rest : ends_token rest = true -> number_continues rest = false.
Proof.
  destruct rest as [|c r]; simpl; [reflexivity|].
  destruct c as [[|] [|] [|] [|] [|] [|] [|] [|]]; cbn; congruence.
Qed.

Lemma stringify_number (v : number) :
  json_number v = true -> stringify (JNum v) = print_number v.
Proof. destruct v; cbn [json_number]; try discriminate; reflexivity. Qed.

Lemma parse_number_print (v : number) (rest : string) :
  json_number v = true ->
  number_continues rest = false ->
  parse_number (print_number v ++ rest) = Some (JNum v, rest).
Proof.
  intros Hv Hrest. unfold parse_number. now rewrite lex_number_print.
Qed.

Lemma print_number_head (v : number) :
  json_number v = true ->
  exists c tl, print_number v = String c tl /\ (c = "-"%char \/ is_digit c = true).
Proof.
  destruct v as [| neg | neg | neg m e]; cbn [json_number]; try discriminate; intros _.
  - exists "0"%char, "". split; [reflexivity | now right].
  - cbn [print_number]. destruct (print_magnitude_head m e) as (c & tl & E & Hc).
    destruct neg; cbn [append].
    + eexists. eexists. split; [reflexivity | now left].
    + exists c, tl. split; [exact E | now right].
Qed.

Lemma number_head_dispatch (c : ascii) :
  c = "-"%char \/ is_digit c = true ->
  is_json_ws c = false /\ Ascii.eqb c "n" = false /\ Ascii.eqb c "t" = false /\
  Ascii.eqb c "f" = false /\ Ascii.eqb c dquote = false /\
  Ascii.eqb c "[" = false /\ Ascii.eqb c "{" = false /\
  Ascii.eqb c "]" = false /\ Ascii.eqb c "}" = false.
Proof.
  intros [-> | H]; [cbn; repeat split|].
  destruct c as [[|] [|] [|] [|] [|] [|] [|] [|]]; cbn in H; try discriminate H;
    cbn; repeat split.
Qed.

Lemma stringify_head (v : json) :
  exists c tl, stringify v = String c tl /\ is_json_ws c = false /\
               Ascii.eqb c "]" = false /\ Ascii.eqb c "}" = false.
Proof.
  destruct v as [|[|]|n|s|l|kvs].
  4: { destruct n as [| neg | neg | neg m e];
         try (cbn [stringify print_number]; eexists; eexists;
              split; [reflexivity | cbn; repeat split]).
       cbn [stringify print_number].
       destruct (print_magnitude_head m e) as (c & tl & E & Hc). rewrite E.
       destruct neg; cbn [append].
       - eexists. eexists. split; [reflexivity | cbn; repeat split].
       - exists c, tl. split; [reflexivity|].
         destruct (number_head_dispatch c (or_intror Hc))
           as (? & _ & _ & _ & _ & _ & _ & ? & ?).
         repeat split; assumption. }
  all: cbn [stringify]; eexists; eexists; split; [reflexivity | cbn; repeat split].
Qed.

Lemma stringify_length_pos (v : json) : 1 <= String.length (stringify v).
Proof.
  destruct (stringify_head v) as (c & tl & E & _). rewrite E. simpl. lia.
Qed.

Lemma existsb_eqb_In (k : string) (l : list string) :
  existsb (String.eqb k) l = true <-> In k l.
Proof.
  rewrite existsb_exists. split.
  - intros (x & Hx & E). apply String.eqb_eq in E. now subst.
  - intros H. exists k. split; [exact H | apply String.eqb_refl].
Qed.

(** A key that is new and comes after all the keys of [o] is put at the
    end. *)
Lemma obj_insert_last (i : Z) (k : string) (v : json) (o : list (string * json)) :
  array_index k = Some i ->
  forallb (fun a => precedes a k) (map fst o) = true ->
  obj_insert i k v o = (o ++ [(k, v)])%list.
Proof.
  intros Hk. induction o as [|[k' v'] o IH]; cbn [map fst forallb obj_insert app];
    [reflexivity|].
  intros H. apply andb_true_iff in H. destruct H as [Hp Ho].
  unfold precedes in Hp. rewrite Hk in Hp.
  destruct (array_index k') as [j|]; [|discriminate Hp].
  apply Z.ltb_lt in Hp.
  destruct (i <? j)%Z eqn:E; [apply Z.ltb_lt in E; lia|].
  now rewrite IH.
Qed.

Lemma obj_set_fresh (k : string) (v : json) (o : list (string * json)) :
  existsb (String.eqb k) (map fst o) = false ->
  forallb (fun a => precedes a k) (map fst o) = true ->
  obj_set k v o = (o ++ [(k, v)])%list.
Proof.
  intros Hf Hp. unfold obj_set. rewrite Hf.
  destruct (array_index k) as [i|] eqn:Ek; [|reflexivity].
  now apply obj_insert_last.
Qed.

Lemma distinct_app_fresh (acc : list string) (k : string) (tl : list string) :
  distinct (acc ++ k :: tl)%list = true -> existsb (String.eqb k) acc = false.
Proof.
  induction acc as [|a acc IH]; simpl; [reflexivity|].
  intros H. apply andb_true_iff in H. destruct H as [H1 H2].
  rewrite (IH H2), orb_false_r.
  apply negb_true_iff in H1.
  destruct (String.eqb k a) eqn:E; [|reflexivity].
  apply String.eqb_eq in E. subst a.
  assert (existsb (String.eqb k) (acc ++ k :: tl)%list = true) as X.
  { apply existsb_eqb_In, in_or_app. right. now left. }
  congruence.
Qed.

Lemma key_order_app_last (acc : list string) (k : string) (tl : list string) :
  key_order (acc ++ k :: tl)%list = true ->
  forallb (fun a => precedes a k) acc = true.
Proof.
  induction acc as [|a acc IH]; cbn [app key_order forallb]; [reflexivity|].
  intros H. apply andb_true_iff in H. destruct H as [H1 H2].
  rewrite (IH H2), andb_true_r.
  rewrite forallb_forall in H1. apply H1. apply in_or_app. right. now left.
Qed.

Lemma obj_of_members_distinct_acc (l acc : list (string * json)) :
  distinct (map fst (acc ++ l)%list) = true ->
  key_order (map fst (acc ++ l)%list) = true ->
  fold_left (fun o kv => obj_set (fst kv) (snd kv) o) l acc = (acc ++ l)%list.
Proof.
  revert acc. induction l as [|[k v] l IH]; intros acc H K; simpl.
  - now rewrite List.app_nil_r.
  - rewrite obj_set_fresh.
    + rewrite IH; rewrite <- List.app_assoc; [reflexivity | exact H | exact K].
    + rewrite List.map_app in H. simpl in H. exact (distinct_app_fresh _ _ _ H).
    + rewrite List.map_app in K. simpl in K. exact (key_order_app_last _ _ _ K).
Qed.

(** Parsing the members of a run-time object builds the same object. *)
Lemma obj_of_members_distinct (l : list (string * json)) :
  distinct (map fst l) = true -> key_order (map fst l) = true -> obj_of_members l = l.
Proof. intros H K. exact (obj_of_members_distinct_acc l [] H K). Qed.

Lemma stringify_arr (l : list json) :
  stringify (JArr l) = "[" ++ join "," (map stringify l) ++ "]".
Proof. reflexivity. Qed.

Lemma stringify_obj (kvs : list (string * json)) :
  stringify (JObj kvs) = "{" ++ join "," (map member_text kvs) ++ "}".
Proof. reflexivity. Qed.

Lemma join_cons (x : string) (y : string) (tl : list string) :
  join "," (x :: y :: tl) = x ++ "," ++ join "," (y :: tl).
Proof. reflexivity. Qed.

Lemma skip_ws_head (c : ascii) (r : string) :
  is_json_ws c = false -> skip_ws (String c r) = String c r.
Proof. intros H. simpl. now rewrite H. Qed.

Lemma skip_ws_stringify (v : json) (rest : string) :
  skip_ws (stringify v ++ rest) = stringify v ++ rest /\
  startsWith (stringify v ++ rest) "]" = false /\
  startsWith (stringify v ++ rest) "}" = false.
Proof.
  destruct (stringify_head v) as (c & tl & E & W & B1 & B2).
  rewrite E. simpl. rewrite W, B1, B2. repeat split.
Qed.

Lemma parse_stringify_fuel (fuel : nat) :
  (forall v rest, String.length (stringify v) <= fuel -> ends_token rest = true ->
     wf_json v = true -> parse_value fuel (stringify v ++ rest) = Some (v, rest)) /\
  (forall l rest, l <> [] -> String.length (join "," (map stringify l)) + 1 <= fuel ->
     forallb wf_json l = true ->
     parse_elements fuel (join "," (map stringify l) ++ "]" ++ rest) = Some (l, rest)) /\
  (forall kvs rest, kvs <> [] -> String.length (join "," (map member_text kvs)) + 1 <= fuel ->
     forallb (fun kv => wf_json (snd kv)) kvs = true ->
     parse_members fuel (join "," (map member_text kvs) ++ "}" ++ rest) = Some (kvs, rest)).
Proof.
  induction fuel as [|f (IHv & IHe & IHm)].
  - repeat split; intros; try lia.
    pose proof (stringify_length_pos v). lia.
  - repeat split.
    + (* values *)
      intros v rest Hlen Hend Hwf.
      destruct v as [| [|] | z | s | l | kvs].
      * reflexivity.
      * reflexivity.
      * reflexivity.
      * cbn [wf_json] in Hwf.
        destruct (print_number_head z Hwf) as (c & tl & E & Hc).
        destruct (number_head_dispatch c Hc) as (W & N1 & N2 & N3 & N4 & N5 & N6 & _ & _).
        pose proof (parse_number_print z rest Hwf (ends_token_number _ Hend)) as P.
        rewrite (stringify_number z Hwf) in *. rewrite E in *. simpl append in *.
        unfold parse_value. rewrite (skip_ws_head _ _ W), N1, N2, N3, N4, N5, N6.
        exact P.
      * destruct (parse_quote s rest) as (tl & E & P).
        simpl stringify. rewrite E. cbn. now rewrite P.
      * rewrite stringify_arr in *. destruct l as [|x l].
        { cbn. reflexivity. }
        rewrite !append_assoc.
        assert (skip_ws (join "," (map stringify (x :: l)) ++ "]" ++ rest)
                = join "," (map stringify (x :: l)) ++ "]" ++ rest /\
                startsWith (join "," (map stringify (x :: l)) ++ "]" ++ rest) "]" = false) as [K1 K2].
        { destruct l as [|y l]; simpl map.
          - simpl join. destruct (skip_ws_stringify x ("]" ++ rest)) as (? & ? & ?). now split.
          - rewrite join_cons, !append_assoc.
            destruct (skip_ws_stringify x ("," ++ join "," (stringify y :: map stringify l) ++ "]" ++ rest)) as (? & ? & ?).
            now split. }
        pose proof (IHe (x :: l) rest) as IH.
        remember (join "," (map stringify (x :: l))) as body eqn:Hb.
        simpl in Hlen. rewrite !length_append in Hlen. simpl in Hlen.
        cbn in K1, K2, IH |- *. rewrite K1, K2.
        rewrite IH; [reflexivity | discriminate | lia | exact Hwf].
      * rewrite stringify_obj in *. destruct kvs as [|x l].
        { cbn. reflexivity. }
        rewrite !append_assoc.
        assert (exists tl, join "," (map member_text (x :: l)) ++ "}" ++ rest = String dquote tl) as (tl & K).
        { destruct l as [|y l]; simpl map.
          - simpl join. unfold member_text, quote. simpl. eexists. reflexivity.
          - rewrite join_cons. unfold member_text at 1, quote. simpl. eexists. reflexivity. }
        cbn [wf_json] in Hwf. apply andb_true_iff in Hwf. destruct Hwf as [Hd Hwf].
        apply andb_true_iff in Hd. destruct Hd as [Hd Hk].
        pose proof (IHm (x :: l) rest) as IH.
        remember (join "," (map member_text (x :: l))) as body eqn:Hb.
        simpl in Hlen. rewrite !length_append in Hlen. simpl in Hlen.
        cbn in K, IH |- *. rewrite K. cbn. rewrite <- K.
        rewrite IH; [ | discriminate | lia | exact Hwf].
        now rewrite (obj_of_members_distinct (x :: l) Hd Hk).
    + (* elements *)
      intros l rest Hne Hlen Hwf.
      destruct l as [|x l]; [congruence|].
      simpl in Hwf. apply andb_true_iff in Hwf. destruct Hwf as [Hx Hl].
      destruct l as [|y l].
      * simpl map in *. simpl join in *.
        cbn [parse_elements]. rewrite IHv; [ | lia | reflexivity | exact Hx].
        reflexivity.
      * pose proof (IHe (y :: l) rest) as IH.
        simpl map in *. rewrite join_cons in *. rewrite !append_assoc.
        pose proof (stringify_length_pos x) as Hpos.
        remember (join "," (stringify y :: map stringify l)) as J eqn:HJ.
        rewrite !length_append in Hlen. simpl String.length in Hlen.
        cbn [parse_elements]. rewrite IHv; [ | lia | reflexivity | exact Hx].
        cbn in IH |- *.
        rewrite IH; [reflexivity | discriminate | lia | exact Hl].
    + (* members *)
      intros kvs rest Hne Hlen Hwf.
      destruct kvs as [|[k v] l]; [congruence|].
      simpl in Hwf. apply andb_true_iff in Hwf. destruct Hwf as [Hx Hl].
      assert (forall tail, member_text (k, v) ++ tail =
                String dquote (escape k ++ String dquote (":" ++ stringify v ++ tail))) as MT.
      { intros tail. unfold member_text, quote. simpl. now rewrite !append_assoc. }
      assert (String.length (member_text (k, v)) = String.length (escape k) + 3 + String.length (stringify v)) as ML.
      { unfold member_text, quote. simpl. rewrite !length_append. simpl. lia. }
      destruct l as [|y l].
      * cbn [map join] in *. rewrite ML in Hlen. rewrite MT.
        cbn -[stringify]. rewrite parse_string_escape. cbn -[stringify].
        rewrite IHv; [ | lia | reflexivity | exact Hx].
        reflexivity.
      * pose proof (IHm (y :: l) rest) as IH.
        cbn [map] in *. rewrite join_cons in *. rewrite !append_assoc. rewrite MT.
        remember (join "," (member_text y :: map member_text l)) as J eqn:HJ.
        rewrite !length_append, ML in Hlen. cbn [String.length] in Hlen.
        cbn -[stringify]. rewrite parse_string_escape. cbn -[stringify].
        rewrite IHv; [ | lia | reflexivity | exact Hx].
        cbn in IH |- *.
        rewrite IH; [reflexivity | discriminate | lia | exact Hl].
Qed.

(** [JSON.parse (JSON.stringify v)] is [v] for every run-time value. *)
Lemma parse_json_stringify (v : json) :
  wf_json v = true -> parse_json (stringify v) = Some v.
Proof.
  intros Hwf. unfold parse_json.
  destruct (parse_stringify_fuel (S (String.length (stringify v)))) as (Hv & _ & _).
  specialize (Hv v "" (Nat.le_succ_diag_r _) eq_refl Hwf).
  rewrite append_nil_r in Hv. rewrite Hv. reflexivity.
Qed.

Lemma JSON_parse_stringify (v : json) :
  wf_json v = true -> JSON_parse (stringify v) = Return v.
Proof. intros Hwf. unfold JSON_parse. now rewrite parse_json_stringify. Qed.

(** ** The effect monad *)

Ltac run_effects := unfold try_catch, bind, ledger, perform, lift, ret, throw.

Lemma ledger_calls_app (a b : Trace) :
  ledger_calls (a ++ b)%list = (ledger_calls a ++ ledger_calls b)%list.
Proof. unfold ledger_calls. apply flat_map_app. Qed.

(** ** Discovery by scanning *)

Lemma scanLoop_spec (c : Contract) (w : string) (k : nat) :
  forall (start : N) (acc : list string) (tr : Trace),
    scanLoop c w k start acc tr =
    (Return (acc ++ map string_of_N (filter (owned_by c w) (N_range start k)))%list,
     (tr ++ map (fun id => EvLedger (CallOwnerOf (num_of_N id))) (N_range start k))%list).
Proof.
  induction k as [|k IH]; intros start acc tr.
  - simpl. unfold ret. now rewrite !List.app_nil_r.
  - cbn [scanLoop N_range map filter].
    unfold bind, try_catch, ledger, perform, ret, owned_by at 1.
    destruct (ownerOf c (num_of_N start)) as [o|e].
    + destruct (String.eqb (toLowerCase o) (toLowerCase w)); rewrite IH;
        cbn [map]; now rewrite <- !List.app_assoc.
    + rewrite IH. cbn [map]. now rewrite <- !List.app_assoc.
Qed.

Lemma N_range_bounds (k : nat) :
  forall (start x : N), In x (N_range start k) <-> (start <= x < start + N.of_nat k)%N.
Proof.
  induction k as [|k IH]; intros start x; simpl N_range.
  - simpl. lia.
  - simpl In. rewrite IH. lia.
Qed.

Lemma N_range_filter_sorted (f : N -> bool) (k : nat) :
  forall start : N, StronglySorted N.lt (filter f (N_range start k)).
Proof.
  induction k as [|k IH]; intros start; simpl.
  - constructor.
  - destruct (f start); [|apply IH].
    constructor; [apply IH|].
    apply Forall_forall. intros x Hx.
    apply filter_In in Hx. destruct Hx as [Hx _].
    apply N_range_bounds in Hx. lia.
Qed.

Lemma scanTokens_spec (c : Contract) (w : string) (tr : Trace) (supply : N) :
  totalSupply c = Return supply ->
  scanTokens c w tr =
  (Return (map string_of_N (filter (owned_by c w) (N_range 1 (N.to_nat supply)))),
   (tr ++ EvLedger CallTotalSupply
       :: map (fun id => EvLedger (CallOwnerOf (num_of_N id))) (N_range 1 (N.to_nat supply)))%list).
Proof.
  intros Hs. unfold scanTokens, try_catch, bind, ledger, perform. rewrite Hs.
  rewrite scanLoop_spec. cbn [List.app]. now rewrite <- List.app_assoc.
Qed.

Lemma scanTokens_fails (c : Contract) (w : string) (tr : Trace) (e : string) :
  totalSupply c = Throw e ->
  scanTokens c w tr =
  (Throw ("Failed to retrieve tokens: " ++ e), (tr ++ [EvLedger CallTotalSupply])%list).
Proof.
  intros Hs. unfold scanTokens; run_effects. now rewrite Hs.
Qed.

(** Fetching the metadata never aborts the batch: one item per
    identifier, in order, each after one metadata read. *)
Lemma fetchItem_returns (H : Host) (c : Contract) (id : string) (tr : Trace) :
  exists item,
    fetchItem H c id tr =
    (Return item, (tr ++ [EvLedger (CallTokenURI (StringToNumber H id))])%list) /\
    item_tokenId item = id.
Proof.
  unfold fetchItem; run_effects.
  destruct (tokenURI c (StringToNumber H id)) as [uri|e]; [|eauto].
  destruct (decodeMetadata H uri) as [md|e]; [|eauto].
  destruct (get_prop md "traits") as [t|e]; eauto.
Qed.

Lemma fetchItems_returns (H : Host) (c : Contract) (ids : list string) :
  forall tr, exists items,
    fetchItems H c ids tr =
    (Return items,
     (tr ++ map (fun id => EvLedger (CallTokenURI (StringToNumber H id))) ids)%list) /\
    map item_tokenId items = ids.
Proof.
  induction ids as [|id ids IH]; intros tr.
  - exists []. split; [|reflexivity]. simpl. unfold ret. now rewrite List.app_nil_r.
  - cbn [fetchItems]. unfold bind at 1.
    destruct (fetchItem_returns H c id tr) as (item & E1 & T1). rewrite E1.
    unfold bind at 1.
    destruct (IH (tr ++ [EvLedger (CallTokenURI (StringToNumber H id))])%list)
      as (items & E2 & T2).
    rewrite E2. exists (item :: items). split.
    + unfold ret. cbn [map]. now rewrite <- List.app_assoc.
    + simpl. now rewrite T1, T2.
Qed.

(** ** Discovery by index *)

Lemma indexLoop_fails (c : Contract) (w : string) (k : N) (e : string) (remaining : nat) :
  tokenOfOwnerByIndex c w k = Throw e ->
  forall (i : N) (acc : list string) (tr : Trace),
    (i <= k < i + N.of_nat remaining)%N ->
    exists tr', indexLoop c w remaining i acc tr = (Return [], tr').
Proof.
  intros Hk. induction remaining as [|r IH]; intros i acc tr Hi.
  - lia.
  - cbn [indexLoop]. run_effects.
    destruct (tokenOfOwnerByIndex c w i) as [id|e'] eqn:Ei.
    + apply IH. assert (i <> k) by congruence. lia.
    + eauto.
Qed.

Lemma indexedTokens_fails (c : Contract) (w : string) (n k : N) (e : string) (tr : Trace) :
  balanceOf c w = Return n -> (k < n)%N -> tokenOfOwnerByIndex c w k = Throw e ->
  exists tr', indexedTokens c w tr = (Return (Some []), tr').
Proof.
  intros Hb Hk He. unfold indexedTokens, try_catch, bind at 1, ledger, perform.
  rewrite Hb. destruct (N.eqb_spec n 0) as [->|Hn]; [lia|].
  unfold bind.
  destruct (indexLoop_fails c w k e (N.to_nat n) He 0%N [] (tr ++ [EvLedger (CallBalanceOf w)])%list)
    as (tr' & E); [lia|].
  rewrite E. unfold ret. eauto.
Qed.

(** Once the indexed attempt has left the array empty, [retrieve] is the
    scan followed by the metadata reads. *)
Lemma retrieve_by_scan (H : Host) (wallet : option json) (w : string) (config : Config)
  (tr tr1 tr2 : Trace) (a : string) :
  valid_address H wallet = Some w ->
  loadContractAddress H config tr = (Return a, tr1) ->
  indexedTokens (connect H (rpcUrl_of config) a None) w tr1 = (Return (Some []), tr2) ->
  retrieve H wallet config tr =
  (tokenIds <- scanTokens (connect H (rpcUrl_of config) a None) w ;;
   fetchItems H (connect H (rpcUrl_of config) a None) tokenIds) tr2.
Proof.
  intros Hw Ha Hi. unfold retrieve. rewrite Hw.
  unfold try_catch at 1. unfold bind at 1. unfold ret at 1. unfold bind at 1. rewrite Ha.
  unfold bind at 1. rewrite Hi. cbn [List.length Nat.eqb].
  destruct ((tokenIds <- scanTokens _ w ;; fetchItems H _ tokenIds) tr2) as [[items|e] tr3];
    reflexivity.
Qed.

(** ** Token identifiers *)

Lemma lt_zero_negative (n : JsNum) : lt_zero n = true <-> negative n.
Proof.
  destruct n as [|neg|q]; simpl.
  - split; [discriminate | contradiction].
  - reflexivity.
  - rewrite negb_true_iff. split.
    + intros Hb. apply Qnot_le_lt. intros Hle.
      apply Qle_bool_iff in Hle. congruence.
    + intros Hlt. destruct (Qle_bool 0 q) eqn:E; [|reflexivity].
      apply Qle_bool_iff in E. exfalso. exact (Qlt_not_le _ _ Hlt E).
Qed.

Lemma isNaN_iff (n : JsNum) : isNaN n = true <-> n = NaN.
Proof. destruct n; simpl; split; congruence. Qed.

Lemma validateTokenId_cases (H : Host) (tokenId : TokenIdArg) :
  (tokenId_refused H tokenId /\
   exists message, tokenId_error message /\
                   forall tr, validateTokenId H tokenId tr = (Throw message, tr)) \/
  (~ tokenId_refused H tokenId /\
   forall tr, validateTokenId H tokenId tr = (Return (Number H tokenId), tr)).
Proof.
  unfold tokenId_refused, tokenId_error.
  destruct tokenId as [| |n|s];
    try (left; split; [tauto | eexists; split; [left; reflexivity | reflexivity]]).
  all: unfold validateTokenId.
  all: destruct (isNaN (Number H _)) eqn:En;
    [ apply isNaN_iff in En; left; split; [tauto|];
      eexists; split; [right; reflexivity | reflexivity] | ].
  all: destruct (lt_zero (Number H _)) eqn:El;
    [ apply lt_zero_negative in El; left; split; [tauto|];
      eexists; split; [right; reflexivity | reflexivity] | ].
  all: right; split; [| reflexivity].
  all: intros [F | [F | [F | F]]]; try discriminate F.
  all: try (apply isNaN_iff in F; congruence).
  all: apply lt_zero_negative in F; congruence.
Qed.

Lemma token_not_found_distinct (H : Host) (tokenId : TokenIdArg) :
  ~ tokenId_error (token_not_found H tokenId).
Proof.
  unfold tokenId_error, token_not_found.
  intros [E | E]; apply (f_equal String.length) in E;
    rewrite !length_append in E; simpl in E; lia.
Qed.

(** ** Configuration *)

Lemma readDeployment_errors (H : Host) (tr tr' : Trace) (message : string) :
  readDeployment H tr = (Throw message, tr') ->
  message = "Contract address not provided and deployment.json not found".
Proof.
  unfold readDeployment; run_effects.
  destruct (readFileSync H "deployment.json") as [text|e]; [|congruence].
  destruct (JSON_parse text) as [info|e]; [|congruence].
  destruct (get_prop info "contractAddress"); congruence.
Qed.

Lemma loadContractAddress_errors (H : Host) (config : Config) (tr tr' : Trace)
  (message : string) :
  loadContractAddress H config tr = (Throw message, tr') ->
  message = "Contract address not provided and deployment.json not found" \/
  message = "Invalid contract address".
Proof.
  unfold loadContractAddress, bind.
  match goal with |- context [match ?m tr with _ => _ end] =>
    destruct (m tr) as [[v|e] tr1] eqn:E1 end.
  - destruct (valid_address H v); unfold ret, throw; intros E;
      [discriminate E | right; congruence].
  - intros E. inversion E; subst. left.
    destruct (cfg_contractAddress config) as [a|];
      [destruct (nonempty a); [discriminate E1|]|];
      exact (readDeployment_errors H _ _ _ E1).
Qed.

(** ** [getItem] and [verifyOwner], step by step *)

Lemma readOwner_run (H : Host) (c : Contract) (tokenId : TokenIdArg) (n : JsNum) (tr : Trace) :
  readOwner H c tokenId n tr =
  (match ownerOf c n with
   | Return o => Return o
   | Throw _ => Throw (token_not_found H tokenId)
   end, (tr ++ [EvLedger (CallOwnerOf n)])%list).
Proof.
  unfold readOwner; run_effects.
  destruct (ownerOf c n); reflexivity.
Qed.

Lemma readMetadata_returns (H : Host) (c : Contract) (tokenId : TokenIdArg) (n : JsNum)
  (tr : Trace) :
  exists fields, readMetadata H c tokenId n tr =
                 (Return fields, (tr ++ [EvLedger (CallTokenURI n)])%list).
Proof.
  unfold readMetadata; run_effects.
  destruct (tokenURI c n) as [uri|e]; [|eauto].
  destruct (decodeMetadata H uri) as [md|e]; [|eauto].
  destruct (get_prop md "traits") as [t|e]; eauto.
Qed.

Lemma getItem_refused (H : Host) (tokenId : TokenIdArg) (config : Config) (tr : Trace) :
  tokenId_refused H tokenId ->
  exists message, tokenId_error message /\ getItem H tokenId config tr = (Throw message, tr).
Proof.
  intros Hr. destruct (validateTokenId_cases H tokenId) as [(_ & m & Hm & E) | (Hn & _)];
    [|contradiction].
  exists m. split; [exact Hm|].
  unfold getItem, try_catch, bind at 1. rewrite E. reflexivity.
Qed.

Lemma getItem_config_fails (H : Host) (tokenId : TokenIdArg) (config : Config)
  (tr tr1 : Trace) (message : string) :
  ~ tokenId_refused H tokenId ->
  loadContractAddress H config tr = (Throw message, tr1) ->
  getItem H tokenId config tr = (Throw message, tr1).
Proof.
  intros Hr Hc. destruct (validateTokenId_cases H tokenId) as [(Hn & _) | (_ & E)];
    [contradiction|].
  unfold getItem, try_catch, bind at 1. rewrite E.
  unfold bind at 1. rewrite Hc. reflexivity.
Qed.

Lemma getItem_owner_fails (H : Host) (tokenId : TokenIdArg) (config : Config)
  (tr tr1 : Trace) (a e : string) :
  ~ tokenId_refused H tokenId ->
  loadContractAddress H config tr = (Return a, tr1) ->
  ownerOf (connect H (rpcUrl_of config) a None) (Number H tokenId) = Throw e ->
  getItem H tokenId config tr =
  (Throw (token_not_found H tokenId), (tr1 ++ [EvLedger (CallOwnerOf (Number H tokenId))])%list).
Proof.
  intros Hr Hc Ho. destruct (validateTokenId_cases H tokenId) as [(Hn & _) | (_ & E)];
    [contradiction|].
  unfold getItem, try_catch, bind at 1. rewrite E.
  unfold bind at 1. rewrite Hc.
  unfold bind at 1. rewrite readOwner_run, Ho. reflexivity.
Qed.

Lemma getItem_owner_found (H : Host) (tokenId : TokenIdArg) (config : Config)
  (tr tr1 : Trace) (a o : string) :
  ~ tokenId_refused H tokenId ->
  loadContractAddress H config tr = (Return a, tr1) ->
  ownerOf (connect H (rpcUrl_of config) a None) (Number H tokenId) = Return o ->
  exists item,
    getItem H tokenId config tr =
    (Return item, (tr1 ++ [EvLedger (CallOwnerOf (Number H tokenId))]
                       ++ [EvLedger (CallTokenURI (Number H tokenId))])%list) /\
    tv_owner item = o /\ tv_contractAddress item = a.
Proof.
  intros Hr Hc Ho. destruct (validateTokenId_cases H tokenId) as [(Hn & _) | (_ & E)];
    [contradiction|].
  unfold getItem, try_catch, bind at 1. rewrite E.
  unfold bind at 1. rewrite Hc.
  unfold bind at 1. rewrite readOwner_run, Ho.
  unfold bind at 1.
  destruct (readMetadata_returns H (connect H (rpcUrl_of config) a None) tokenId
              (Number H tokenId) (tr1 ++ [EvLedger (CallOwnerOf (Number H tokenId))])%list)
    as ([[[[md t] nm] d] i] & Em).
  rewrite Em. unfold ret. eexists. rewrite <- List.app_assoc.
  split; [reflexivity | split; reflexivity].
Qed.

Lemma verifyOwner_refused (H : Host) (wallet : option json) (w : string)
  (tokenId : TokenIdArg) (config : Config) (tr : Trace) :
  valid_address H wallet = Some w ->
  tokenId_refused H tokenId ->
  exists message, tokenId_error message /\
                  verifyOwner H wallet tokenId config tr = (Throw message, tr).
Proof.
  intros Hw Hr. destruct (validateTokenId_cases H tokenId) as [(_ & m & Hm & E) | (Hn & _)];
    [|contradiction].
  exists m. split; [exact Hm|].
  unfold verifyOwner, try_catch. rewrite Hw. unfold bind at 1, ret at 1.
  unfold bind at 1. rewrite E. reflexivity.
Qed.

Lemma verifyOwner_config_fails (H : Host) (wallet : option json) (w : string)
  (tokenId : TokenIdArg) (config : Config) (tr tr1 : Trace) (message : string) :
  valid_address H wallet = Some w ->
  ~ tokenId_refused H tokenId ->
  loadContractAddress H config tr = (Throw message, tr1) ->
  verifyOwner H wallet tokenId config tr = (Throw message, tr1).
Proof.
  intros Hw Hr Hc. destruct (validateTokenId_cases H tokenId) as [(Hn & _) | (_ & E)];
    [contradiction|].
  unfold verifyOwner, try_catch. rewrite Hw. unfold bind at 1, ret at 1.
  unfold bind at 1. rewrite E.
  unfold bind at 1. rewrite Hc. reflexivity.
Qed.

Lemma verifyOwner_run (H : Host) (wallet : option json) (w : string)
  (tokenId : TokenIdArg) (config : Config) (tr tr1 : Trace) (a : string) :
  valid_address H wallet = Some w ->
  ~ tokenId_refused H tokenId ->
  loadContractAddress H config tr = (Return a, tr1) ->
  verifyOwner H wallet tokenId config tr =
  (match ownerOf (connect H (rpcUrl_of config) a None) (Number H tokenId) with
   | Return o =>
       Return {| isOwner := String.eqb (toLowerCase w) (toLowerCase o);
                 vr_walletAddress := w;
                 actualOwner := o;
                 vr_tokenId := NumberToString H (Number H tokenId);
                 vr_contractAddress := a |}
   | Throw _ => Throw (token_not_found H tokenId)
   end, (tr1 ++ [EvLedger (CallOwnerOf (Number H tokenId))])%list).
Proof.
  intros Hw Hr Hc. destruct (validateTokenId_cases H tokenId) as [(Hn & _) | (_ & E)];
    [contradiction|].
  unfold verifyOwner, try_catch. rewrite Hw. unfold bind at 1, ret at 1.
  unfold bind at 1. rewrite E.
  unfold bind at 1. rewrite Hc.
  unfold bind at 1. rewrite readOwner_run.
  destruct (ownerOf _ _); reflexivity.
Qed.

(** ** Metadata codec *)

Lemma lookup_wf (key : string) (o : list (string * json)) (x : json) :
  forallb (fun kv => wf_json (snd kv)) o = true ->
  lookup key o = Some x -> wf_json x = true.
Proof.
  induction o as [|[k v] o IH]; simpl; [discriminate|].
  intros Hall. apply andb_true_iff in Hall. destruct Hall as [Hv Ho].
  destruct (String.eqb key k); [intros E; now inversion E; subst | now apply IH].
Qed.

Lemma or_default_member_wf (v : json) (key : string) (d : json) :
  wf_json v = true -> wf_json d = true -> wf_json (or_default (member v key) d) = true.
Proof.
  intros Hv Hd. unfold or_default.
  destruct (member v key) as [x|] eqn:E; [|exact Hd].
  destruct (truthy x); [|exact Hd].
  destruct v; simpl in E; try discriminate E.
  simpl in Hv. apply andb_true_iff in Hv. destruct Hv as [_ Hall].
  exact (lookup_wf key members x Hall E).
Qed.

Lemma buildMetadata_wf (imageUrl : string) (traits : json) :
  wf_json traits = true -> wf_json (buildMetadata imageUrl traits) = true.
Proof.
  intros Ht. unfold buildMetadata. cbn [wf_json map fst snd forallb distinct existsb].
  rewrite !or_default_member_wf by (exact Ht || reflexivity).
  rewrite Ht. reflexivity.
Qed.

Lemma encodeMetadata_head (imageUrl : string) (traits : json) :
  exists tl, encodeMetadata imageUrl traits = String "{" tl.
Proof. unfold encodeMetadata, buildMetadata. rewrite stringify_obj. simpl. eauto. Qed.

(** Decoding what [mint] encoded gives back the metadata object. *)
Lemma decode_encode (H : Host) (imageUrl : string) (traits : json) :
  wf_json traits = true ->
  decodeMetadata H (encodeMetadata imageUrl traits) = Return (buildMetadata imageUrl traits).
Proof.
  intros Ht. unfold decodeMetadata.
  destruct (encodeMetadata_head imageUrl traits) as (tl & E).
  rewrite E. cbn [startsWith Ascii.eqb Bool.eqb andb]. rewrite <- E.
  unfold encodeMetadata. apply JSON_parse_stringify. now apply buildMetadata_wf.
Qed.

Lemma traits_of_buildMetadata (imageUrl : string) (traits : json) :
  get_prop (buildMetadata imageUrl traits) "traits" = Return (Some traits).
Proof. reflexivity. Qed.

Lemma is_object_truthy (v : json) : is_object v = true -> truthy v = true.
Proof. destruct v; simpl; congruence. Qed.

(** ** [mint], step by step *)

Lemma try_rethrow {A : Type} (m : M A) (tr : Trace) :
  try_catch m (fun error => throw error) tr = m tr.
Proof. unfold try_catch, throw. destruct (m tr) as [[a|e] tr']; reflexivity. Qed.

Lemma probeImage_cases (H : Host) (u : string) (tr : Trace) :
  exists tr1,
    ledger_calls tr1 = ledger_calls tr /\
    (probeImage H u tr = (Return tt, tr1) \/
     exists message,
       probeImage H u tr = (Throw message, tr1) /\
       fetch_available H = true /\
       (message = "URL does not point to an image" \/ fetch_head H u = Throw message)).
Proof.
  unfold probeImage, try_catch.
  destruct (fetch_available H) eqn:Ef.
  - unfold bind, perform.
    assert (ledger_calls (tr ++ [EvFetchHead u]) = ledger_calls tr) as L.
    { rewrite ledger_calls_app. simpl. now rewrite List.app_nil_r. }
    exists (tr ++ [EvFetchHead u])%list. split; [exact L|].
    destruct (fetch_head H u) as [[ct|]|e] eqn:Eh.
    + destruct (startsWith ct "image/"); unfold ret, throw; cbn; eauto 8.
    + unfold throw; cbn; eauto 8.
    + destruct (includes e "fetch" || includes e "undefined"); unfold ret, throw; eauto 8.
  - exists tr. split; [reflexivity|]. left. reflexivity.
Qed.

Lemma probeImage_without_fetch (H : Host) (u : string) (tr : Trace) :
  fetch_available H = false -> probeImage H u tr = (Return tt, tr).
Proof. intros Ef. unfold probeImage, try_catch. now rewrite Ef. Qed.

Lemma validateMint_inv (H : Host) (dest image traits : option json) (tr tr0 : Trace)
  (to img : string) (t : json) :
  validateMint H dest image traits tr = (Return (to, img, t), tr0) ->
  valid_address H dest = Some to /\ image = Some (JStr img) /\ nonempty img = true /\
  traits = Some t /\ is_object t = true.
Proof.
  unfold validateMint, bind, ret, throw.
  destruct (valid_address H dest) as [a|]; [|discriminate].
  destruct image as [[| | |u| |]|]; try discriminate.
  destruct (nonempty u) eqn:En; [|discriminate].
  destruct (probeImage H u tr) as [[[]|e] tr1]; [|discriminate].
  destruct traits as [[| | | |l|o]|]; try discriminate;
    intros E; inversion E; subst; repeat split; (reflexivity || exact En).
Qed.

Lemma submitMint_run (c : Contract) (to blob : string) (tr : Trace) :
  submitMint c to blob tr =
  match contract_mint c to blob with
  | Return tx => (Return tx, (tr ++ [EvLedger (CallMint to blob)])%list)
  | Throw e1 =>
      match contract_safeMint c to blob with
      | Return tx =>
          (Return tx, (tr ++ [EvLedger (CallMint to blob); EvLedger (CallSafeMint to blob)])%list)
      | Throw e2 =>
          match contract_mintWithMetadata c to blob with
          | Return tx =>
              (Return tx,
               (tr ++ [EvLedger (CallMint to blob); EvLedger (CallSafeMint to blob);
                       EvLedger (CallMintWithMetadata to blob)])%list)
          | Throw e3 =>
              (Throw (mint_failed_prefix ++ e1),
               (tr ++ [EvLedger (CallMint to blob); EvLedger (CallSafeMint to blob);
                       EvLedger (CallMintWithMetadata to blob)])%list)
          end
      end
  end.
Proof.
  unfold submitMint; run_effects.
  destruct (contract_mint c to blob); [reflexivity|].
  destruct (contract_safeMint c to blob); [now rewrite <- List.app_assoc|].
  destruct (contract_mintWithMetadata c to blob); now rewrite <- !List.app_assoc.
Qed.

Lemma submitMint_inv (c : Contract) (to blob : string) (tr tr2 : Trace) (tx : Tx) :
  submitMint c to blob tr = (Return tx, tr2) ->
  exists rest,
    tr2 = (tr ++ rest)%list /\
    (In (EvLedger (CallMint to blob)) rest \/
     In (EvLedger (CallSafeMint to blob)) rest \/
     In (EvLedger (CallMintWithMetadata to blob)) rest).
Proof.
  rewrite submitMint_run.
  destruct (contract_mint c to blob); [|destruct (contract_safeMint c to blob);
    [|destruct (contract_mintWithMetadata c to blob)]];
    intros E; inversion E; subst; eexists; (split; [reflexivity|]); simpl; tauto.
Qed.

Lemma mint_run (H : Host) (dest image traits : option json) (config : Config)
  (tr tr0 tr1 : Trace) (to img : string) (t : json) (c : Contract) :
  validateMint H dest image traits tr = (Return (to, img, t), tr0) ->
  openMintContract H config tr0 = (Return c, tr1) ->
  mint H dest image traits config tr =
  (tx <- submitMint c to (encodeMetadata img t) ;; confirmMint c tx to img t) tr1.
Proof.
  intros Hv Ho. unfold mint. rewrite try_rethrow.
  unfold bind at 1. rewrite Hv. unfold bind at 1. rewrite Ho. reflexivity.
Qed.

Lemma mint_inv (H : Host) (dest image traits : option json) (config : Config)
  (tr tr' : Trace) (r : MintResult) :
  mint H dest image traits config tr = (Return r, tr') ->
  exists to img t tr0 c tr1 tx tr2,
    validateMint H dest image traits tr = (Return (to, img, t), tr0) /\
    openMintContract H config tr0 = (Return c, tr1) /\
    submitMint c to (encodeMetadata img t) tr1 = (Return tx, tr2) /\
    confirmMint c tx to img t tr2 = (Return r, tr').
Proof.
  unfold mint. rewrite try_rethrow. unfold bind at 1.
  destruct (validateMint H dest image traits tr) as [[[[to img] t]|e] tr0] eqn:Hv;
    [|discriminate].
  unfold bind at 1.
  destruct (openMintContract H config tr0) as [[c|e] tr1] eqn:Ho; [|discriminate].
  unfold bind at 1.
  destruct (submitMint c to (encodeMetadata img t) tr1) as [[tx|e] tr2] eqn:Hs; [|discriminate].
  intros Hc. exists to, img, t, tr0, c, tr1, tx, tr2. repeat split; assumption.
Qed.

Lemma tokenIdFallback_extends (c : Contract) (tokenId : option string) (tr : Trace) :
  exists o rest, tokenIdFallback c tokenId tr = (Return o, (tr ++ rest)%list).
Proof.
  unfold tokenIdFallback. destruct tokenId as [id|].
  - exists (Some id), []. unfold ret. now rewrite List.app_nil_r.
  - run_effects.
    destruct (totalSupply c); eauto.
Qed.

Lemma confirmMint_inv (c : Contract) (tx : Tx) (to img : string) (t : json)
  (tr tr' : Trace) (r : MintResult) :
  confirmMint c tx to img t tr = (Return r, tr') ->
  mr_traits r = t /\ mr_imageUrl r = img /\ mr_destinationAddress r = to /\
  mr_transactionHash r = hash tx /\ mr_success r = true /\
  exists rest, tr' = (tr ++ EvLedger (CallWait (hash tx)) :: rest)%list.
Proof.
  unfold confirmMint, bind at 1, ledger, perform.
  destruct (wait tx) as [receipt|e]; [|discriminate].
  unfold bind at 1.
  destruct (tokenIdFromReceipt receipt (tr ++ [EvLedger (CallWait (hash tx))])%list)
    as [[id|e] tr1] eqn:Hr; [|discriminate].
  assert (tr1 = (tr ++ [EvLedger (CallWait (hash tx))])%list) as ->.
  { unfold tokenIdFromReceipt in Hr. destruct (logs receipt) as [ls|].
    - unfold bind, lift, ret in Hr. destruct (parseLog (find isTransferLog ls));
        inversion Hr; reflexivity.
    - unfold ret in Hr. inversion Hr; reflexivity. }
  unfold bind at 1.
  destruct (tokenIdFallback_extends c id (tr ++ [EvLedger (CallWait (hash tx))])%list)
    as (o & rest & Ef).
  rewrite Ef. unfold ret. intros E. inversion E; subst. cbn.
  repeat split. exists rest. now rewrite <- List.app_assoc.
Qed.

Lemma find_nothing {A : Type} (f : A -> bool) (l : list A) :
  (forall x, In x l -> f x = false) -> find f l = None.
Proof.
  induction l as [|x l IH]; intros Hall; simpl; [reflexivity|].
  rewrite (Hall x (or_introl eq_refl)). apply IH. intros y Hy. apply Hall. now right.
Qed.

(** Every path of the identifier extraction (lines 156-193). *)
Lemma confirmMint_run (c : Contract) (tx : Tx) (to img : string) (t : json) (tr : Trace) :
  confirmMint c tx to img t tr =
  let result := fun (receipt : Receipt) (tokenId : option string) =>
    {| mr_success := true; mr_transactionHash := hash tx;
       mr_blockNumber := blockNumber receipt; mr_tokenId := tokenId;
       mr_destinationAddress := to; mr_imageUrl := img; mr_traits := t |} in
  let waited := (tr ++ [EvLedger (CallWait (hash tx))])%list in
  let fallback := fun (receipt : Receipt) =>
    match totalSupply c with
    | Return supply =>
        (Return (result receipt (Some (string_of_Z (Z.of_N supply - 1)))),
         (waited ++ [EvLedger CallTotalSupply])%list)
    | Throw _ => (Return (result receipt None), (waited ++ [EvLedger CallTotalSupply])%list)
    end in
  match wait tx with
  | Throw e => (Throw e, waited)
  | Return receipt =>
      match logs receipt with
      | None => fallback receipt
      | Some ls =>
          match find isTransferLog ls with
          | None => (Throw (TypeError_undefined "topics"), waited)
          | Some log =>
              match eventTokenId (match parseLog (Some log) with
                                  | Return d => d
                                  | Throw _ => None
                                  end) with
              | Some id => (Return (result receipt (Some id)), waited)
              | None => fallback receipt
              end
          end
      end
  end.
Proof.
  unfold confirmMint, bind at 1, ledger, perform.
  destruct (wait tx) as [receipt|e]; [|reflexivity].
  unfold bind at 1, tokenIdFromReceipt.
  assert (forall id : option string,
    (tokenId <- tokenIdFallback c id ;;
     ret {| mr_success := true; mr_transactionHash := hash tx;
            mr_blockNumber := blockNumber receipt; mr_tokenId := tokenId;
            mr_destinationAddress := to; mr_imageUrl := img; mr_traits := t |})
      (tr ++ [EvLedger (CallWait (hash tx))])%list =
    match id with
    | Some i =>
        (Return {| mr_success := true; mr_transactionHash := hash tx;
                   mr_blockNumber := blockNumber receipt; mr_tokenId := Some i;
                   mr_destinationAddress := to; mr_imageUrl := img; mr_traits := t |},
         (tr ++ [EvLedger (CallWait (hash tx))])%list)
    | None =>
        match totalSupply c with
        | Return supply =>
            (Return {| mr_success := true; mr_transactionHash := hash tx;
                       mr_blockNumber := blockNumber receipt;
                       mr_tokenId := Some (string_of_Z (Z.of_N supply - 1));
                       mr_destinationAddress := to; mr_imageUrl := img; mr_traits := t |},
             ((tr ++ [EvLedger (CallWait (hash tx))]) ++ [EvLedger CallTotalSupply])%list)
        | Throw _ =>
            (Return {| mr_success := true; mr_transactionHash := hash tx;
                       mr_blockNumber := blockNumber receipt; mr_tokenId := None;
                       mr_destinationAddress := to; mr_imageUrl := img; mr_traits := t |},
             ((tr ++ [EvLedger (CallWait (hash tx))]) ++ [EvLedger CallTotalSupply])%list)
        end
    end) as F.
  { intros [i|]; unfold tokenIdFallback, bind, try_catch, ledger, perform, ret;
      [reflexivity | destruct (totalSupply c); reflexivity]. }
  destruct (logs receipt) as [ls|].
  - unfold bind at 1, lift.
    destruct (find isTransferLog ls) as [log|] eqn:Ef; [|reflexivity].
    apply find_some in Ef. destruct Ef as [_ Ef]. unfold isTransferLog in Ef.
    destruct (parseLog (Some log)) as [d|]; [|discriminate Ef].
    unfold ret at 1. rewrite F. cbv zeta.
    destruct (eventTokenId d); reflexivity.
  - unfold ret at 1. rewrite F. reflexivity.
Qed.

(** * The claims *)

(** C4.  When the indexed discovery reads the balance and one of the
    per-index reads below it fails -- whatever was collected before --
    the partial list is dropped: [retrieve] is the scan strategy followed
    by the metadata reads, so its items are those of the scan (or its
    error is the scan's error), never a part of the indexed list. *)
Theorem indexed_failure_falls_back_to_scan
  (H : Host) (wallet : option json) (w : string) (config : Config)
  (tr tr1 : Trace) (a : string) (n k : N) (e : string) :
  valid_address H wallet = Some w ->
  loadContractAddress H config tr = (Return a, tr1) ->
  balanceOf (connect H (rpcUrl_of config) a None) w = Return n ->
  (k < n)%N ->
  tokenOfOwnerByIndex (connect H (rpcUrl_of config) a None) w k = Throw e ->
  exists tr2,
    indexedTokens (connect H (rpcUrl_of config) a None) w tr1 = (Return (Some []), tr2) /\
    retrieve H wallet config tr =
      (tokenIds <- scanTokens (connect H (rpcUrl_of config) a None) w ;;
       fetchItems H (connect H (rpcUrl_of config) a None) tokenIds) tr2 /\
    (forall supply,
        totalSupply (connect H (rpcUrl_of config) a None) = Return supply ->
        exists items tr3,
          retrieve H wallet config tr = (Return items, tr3) /\
          map item_tokenId items =
          map string_of_N
            (filter (owned_by (connect H (rpcUrl_of config) a None) w)
               (N_range 1 (N.to_nat supply)))) /\
    (forall err,
        totalSupply (connect H (rpcUrl_of config) a None) = Throw err ->
        fst (retrieve H wallet config tr) = Throw ("Failed to retrieve tokens: " ++ err)).
Proof.
  intros Hw Ha Hb Hk He.
  destruct (indexedTokens_fails _ w n k e tr1 Hb Hk He) as (tr2 & Hi).
  exists tr2. split; [exact Hi|].
  pose proof (retrieve_by_scan H wallet w config tr tr1 tr2 a Hw Ha Hi) as Hr.
  split; [exact Hr|]. split.
  - intros supply Hs. rewrite Hr. unfold bind.
    rewrite (scanTokens_spec _ w tr2 supply Hs).
    match goal with |- context [fetchItems H ?c ?ids ?t] =>
      destruct (fetchItems_returns H c ids t) as (items & Ef & Et) end.
    eexists items, _. split; [exact Ef | exact Et].
  - intros err Hs. rewrite Hr. unfold bind.
    rewrite (scanTokens_fails _ w tr2 err Hs). reflexivity.
Qed.

(** Second of three per-index reads failing: the caller gets the scan's
    [2; 4], not the partial [2]. *)
Lemma indexed_failure_falls_back_to_scan_witness :
  exists items tr3,
    retrieve flakyHost (Some (JStr alice)) demoConfig [] = (Return items, tr3) /\
    map item_tokenId items = ["2"; "4"].
Proof.
  destruct (indexed_failure_falls_back_to_scan flakyHost (Some (JStr alice)) alice
              demoConfig [] [] gameItemAddress 3%N 1%N "timeout"
              eq_refl eq_refl eq_refl eq_refl eq_refl)
    as (tr2 & _ & _ & Hs & _).
  exact (Hs 5%N eq_refl).
Defined.

(** C5.  When [retrieve] uses the scan strategy (the indexed attempt left
    nothing) and the total supply reads as [supply], it queries the owner
    of every identifier of [1 .. supply] in order and returns one item
    per identifier whose owner read succeeds with the queried address up
    to case; failing owner reads are skipped; the identifiers come in
    ascending order. *)
Theorem scan_strategy_result
  (H : Host) (wallet : option json) (w : string) (config : Config)
  (tr tr1 tr2 : Trace) (a : string) (supply : N) :
  valid_address H wallet = Some w ->
  loadContractAddress H config tr = (Return a, tr1) ->
  indexedTokens (connect H (rpcUrl_of config) a None) w tr1 = (Return (Some []), tr2) ->
  totalSupply (connect H (rpcUrl_of config) a None) = Return supply ->
  let c := connect H (rpcUrl_of config) a None in
  let ids := filter (owned_by c w) (N_range 1 (N.to_nat supply)) in
  (exists items : list Item,
      retrieve H wallet config tr =
      (Return items,
       (tr2 ++ EvLedger CallTotalSupply
            :: map (fun id => EvLedger (CallOwnerOf (num_of_N id)))
                 (N_range 1 (N.to_nat supply))
            ++ map (fun id => EvLedger (CallTokenURI (StringToNumber H id)))
                 (map string_of_N ids))%list) /\
      map item_tokenId items = map string_of_N ids) /\
  StronglySorted N.lt ids /\
  (forall id, In id ids <->
              (1 <= id <= supply)%N /\
              exists o, ownerOf c (num_of_N id) = Return o /\
                        toLowerCase o = toLowerCase w).
Proof.
  intros Hw Ha Hi Hs c ids.
  pose proof (retrieve_by_scan H wallet w config tr tr1 tr2 a Hw Ha Hi) as Hr.
  fold c in Hr. unfold bind in Hr. rewrite (scanTokens_spec c w tr2 supply Hs) in Hr.
  fold ids in Hr.
  match type of Hr with context [fetchItems H c ?l ?t] =>
    destruct (fetchItems_returns H c l t) as (items & Ef & Et) end.
  rewrite Ef in Hr. split; [|split].
  - exists items. split; [|exact Et].
    rewrite Hr. f_equal. rewrite <- List.app_assoc. reflexivity.
  - apply N_range_filter_sorted.
  - intros id. unfold ids. rewrite filter_In, N_range_bounds. unfold owned_by. split.
    + intros [Hb Ho]. split; [lia|].
      destruct (ownerOf c (num_of_N id)) as [o|]; [|discriminate].
      exists o. split; [reflexivity | now apply String.eqb_eq].
    + intros [Hb (o & Eo & El)]. split; [lia|].
      rewrite Eo. now apply String.eqb_eq.
Qed.

(** Total supply 5, the address holding 2 and 4: exactly those two, in
    ascending order. *)
Lemma scan_strategy_result_witness :
  exists items tr3,
    retrieve fiveHost (Some (JStr alice)) demoConfig [] = (Return items, tr3) /\
    map item_tokenId items = ["2"; "4"].
Proof.
  destruct (scan_strategy_result fiveHost (Some (JStr alice)) alice demoConfig
              [] [] _ gameItemAddress 5%N eq_refl eq_refl eq_refl eq_refl)
    as ((items & Hr & Hm) & _).
  exists items. eexists. split; [exact Hr | exact Hm].
Defined.

(** C6.  For a token that exists ([getItem] returns it) and a well-formed
    address, [verifyOwner] returns, reports the same owner, and its
    [isOwner] is [true] exactly when the lower-cased owner of [getItem]
    equals the lower-cased address, [false] otherwise. *)
Theorem verifyOwner_agrees_with_getItem
  (H : Host) (wallet : option json) (w : string) (tokenId : TokenIdArg)
  (config : Config) (tr tr' : Trace) (item : TokenView) :
  valid_address H wallet = Some w ->
  getItem H tokenId config tr = (Return item, tr') ->
  exists r tr'',
    verifyOwner H wallet tokenId config tr = (Return r, tr'') /\
    actualOwner r = tv_owner item /\
    (isOwner r = true <-> toLowerCase (tv_owner item) = toLowerCase w) /\
    (isOwner r = false <-> toLowerCase (tv_owner item) <> toLowerCase w).
Proof.
  intros Hw Hg.
  destruct (validateTokenId_cases H tokenId) as [(Hr & _) | (Hn & _)].
  { destruct (getItem_refused H tokenId config tr Hr) as (m & _ & E). congruence. }
  destruct (loadContractAddress H config tr) as [[a|m] tr1] eqn:Hc.
  2:{ rewrite (getItem_config_fails H tokenId config tr tr1 m Hn Hc) in Hg. discriminate. }
  destruct (ownerOf (connect H (rpcUrl_of config) a None) (Number H tokenId)) as [o|e] eqn:Ho.
  2:{ rewrite (getItem_owner_fails H tokenId config tr tr1 a e Hn Hc Ho) in Hg. discriminate. }
  destruct (getItem_owner_found H tokenId config tr tr1 a o Hn Hc Ho) as (item' & E & Eo & _).
  rewrite E in Hg. inversion Hg; subst item' tr'. clear Hg.
  rewrite (verifyOwner_run H wallet w tokenId config tr tr1 a Hw Hn Hc), Ho.
  eexists. eexists. split; [reflexivity|]. cbn [actualOwner isOwner].
  rewrite Eo. split; [reflexivity|]. split.
  - rewrite String.eqb_eq. split; congruence.
  - rewrite <- not_true_iff_false, String.eqb_eq. split; intros F G; apply F; congruence.
Qed.

(** Token 2 is held by the checksummed spelling of the queried address. *)
Lemma verifyOwner_agrees_with_getItem_witness :
  exists r tr'',
    verifyOwner fiveHost (Some (JStr alice)) (TidString "2") demoConfig [] = (Return r, tr'') /\
    isOwner r = true.
Proof.
  pose (run := getItem fiveHost (TidString "2") demoConfig []).
  let result := eval vm_compute in run in
  destruct (verifyOwner_agrees_with_getItem fiveHost (Some (JStr alice)) alice
              (TidString "2") demoConfig [] _ _ eq_refl (@eq_refl _ result <: run = result))
    as (r & tr'' & E & _ & Hiff & _).
  exists r, tr''. split; [exact E | apply Hiff; reflexivity].
Defined.

(** C9.  Once the identifier has passed validation and the contract
    address is resolved, a failing owner read makes [getItem] raise the
    dedicated does-not-exist-or-burned error -- whatever the ledger's own
    error was -- and [verifyOwner] does the same on its owner read. *)
Theorem failed_owner_read_is_token_not_found
  (H : Host) (tokenId : TokenIdArg) (config : Config) (tr tr1 : Trace) (a e : string) :
  ~ tokenId_refused H tokenId ->
  loadContractAddress H config tr = (Return a, tr1) ->
  ownerOf (connect H (rpcUrl_of config) a None) (Number H tokenId) = Throw e ->
  getItem H tokenId config tr =
    (Throw ("Token ID " ++ show_tokenId H tokenId ++ " does not exist or has been burned"),
     (tr1 ++ [EvLedger (CallOwnerOf (Number H tokenId))])%list) /\
  (forall wallet w,
      valid_address H wallet = Some w ->
      verifyOwner H wallet tokenId config tr =
      (Throw ("Token ID " ++ show_tokenId H tokenId ++ " does not exist or has been burned"),
       (tr1 ++ [EvLedger (CallOwnerOf (Number H tokenId))])%list)).
Proof.
  intros Hn Hc Ho. split.
  - exact (getItem_owner_fails H tokenId config tr tr1 a e Hn Hc Ho).
  - intros wallet w Hw.
    rewrite (verifyOwner_run H wallet w tokenId config tr tr1 a Hw Hn Hc), Ho.
    reflexivity.
Qed.

Lemma not_refused_9 : ~ tokenId_refused fiveHost (TidNumber (Fin 9)).
Proof.
  intros [F | [F | [F | F]]]; discriminate F.
Defined.

(** Identifier 9 of a contract that issued five tokens. *)
Lemma failed_owner_read_is_token_not_found_witness :
  fst (getItem fiveHost (TidNumber (Fin 9)) demoConfig []) =
    Throw "Token ID 9 does not exist or has been burned" /\
  fst (verifyOwner fiveHost (Some (JStr alice)) (TidNumber (Fin 9)) demoConfig []) =
    Throw "Token ID 9 does not exist or has been burned".
Proof.
  destruct (failed_owner_read_is_token_not_found fiveHost (TidNumber (Fin 9)) demoConfig
              [] [] gameItemAddress _ not_refused_9 eq_refl eq_refl) as [Hg Hv].
  split.
  - rewrite Hg. reflexivity.
  - rewrite (Hv (Some (JStr alice)) alice eq_refl). reflexivity.
Defined.

(** C10.  [getItem] raises one of the two token-identifier validation
    errors exactly when the identifier is missing ([undefined] or
    [null]), converts to not-a-number, or is negative, and so does
    [verifyOwner] for a well-formed address; any other identifier -- 0
    and 1.5 among them -- is handed, converted, to the owner read of the
    ledger as soon as the contract address is resolved. *)
Theorem tokenId_validation
  (H : Host) (tokenId : TokenIdArg) (config : Config) (tr : Trace) :
  ((exists message, tokenId_error message /\
                    fst (getItem H tokenId config tr) = Throw message)
   <-> tokenId_refused H tokenId) /\
  (forall wallet w,
      valid_address H wallet = Some w ->
      ((exists message, tokenId_error message /\
                        fst (verifyOwner H wallet tokenId config tr) = Throw message)
       <-> tokenId_refused H tokenId)) /\
  (~ tokenId_refused H tokenId ->
   forall a tr1,
     loadContractAddress H config tr = (Return a, tr1) ->
     (exists rest,
         snd (getItem H tokenId config tr) =
         (tr1 ++ EvLedger (CallOwnerOf (Number H tokenId)) :: rest)%list) /\
     (forall wallet w,
         valid_address H wallet = Some w ->
         snd (verifyOwner H wallet tokenId config tr) =
         (tr1 ++ [EvLedger (CallOwnerOf (Number H tokenId))])%list)) /\
  ~ tokenId_refused H (TidNumber (Fin 0)) /\
  ~ tokenId_refused H (TidNumber (Fin (3 # 2))).
Proof.
  assert (forall m, m = "Contract address not provided and deployment.json not found" \/
                    m = "Invalid contract address" -> ~ tokenId_error m) as Hcfg.
  { intros m [-> | ->] [F | F]; discriminate F. }
  split; [|split; [|split; [|split]]].
  - split.
    + intros (m & Hm & E).
      destruct (validateTokenId_cases H tokenId) as [(Hr & _) | (Hn & _)]; [exact Hr|].
      exfalso.
      destruct (loadContractAddress H config tr) as [[a|m'] tr1] eqn:Hc.
      * destruct (ownerOf (connect H (rpcUrl_of config) a None) (Number H tokenId))
          as [o|e] eqn:Ho.
        -- destruct (getItem_owner_found H tokenId config tr tr1 a o Hn Hc Ho)
             as (item & E' & _).
           rewrite E' in E. discriminate E.
        -- rewrite (getItem_owner_fails H tokenId config tr tr1 a e Hn Hc Ho) in E.
           simpl in E. inversion E; subst m.
           exact (token_not_found_distinct H tokenId Hm).
      * rewrite (getItem_config_fails H tokenId config tr tr1 m' Hn Hc) in E.
        simpl in E. inversion E; subst m'.
        exact (Hcfg m (loadContractAddress_errors H config tr tr1 m Hc) Hm).
    + intros Hr. destruct (getItem_refused H tokenId config tr Hr) as (m & Hm & E).
      exists m. split; [exact Hm | now rewrite E].
  - intros wallet w Hw. split.
    + intros (m & Hm & E).
      destruct (validateTokenId_cases H tokenId) as [(Hr & _) | (Hn & _)]; [exact Hr|].
      exfalso.
      destruct (loadContractAddress H config tr) as [[a|m'] tr1] eqn:Hc.
      * rewrite (verifyOwner_run H wallet w tokenId config tr tr1 a Hw Hn Hc) in E.
        simpl in E.
        destruct (ownerOf (connect H (rpcUrl_of config) a None) (Number H tokenId));
          [discriminate E|].
        inversion E; subst m. exact (token_not_found_distinct H tokenId Hm).
      * rewrite (verifyOwner_config_fails H wallet w tokenId config tr tr1 m' Hw Hn Hc) in E.
        simpl in E. inversion E; subst m'.
        exact (Hcfg m (loadContractAddress_errors H config tr tr1 m Hc) Hm).
    + intros Hr. destruct (verifyOwner_refused H wallet w tokenId config tr Hw Hr)
        as (m & Hm & E).
      exists m. split; [exact Hm | now rewrite E].
  - intros Hn a tr1 Hc. split.
    + destruct (ownerOf (connect H (rpcUrl_of config) a None) (Number H tokenId))
        as [o|e] eqn:Ho.
      * destruct (getItem_owner_found H tokenId config tr tr1 a o Hn Hc Ho)
          as (item & E' & _).
        rewrite E'. simpl. eexists. reflexivity.
      * rewrite (getItem_owner_fails H tokenId config tr tr1 a e Hn Hc Ho).
        simpl. eexists. reflexivity.
    + intros wallet w Hw.
      rewrite (verifyOwner_run H wallet w tokenId config tr tr1 a Hw Hn Hc). reflexivity.
  - intros [F | [F | [F | F]]]; discriminate F.
  - intros [F | [F | [F | F]]]; discriminate F.
Qed.

(** The owner read is asked about 1.5 (and about 0), while -1 is
    refused before any read. *)
Lemma tokenId_validation_witness :
  snd (getItem fiveHost (TidNumber (Fin (3 # 2))) demoConfig []) =
    [EvLedger (CallOwnerOf (Fin (3 # 2)))] /\
  snd (verifyOwner fiveHost (Some (JStr alice)) (TidNumber (Fin 0)) demoConfig []) =
    [EvLedger (CallOwnerOf (Fin 0))] /\
  exists message,
    tokenId_error message /\
    fst (getItem fiveHost (TidNumber (Fin (-1 # 1))) demoConfig []) = Throw message.
Proof.
  destruct (tokenId_validation fiveHost (TidNumber (Fin (3 # 2))) demoConfig [])
    as (_ & _ & _ & _ & H15).
  destruct (tokenId_validation fiveHost (TidNumber (Fin 0)) demoConfig [])
    as (_ & _ & Hfwd & H0 & _).
  destruct (tokenId_validation fiveHost (TidNumber (Fin (-1 # 1))) demoConfig [])
    as (Hiff & _).
  split; [reflexivity|]. split.
  - exact (proj2 (Hfwd H0 gameItemAddress [] eq_refl) (Some (JStr alice)) alice eq_refl).
  - apply Hiff. right. right. right. reflexivity.
Defined.



(** C1 (amended).  Once validation and configuration have passed, the
    entry points are tried in the order [mint], [safeMint],
    [mintWithMetadata]; the transaction of the first one that does not
    raise is the one awaited; when all three raise, [mint] fails with the
    entry-point error, which carries the message of the first error, the
    one [mint] raised. *)
Theorem mint_entry_points
  (H : Host) (dest image traits : option json) (config : Config)
  (tr tr0 tr1 : Trace) (to img : string) (t : json) (c : Contract) :
  validateMint H dest image traits tr = (Return (to, img, t), tr0) ->
  openMintContract H config tr0 = (Return c, tr1) ->
  let blob := encodeMetadata img t in
  let first := EvLedger (CallMint to blob) in
  let second := EvLedger (CallSafeMint to blob) in
  let third := EvLedger (CallMintWithMetadata to blob) in
  (forall tx,
      contract_mint c to blob = Return tx ->
      mint H dest image traits config tr =
      confirmMint c tx to img t (tr1 ++ [first])%list) /\
  (forall e1 tx,
      contract_mint c to blob = Throw e1 ->
      contract_safeMint c to blob = Return tx ->
      mint H dest image traits config tr =
      confirmMint c tx to img t (tr1 ++ [first; second])%list) /\
  (forall e1 e2 tx,
      contract_mint c to blob = Throw e1 ->
      contract_safeMint c to blob = Throw e2 ->
      contract_mintWithMetadata c to blob = Return tx ->
      mint H dest image traits config tr =
      confirmMint c tx to img t (tr1 ++ [first; second; third])%list) /\
  (forall e1 e2 e3,
      contract_mint c to blob = Throw e1 ->
      contract_safeMint c to blob = Throw e2 ->
      contract_mintWithMetadata c to blob = Throw e3 ->
      mint H dest image traits config tr =
      (Throw ("Minting failed. Tried mint, safeMint, and mintWithMetadata. Original error: "
              ++ e1),
       (tr1 ++ [first; second; third])%list)).
Proof.
  intros Hv Ho blob first second third.
  pose proof (mint_run H dest image traits config tr tr0 tr1 to img t c Hv Ho) as Hm.
  fold blob in Hm. unfold bind in Hm. rewrite submitMint_run in Hm.
  repeat split.
  - intros tx E1. now rewrite E1 in Hm.
  - intros e1 tx E1 E2. now rewrite E1, E2 in Hm.
  - intros e1 e2 tx E1 E2 E3. now rewrite E1, E2, E3 in Hm.
  - intros e1 e2 e3 E1 E2 E3. now rewrite E1, E2, E3 in Hm.
Qed.

Lemma mint_entry_points_witness :
  mint rejectingHost (Some (JStr alice)) (Some (JStr "https://example.com/sword.png"))
    (Some swordTraits) demoConfig [] =
  (Throw "Minting failed. Tried mint, safeMint, and mintWithMetadata. Original error: revert A",
   [EvFetchHead "https://example.com/sword.png";
    EvLedger (CallMint alice (encodeMetadata "https://example.com/sword.png" swordTraits));
    EvLedger (CallSafeMint alice (encodeMetadata "https://example.com/sword.png" swordTraits));
    EvLedger (CallMintWithMetadata alice
                (encodeMetadata "https://example.com/sword.png" swordTraits))]).
Proof.
  destruct (mint_entry_points rejectingHost (Some (JStr alice))
              (Some (JStr "https://example.com/sword.png")) (Some swordTraits) demoConfig
              [] _ _ _ _ _ _ eq_refl eq_refl) as (_ & _ & _ & Hall).
  exact (Hall "revert A" "revert B" "revert C" eq_refl eq_refl eq_refl).
Defined.

(** C1 as stated fails: with the three entry points raising [revert A],
    [revert B] and [revert C] in turn, the error of [mint] names the
    first of them and does not mention the last. *)
Lemma last_error_is_not_carried :
  exists message tr',
    mint rejectingHost (Some (JStr alice)) (Some (JStr "https://example.com/sword.png"))
      (Some swordTraits) demoConfig [] = (Throw message, tr') /\
    contract_mintWithMetadata rejecting alice
      (encodeMetadata "https://example.com/sword.png" swordTraits) = Throw "revert C" /\
    includes message "revert A" = true /\
    includes message "revert C" = false.
Proof. eexists. eexists. repeat split. Qed.



(** C7.  What the code does when the receipt has logs but none of them
    parses as a Transfer event: the second [parseLog] is handed
    [undefined] and raises, so [mint] fails with that error right after
    the confirmation -- the total supply is never read and no result
    with a fallback or null identifier is returned. *)
Theorem mint_without_transfer_event
  (H : Host) (dest image traits : option json) (config : Config)
  (tr tr0 tr1 tr2 : Trace) (to img : string) (t : json) (c : Contract)
  (tx : Tx) (receipt : Receipt) (ls : list Log) :
  validateMint H dest image traits tr = (Return (to, img, t), tr0) ->
  openMintContract H config tr0 = (Return c, tr1) ->
  submitMint c to (encodeMetadata img t) tr1 = (Return tx, tr2) ->
  wait tx = Return receipt ->
  logs receipt = Some ls ->
  (forall l, In l ls -> isTransferLog l = false) ->
  mint H dest image traits config tr =
  (Throw "Cannot read properties of undefined (reading 'topics')",
   (tr2 ++ [EvLedger (CallWait (hash tx))])%list).
Proof.
  intros Hv Ho Hs Hw Hl Hnone.
  rewrite (mint_run H dest image traits config tr tr0 tr1 to img t c Hv Ho).
  unfold bind at 1. rewrite Hs.
  unfold confirmMint, bind at 1, ledger, perform. rewrite Hw.
  unfold bind at 1, tokenIdFromReceipt. rewrite Hl.
  unfold bind, lift. rewrite (find_nothing isTransferLog ls Hnone). reflexivity.
Qed.

(** A confirmed mint whose only log is unknown to the ABI, on a contract
    whose total supply reads 5: the call raises instead of returning
    identifier 4. *)
Lemma mint_without_transfer_event_witness :
  mint silentHost (Some (JStr alice)) (Some (JStr "https://example.com/sword.png"))
    (Some swordTraits) demoConfig [] =
  (Throw "Cannot read properties of undefined (reading 'topics')",
   [EvFetchHead "https://example.com/sword.png";
    EvLedger (CallMint alice (encodeMetadata "https://example.com/sword.png" swordTraits));
    EvLedger (CallWait "0xfeed")]) /\
  totalSupply silentMint = Return 5%N.
Proof.
  split; [|reflexivity].
  refine (mint_without_transfer_event silentHost (Some (JStr alice))
           (Some (JStr "https://example.com/sword.png")) (Some swordTraits) demoConfig
           [] _ _ _ _ _ _ _ _ _ [LogUnknown] eq_refl eq_refl eq_refl eq_refl eq_refl _).
  intros l [<- | []]. reflexivity.
Defined.

(** C8 (amended).  A destination that is not a well-formed address, an
    image reference that is missing, empty or not a string, or traits
    that are not an object or an array make [mint] fail during
    validation -- with one of its three validation messages or with what
    the HEAD probe of the image raised -- and the ledger is not touched.
    The shape of a non-empty image reference is not checked: where
    [fetch] is absent, every non-empty string passes validation. *)
Theorem invalid_mint_input_fails_before_ledger
  (H : Host) (dest image traits : option json) (config : Config) (tr : Trace) :
  (valid_address H dest = None \/ missing_image image \/ invalid_traits traits ->
   exists message tr',
     mint H dest image traits config tr = (Throw message, tr') /\
     validation_error H image message /\
     ledger_calls tr' = ledger_calls tr) /\
  (forall to u t,
      fetch_available H = false ->
      valid_address H dest = Some to ->
      image = Some (JStr u) -> u <> "" ->
      traits = Some t -> is_object t = true ->
      validateMint H dest image traits tr = (Return (to, u, t), tr)).
Proof.
  split.
  - intros Hbad. unfold mint. rewrite try_rethrow. unfold bind at 1.
    assert (exists message tr',
               validateMint H dest image traits tr = (Throw message, tr') /\
               validation_error H image message /\ ledger_calls tr' = ledger_calls tr) as V.
    { unfold validateMint, validation_error, bind, ret, throw.
      destruct (valid_address H dest) as [a|]; [|eauto 8].
      destruct Hbad as [F | Hbad]; [discriminate F|].
      destruct image as [[| | |u| |]|]; try (eexists; eexists; split; [reflexivity|]; tauto).
      destruct (nonempty u) eqn:En; [|eauto 8].
      destruct (probeImage_cases H u tr) as (tr1 & L & [P | (m & P & Ef & Em)]); rewrite P.
      + destruct Hbad as [F | Hbad].
        * simpl in F. subst u. discriminate En.
        * destruct traits as [[| | | |l|o]|]; simpl in Hbad; try discriminate Hbad; eauto 8.
      + exists m, tr1. split; [reflexivity|]. split; [|exact L].
        right. right. right. exists u. auto.
    }
    destruct V as (m & tr' & E & Hm & L). rewrite E. eauto.
  - intros to u t Ef Hd Hi Hu Ht Hobj. subst image traits.
    unfold validateMint, bind, ret, throw. rewrite Hd.
    destruct (nonempty u) eqn:En.
    + rewrite (probeImage_without_fetch H u tr Ef).
      destruct t; simpl in Hobj; try discriminate Hobj; reflexivity.
    + unfold nonempty in En. apply negb_false_iff, String.eqb_eq in En. contradiction.
Qed.

(** Null traits are refused after the probe and before any ledger call;
    without [fetch], [not-a-url] passes validation. *)
Lemma invalid_mint_input_fails_before_ledger_witness :
  (exists message tr',
      mint fiveHost (Some (JStr alice)) (Some (JStr "https://example.com/sword.png"))
        (Some JNull) demoConfig [] = (Throw message, tr') /\
      ledger_calls tr' = []) /\
  validateMint legacyHost (Some (JStr alice)) (Some (JStr "not-a-url")) (Some swordTraits) []
  = (Return (alice, "not-a-url", swordTraits), []).
Proof.
  destruct (invalid_mint_input_fails_before_ledger fiveHost (Some (JStr alice))
              (Some (JStr "https://example.com/sword.png")) (Some JNull) demoConfig [])
    as [Hfail _].
  destruct (invalid_mint_input_fails_before_ledger legacyHost (Some (JStr alice))
              (Some (JStr "not-a-url")) (Some swordTraits) demoConfig [])
    as [_ Hpass].
  split.
  - destruct (Hfail (or_intror (or_intror eq_refl))) as (m & tr' & E & _ & L).
    exists m, tr'. split; [exact E | exact L].
  - apply Hpass; try reflexivity. discriminate.
Defined.

(** C8 as stated fails: on a runtime without [fetch], an image reference
    that is neither URL- nor data-URI-shaped is minted, write submission
    included. *)
Lemma shapeless_image_reference_is_minted :
  includes "not-a-url" "://" = false /\
  startsWith "not-a-url" "data:" = false /\
  exists r tr',
    mint legacyHost (Some (JStr alice)) (Some (JStr "not-a-url")) (Some swordTraits)
      demoConfig [] = (Return r, tr') /\
    mr_success r = true /\
    ledger_calls tr' =
    [CallMint alice (encodeMetadata "not-a-url" swordTraits); CallWait "0xfeed"].
Proof. repeat split. eexists. eexists. repeat split. Qed.

(** With [fetch] present the probe does not settle the shape either: a
    reference whose text contains [undefined] makes the URL parser's
    error pass for a missing [fetch], and the mint goes through. *)
Lemma probe_error_mentioning_undefined_is_swallowed :
  fetch_head fiveHost "undefined-ref" = Throw "Failed to parse URL from undefined-ref" /\
  exists r tr',
    mint fiveHost (Some (JStr alice)) (Some (JStr "undefined-ref")) (Some swordTraits)
      demoConfig [] = (Return r, tr') /\
    mr_success r = true.
Proof. split; [reflexivity|]. eexists. eexists. split; reflexivity. Qed.

(** * Further properties of the client *)

(** ** Discovery *)

Lemma indexLoop_all (c : Contract) (w : string) (ids : N -> N) (remaining : nat) :
  forall (i : N) (acc : list string) (tr : Trace),
    (forall j, (i <= j < i + N.of_nat remaining)%N -> tokenOfOwnerByIndex c w j = Return (ids j)) ->
    indexLoop c w remaining i acc tr =
    (Return (acc ++ map (fun j => string_of_N (ids j)) (N_range i remaining))%list,
     (tr ++ map (fun j => EvLedger (CallTokenOfOwnerByIndex w j)) (N_range i remaining))%list).
Proof.
  induction remaining as [|r IH]; intros i acc tr Hall.
  - simpl. unfold ret. now rewrite !List.app_nil_r.
  - cbn [indexLoop N_range map]. run_effects.
    rewrite (Hall i) by lia.
    rewrite IH by (intros j Hj; apply Hall; lia).
    now rewrite <- !List.app_assoc.
Qed.

Lemma readDeployment_trace (H : Host) (tr : Trace) :
  snd (readDeployment H tr) = (tr ++ [EvReadFile "deployment.json"])%list.
Proof.
  unfold readDeployment; run_effects.
  destruct (readFileSync H "deployment.json") as [text|]; [|reflexivity].
  destruct (JSON_parse text) as [info|]; [|reflexivity].
  destruct (get_prop info "contractAddress"); reflexivity.
Qed.

(** Resolving the contract address reads at most the deployment file. *)
Lemma loadContractAddress_trace (H : Host) (config : Config) (tr : Trace) :
  snd (loadContractAddress H config tr) =
  match cfg_contractAddress config with
  | Some a => if nonempty a then tr else (tr ++ [EvReadFile "deployment.json"])%list
  | None => (tr ++ [EvReadFile "deployment.json"])%list
  end.
Proof.
  unfold loadContractAddress, bind.
  assert (forall v t, snd (match valid_address H v with
                           | Some a => ret a
                           | None => throw "Invalid contract address"
                           end t) = t) as V.
  { intros v t. destruct (valid_address H v); reflexivity. }
  pose proof (readDeployment_trace H tr) as R.
  destruct (cfg_contractAddress config) as [a|]; [destruct (nonempty a)|].
  - unfold ret at 1. apply V.
  - destruct (readDeployment H tr) as [[v|e] t]; simpl in R; subst t; [apply V | reflexivity].
  - destruct (readDeployment H tr) as [[v|e] t]; simpl in R; subst t; [apply V | reflexivity].
Qed.

Lemma loadContractAddress_ledger (H : Host) (config : Config) (tr tr1 : Trace)
  (o : Outcome string) :
  loadContractAddress H config tr = (o, tr1) -> ledger_calls tr1 = ledger_calls tr.
Proof.
  intros E. pose proof (loadContractAddress_trace H config tr) as T.
  rewrite E in T. simpl in T. subst tr1.
  destruct (cfg_contractAddress config) as [a|]; [destruct (nonempty a)|];
    try reflexivity; rewrite ledger_calls_app; simpl; now rewrite List.app_nil_r.
Qed.

(** X1.  A holder whose balance reads zero gets the empty list at once:
    the balance is the only ledger read, and neither the per-index list,
    the scan nor any metadata is consulted. *)
Theorem retrieve_zero_balance
  (H : Host) (wallet : option json) (w : string) (config : Config)
  (tr tr1 : Trace) (a : string) :
  valid_address H wallet = Some w ->
  loadContractAddress H config tr = (Return a, tr1) ->
  balanceOf (connect H (rpcUrl_of config) a None) w = Return 0%N ->
  retrieve H wallet config tr = (Return [], (tr1 ++ [EvLedger (CallBalanceOf w)])%list).
Proof.
  intros Hw Ha Hb. unfold retrieve. rewrite try_rethrow, Hw.
  unfold bind at 1, ret at 1. unfold bind at 1. rewrite Ha.
  unfold bind at 1, indexedTokens, try_catch, bind at 1, ledger, perform.
  rewrite Hb. reflexivity.
Qed.

Lemma retrieve_zero_balance_witness :
  retrieve fiveHost (Some (JStr carol)) demoConfig [] =
  (Return [], [EvLedger (CallBalanceOf carol)]).
Proof.
  exact (retrieve_zero_balance fiveHost (Some (JStr carol)) carol demoConfig [] []
           gameItemAddress eq_refl eq_refl eq_refl).
Defined.

(** X2.  When the balance is positive and every per-index read below it
    succeeds, the items come in the order the contract reports its
    tokens (no sorting), the scan is not used -- the total supply and the
    owners are never read -- and each token's metadata is read once, in
    that order. *)
Theorem retrieve_indexed_order
  (H : Host) (wallet : option json) (w : string) (config : Config)
  (tr tr1 : Trace) (a : string) (n : N) (ids : N -> N) :
  valid_address H wallet = Some w ->
  loadContractAddress H config tr = (Return a, tr1) ->
  balanceOf (connect H (rpcUrl_of config) a None) w = Return n ->
  (0 < n)%N ->
  (forall i, (i < n)%N ->
             tokenOfOwnerByIndex (connect H (rpcUrl_of config) a None) w i = Return (ids i)) ->
  let reported := map (fun i => string_of_N (ids i)) (N_range 0 (N.to_nat n)) in
  exists items,
    retrieve H wallet config tr =
    (Return items,
     (tr1 ++ EvLedger (CallBalanceOf w)
          :: map (fun i => EvLedger (CallTokenOfOwnerByIndex w i)) (N_range 0 (N.to_nat n))
          ++ map (fun id => EvLedger (CallTokenURI (StringToNumber H id))) reported)%list) /\
    map item_tokenId items = reported.
Proof.
  intros Hw Ha Hb Hn Hall reported.
  unfold retrieve. rewrite try_rethrow, Hw.
  unfold bind at 1, ret at 1. unfold bind at 1. rewrite Ha.
  unfold bind at 1, indexedTokens, try_catch, bind at 1, ledger, perform.
  rewrite Hb. destruct (N.eqb_spec n 0) as [->|_]; [lia|].
  unfold bind at 1.
  rewrite (indexLoop_all _ w ids (N.to_nat n) 0%N [] _) by (intros j Hj; apply Hall; lia).
  cbn [List.app]. fold reported. unfold ret at 1.
  assert ((List.length reported =? 0)%nat = false) as ->.
  { unfold reported. rewrite List.length_map.
    destruct (N.to_nat n) eqn:E; [lia | reflexivity]. }
  unfold bind at 1, ret at 1.
  match goal with |- context [fetchItems H ?c ?l ?t] =>
    destruct (fetchItems_returns H c l t) as (items & Ef & Et) end.
  rewrite Ef. exists items. split; [|exact Et].
  f_equal. rewrite <- !List.app_assoc. reflexivity.
Qed.

(** The contract lists token 4 before token 2, and so does the result. *)
Lemma retrieve_indexed_order_witness :
  exists items tr',
    retrieve enumerableHost (Some (JStr alice)) demoConfig [] = (Return items, tr') /\
    map item_tokenId items = ["4"; "2"].
Proof.
  destruct (retrieve_indexed_order enumerableHost (Some (JStr alice)) alice demoConfig
              [] [] gameItemAddress 2%N (fun i => 4 - 2 * i)%N
              eq_refl eq_refl eq_refl eq_refl (fun i _ => eq_refl))
    as (items & E & Hm).
  exists items. eexists. split; [exact E | exact Hm].
Defined.

(** X3.  A failing balance read is not an error of [retrieve]: its
    message is dropped and the scan strategy answers instead, right
    after that one read. *)
Theorem retrieve_balance_failure_scans
  (H : Host) (wallet : option json) (w : string) (config : Config)
  (tr tr1 : Trace) (a e : string) (supply : N) :
  valid_address H wallet = Some w ->
  loadContractAddress H config tr = (Return a, tr1) ->
  balanceOf (connect H (rpcUrl_of config) a None) w = Throw e ->
  totalSupply (connect H (rpcUrl_of config) a None) = Return supply ->
  let c := connect H (rpcUrl_of config) a None in
  let ids := map string_of_N (filter (owned_by c w) (N_range 1 (N.to_nat supply))) in
  exists items,
    retrieve H wallet config tr =
    (Return items,
     (tr1 ++ EvLedger (CallBalanceOf w) :: EvLedger CallTotalSupply
          :: map (fun id => EvLedger (CallOwnerOf (num_of_N id))) (N_range 1 (N.to_nat supply))
          ++ map (fun id => EvLedger (CallTokenURI (StringToNumber H id))) ids)%list) /\
    map item_tokenId items = ids.
Proof.
  intros Hw Ha Hb Hs c ids.
  assert (indexedTokens c w tr1 = (Return (Some []), (tr1 ++ [EvLedger (CallBalanceOf w)])%list))
    as Hi.
  { unfold indexedTokens; run_effects. fold c in Hb. now rewrite Hb. }
  rewrite (retrieve_by_scan H wallet w config tr tr1 _ a Hw Ha Hi).
  fold c. unfold bind. rewrite (scanTokens_spec c w _ supply Hs). fold ids.
  match goal with |- context [fetchItems H c ?l ?t] =>
    destruct (fetchItems_returns H c l t) as (items & Ef & Et) end.
  rewrite Ef. exists items. split; [|exact Et].
  f_equal. rewrite <- !List.app_assoc. reflexivity.
Qed.

Lemma retrieve_balance_failure_scans_witness :
  exists items tr',
    retrieve noBalanceHost (Some (JStr alice)) demoConfig [] = (Return items, tr') /\
    map item_tokenId items = ["2"; "4"].
Proof.
  destruct (retrieve_balance_failure_scans noBalanceHost (Some (JStr alice)) alice demoConfig
              [] [] gameItemAddress "execution reverted" 5%N
              eq_refl eq_refl eq_refl eq_refl) as (items & E & Hm).
  exists items. eexists. split; [exact E | exact Hm].
Defined.

(** X4.  The metadata of a batch is fetched token by token and a failure
    stays with its token: the batch always returns, with one item per
    identifier in the same order; each item is the one the token yields
    when fetched alone; and a token whose metadata read raises is
    present as an item without metadata that carries the message of that
    error. *)
Theorem batch_failures_stay_local
  (H : Host) (c : Contract) (ids : list string) (tr : Trace) :
  exists items tr',
    fetchItems H c ids tr = (Return items, tr') /\
    items = map (fun id => match fst (fetchItem H c id []) with
                           | Return item => item
                           | Throw e => ItemFailed id e
                           end) ids /\
    List.length items = List.length ids /\
    (forall id e,
        In id ids -> tokenURI c (StringToNumber H id) = Throw e ->
        In (ItemFailed id e) items).
Proof.
  assert (forall l t, fetchItems H c l t =
            (Return (map (fun id => match fst (fetchItem H c id []) with
                                    | Return item => item
                                    | Throw e => ItemFailed id e
                                    end) l),
             (t ++ map (fun id => EvLedger (CallTokenURI (StringToNumber H id))) l)%list)) as G.
  { induction l as [|id l IH]; intros t.
    - simpl. unfold ret. now rewrite List.app_nil_r.
    - cbn [fetchItems map]. unfold bind at 1.
      assert (forall t0, fetchItem H c id t0 =
                (fst (fetchItem H c id []),
                 (t0 ++ [EvLedger (CallTokenURI (StringToNumber H id))])%list)) as Ft.
      { intros t0. unfold fetchItem; run_effects.
        destruct (tokenURI c (StringToNumber H id)) as [uri|]; [|reflexivity].
        destruct (decodeMetadata H uri) as [md|]; [|reflexivity].
        destruct (get_prop md "traits"); reflexivity. }
      rewrite (Ft t).
      destruct (fetchItem_returns H c id []) as (item & E & _). rewrite E. cbn [fst].
      unfold bind at 1. rewrite IH. unfold ret. now rewrite <- List.app_assoc. }
  eexists. eexists. split; [apply G|]. split; [reflexivity|]. split.
  - apply List.length_map.
  - intros id e Hin Hu. apply in_map_iff. exists id. split; [|exact Hin].
    unfold fetchItem; run_effects. now rewrite Hu.
Qed.

(** Token 9 does not exist: its item carries the ledger's error, next to
    the items of 1, 5 and 3. *)
Lemma batch_failures_stay_local_witness :
  exists items tr',
    fetchItems fiveHost (gameItem fiveTokens) ["1"; "5"; "9"; "3"] [] = (Return items, tr') /\
    List.length items = 4%nat /\
    In (ItemFailed "9" "execution reverted: ERC721NonexistentToken") items.
Proof.
  destruct (batch_failures_stay_local fiveHost (gameItem fiveTokens) ["1"; "5"; "9"; "3"] [])
    as (items & tr' & E & _ & L & F).
  exists items, tr'. split; [exact E|]. split; [exact L|].
  apply F; [simpl; tauto | reflexivity].
Defined.

(** X5.  [retrieve] touches the ledger only after its own checks: with a
    wallet address that is not well-formed it raises at once, before any
    file or ledger access, and when the contract address cannot be
    resolved it raises the configuration error with no ledger call
    made. *)
Theorem retrieve_fails_before_ledger
  (H : Host) (wallet : option json) (config : Config) (tr : Trace) :
  (valid_address H wallet = None ->
   retrieve H wallet config tr = (Throw "Invalid wallet address", tr)) /\
  (forall w message tr1,
      valid_address H wallet = Some w ->
      loadContractAddress H config tr = (Throw message, tr1) ->
      retrieve H wallet config tr = (Throw message, tr1) /\
      ledger_calls tr1 = ledger_calls tr /\
      (message = "Contract address not provided and deployment.json not found" \/
       message = "Invalid contract address")).
Proof.
  split.
  - intros Hw. unfold retrieve. rewrite try_rethrow, Hw. reflexivity.
  - intros w m tr1 Hw Hc. split; [|split].
    + unfold retrieve. rewrite try_rethrow, Hw.
      unfold bind at 1, ret at 1. unfold bind at 1. now rewrite Hc.
    + exact (loadContractAddress_ledger H config tr tr1 _ Hc).
    + exact (loadContractAddress_errors H config tr tr1 m Hc).
Qed.

Lemma retrieve_fails_before_ledger_witness :
  retrieve fiveHost (Some (JStr "0x123")) demoConfig [] = (Throw "Invalid wallet address", []) /\
  retrieve fiveHost (Some (JStr alice)) no_config [] =
  (Throw "Contract address not provided and deployment.json not found",
   [EvReadFile "deployment.json"]).
Proof.
  destruct (retrieve_fails_before_ledger fiveHost (Some (JStr "0x123")) demoConfig [])
    as [Hbad _].
  destruct (retrieve_fails_before_ledger fiveHost (Some (JStr alice)) no_config [])
    as [_ Hcfg].
  split; [exact (Hbad eq_refl)|].
  exact (proj1 (Hcfg alice _ _ eq_refl eq_refl)).
Defined.

(** ** Configuration *)

(** X6.  Precedence of the contract address: a non-empty override is
    used as it is -- accepted exactly when it is a well-formed address,
    and the deployment file is not read even when it is refused; without
    an override (or with an empty one) the file is read once and the
    address is its [contractAddress], again subject to the
    well-formedness check. *)
Theorem contract_address_precedence (H : Host) (config : Config) (tr : Trace) :
  (forall a,
      cfg_contractAddress config = Some a -> a <> "" ->
      loadContractAddress H config tr =
      (if isAddress H a then Return a else Throw "Invalid contract address", tr)) /\
  (cfg_contractAddress config = None \/ cfg_contractAddress config = Some "" ->
   snd (loadContractAddress H config tr) = (tr ++ [EvReadFile "deployment.json"])%list /\
   (forall text info a,
       readFileSync H "deployment.json" = Return text ->
       parse_json text = Some info ->
       member info "contractAddress" = Some (JStr a) ->
       a <> "" -> isAddress H a = true ->
       fst (loadContractAddress H config tr) = Return a) /\
   (forall e,
       readFileSync H "deployment.json" = Throw e ->
       fst (loadContractAddress H config tr) =
       Throw "Contract address not provided and deployment.json not found")).
Proof.
  assert (forall a, a <> "" -> nonempty a = true) as NE.
  { intros a Ha. unfold nonempty. apply negb_true_iff.
    destruct (String.eqb_spec a ""); [contradiction | reflexivity]. }
  split.
  - intros a Hc Ha. unfold loadContractAddress, bind. rewrite Hc, (NE a Ha).
    unfold ret at 1, valid_address. rewrite (NE a Ha). simpl.
    destruct (isAddress H a); reflexivity.
  - intros Hc.
    assert (loadContractAddress H config tr =
            (contractAddress <- readDeployment H ;;
             match valid_address H contractAddress with
             | Some a => ret a
             | None => throw "Invalid contract address"
             end) tr) as U.
    { unfold loadContractAddress. destruct Hc as [-> | ->]; reflexivity. }
    split; [|split].
    + rewrite loadContractAddress_trace. destruct Hc as [-> | ->]; reflexivity.
    + intros text info a Hf Hp Hm Ha Hi. rewrite U.
      unfold readDeployment; run_effects. rewrite Hf. unfold JSON_parse. rewrite Hp.
      assert (get_prop info "contractAddress" = Return (Some (JStr a))) as ->.
      { destruct info; simpl in Hm; try discriminate Hm. simpl. now rewrite Hm. }
      unfold valid_address. rewrite (NE a Ha), Hi. reflexivity.
    + intros e Hf. rewrite U. unfold readDeployment; run_effects. now rewrite Hf.
Qed.

Lemma contract_address_precedence_witness :
  loadContractAddress deployedHost
    {| cfg_contractAddress := Some "0xnope"; cfg_privateKey := None; cfg_rpcUrl := None |} []
  = (Throw "Invalid contract address", []) /\
  fst (loadContractAddress deployedHost no_config []) = Return gameItemAddress.
Proof.
  destruct (contract_address_precedence deployedHost
              {| cfg_contractAddress := Some "0xnope"; cfg_privateKey := None;
                 cfg_rpcUrl := None |} []) as [Hover _].
  destruct (contract_address_precedence deployedHost no_config []) as [_ Hfile].
  split.
  - apply (Hover "0xnope" eq_refl). discriminate.
  - destruct (Hfile (or_introl eq_refl)) as (_ & Hread & _).
    eapply Hread; try reflexivity. discriminate.
Defined.

Lemma startsWith_append (p s : string) : startsWith (p ++ s) p = true.
Proof.
  induction p as [|c p IH]; simpl; [reflexivity|].
  now rewrite Ascii.eqb_refl, IH.
Qed.

(** X7.  The private key: a key read from the key file is trimmed and
    given the [0x] prefix when it lacks one, so it always passes the
    format check (an empty file yields the key [0x]); an override is
    taken verbatim, without reading the file, and is refused when it
    does not start with [0x]. *)
Theorem private_key_normalisation (H : Host) (config : Config) (tr : Trace) :
  (forall k,
      cfg_privateKey config = Some k -> k <> "" ->
      loadPrivateKey H config tr =
      (if startsWith k "0x" then Return k else Throw "Invalid private key format", tr)) /\
  (cfg_privateKey config = None \/ cfg_privateKey config = Some "" ->
   (forall text,
       readFileSync H "polygon_private_key.txt" = Return text ->
       loadPrivateKey H config tr =
       (Return (if startsWith (trim text) "0x" then trim text else "0x" ++ trim text),
        (tr ++ [EvReadFile "polygon_private_key.txt"])%list)) /\
   (forall e,
       readFileSync H "polygon_private_key.txt" = Throw e ->
       loadPrivateKey H config tr =
       (Throw "Private key not provided and polygon_private_key.txt not found",
        (tr ++ [EvReadFile "polygon_private_key.txt"])%list))).
Proof.
  split.
  - intros k Hc Hk. unfold loadPrivateKey, bind. rewrite Hc.
    assert (nonempty k = true) as NE.
    { unfold nonempty. apply negb_true_iff.
      destruct (String.eqb_spec k ""); [contradiction | reflexivity]. }
    rewrite NE. unfold ret at 1. rewrite NE. cbn [andb].
    destruct (startsWith k "0x"); reflexivity.
  - intros Hc.
    assert (loadPrivateKey H config tr =
            (privateKey <- readPrivateKey H ;;
             if nonempty privateKey && startsWith privateKey "0x" then ret privateKey
             else throw "Invalid private key format") tr) as U.
    { unfold loadPrivateKey. destruct Hc as [-> | ->]; reflexivity. }
    split.
    + intros text Hf. rewrite U. unfold readPrivateKey; run_effects. rewrite Hf.
      destruct (startsWith (trim text) "0x") eqn:Es.
      * rewrite Es. destruct (trim text); [discriminate Es | reflexivity].
      * rewrite (startsWith_append "0x" (trim text)). reflexivity.
    + intros e Hf. rewrite U. unfold readPrivateKey; run_effects. now rewrite Hf.
Qed.

(** The key file holds [ ab] and a line feed: the key is [0xab]. *)
Lemma private_key_normalisation_witness :
  loadPrivateKey deployedHost no_config [] =
    (Return "0xab", [EvReadFile "polygon_private_key.txt"]) /\
  loadPrivateKey deployedHost
    {| cfg_contractAddress := None; cfg_privateKey := Some "ab"; cfg_rpcUrl := None |} []
  = (Throw "Invalid private key format", []).
Proof.
  destruct (private_key_normalisation deployedHost no_config []) as [_ Hfile].
  destruct (private_key_normalisation deployedHost
              {| cfg_contractAddress := None; cfg_privateKey := Some "ab";
                 cfg_rpcUrl := None |} []) as [Hover _].
  split.
  - destruct (Hfile (or_introl eq_refl)) as [Hread _].
    exact (Hread _ eq_refl).
  - apply (Hover "ab" eq_refl). discriminate.
Defined.

(** ** Minting *)

Lemma validateMint_ledger (H : Host) (dest image traits : option json) (tr tr0 : Trace)
  (o : Outcome (string * string * json)) :
  validateMint H dest image traits tr = (o, tr0) -> ledger_calls tr0 = ledger_calls tr.
Proof.
  unfold validateMint, bind, ret, throw.
  destruct (valid_address H dest) as [a|]; [|intros E; now inversion E].
  destruct image as [[| | |u| |]|]; try (intros E; now inversion E).
  destruct (nonempty u); [|intros E; now inversion E].
  destruct (probeImage_cases H u tr) as (tr1 & L & [P | (m & P & _)]); rewrite P.
  - destruct traits as [[| | | |l|ms]|]; intros E; inversion E; subst; exact L.
  - intros E; inversion E; subst; exact L.
Qed.

Lemma loadPrivateKey_cases (H : Host) (config : Config) (tr tr1 : Trace) (o : Outcome string) :
  loadPrivateKey H config tr = (o, tr1) ->
  ledger_calls tr1 = ledger_calls tr /\
  (forall message, o = Throw message ->
     message = "Private key not provided and polygon_private_key.txt not found" \/
     message = "Invalid private key format").
Proof.
  assert (ledger_calls (tr ++ [EvReadFile "polygon_private_key.txt"]) = ledger_calls tr) as L.
  { rewrite ledger_calls_app. simpl. now rewrite List.app_nil_r. }
  assert (forall k t, exists o',
             (if nonempty k && startsWith k "0x" then ret k
              else throw "Invalid private key format") t = (o', t) /\
             (forall m, o' = Throw m -> m = "Invalid private key format")) as Fmt.
  { intros k t. destruct (nonempty k && startsWith k "0x"); eexists; (split; [reflexivity|]);
      intros m E; inversion E; reflexivity. }
  assert (forall t, exists o',
             readPrivateKey H t = (o', (t ++ [EvReadFile "polygon_private_key.txt"])%list) /\
             (forall m, o' = Throw m ->
                m = "Private key not provided and polygon_private_key.txt not found")) as Rd.
  { intros t. unfold readPrivateKey; run_effects.
    destruct (readFileSync H "polygon_private_key.txt"); eexists; (split; [reflexivity|]);
      intros m E; inversion E; reflexivity. }
  unfold loadPrivateKey, bind.
  destruct (cfg_privateKey config) as [k|]; [destruct (nonempty k) eqn:En|].
  - unfold ret at 1. destruct (Fmt k tr) as (o' & E & Hm). rewrite E.
    intros X; inversion X; subst. split; [reflexivity | auto].
  - destruct (Rd tr) as (o' & E & Hm). rewrite E. destruct o' as [key|m].
    + destruct (Fmt key (tr ++ [EvReadFile "polygon_private_key.txt"])%list) as (o2 & E2 & Hm2).
      rewrite E2. intros X; inversion X; subst. split; [exact L | auto].
    + intros X; inversion X; subst. split; [exact L | intros m' Em; inversion Em; subst; auto].
  - destruct (Rd tr) as (o' & E & Hm). rewrite E. destruct o' as [key|m].
    + destruct (Fmt key (tr ++ [EvReadFile "polygon_private_key.txt"])%list) as (o2 & E2 & Hm2).
      rewrite E2. intros X; inversion X; subst. split; [exact L | auto].
    + intros X; inversion X; subst. split; [exact L | intros m' Em; inversion Em; subst; auto].
Qed.

(** X8.  No write is attempted before the whole set-up has passed: when
    validation passes but the contract address, the private key or the
    wallet cannot be set up, [mint] raises that error -- one of the four
    configuration messages or the wallet constructor's own error -- and
    the ledger has not been called at all. *)
Theorem mint_setup_failure_before_ledger
  (H : Host) (dest image traits : option json) (config : Config)
  (tr tr0 tr1 : Trace) (checked : string * string * json) (message : string) :
  validateMint H dest image traits tr = (Return checked, tr0) ->
  openMintContract H config tr0 = (Throw message, tr1) ->
  mint H dest image traits config tr = (Throw message, tr1) /\
  ledger_calls tr1 = ledger_calls tr /\
  (message = "Contract address not provided and deployment.json not found" \/
   message = "Invalid contract address" \/
   message = "Private key not provided and polygon_private_key.txt not found" \/
   message = "Invalid private key format" \/
   exists key, newWallet H key = Throw message).
Proof.
  intros Hv Ho. split.
  - unfold mint. rewrite try_rethrow. unfold bind at 1. rewrite Hv.
    destruct checked as [[to img] t]. unfold bind at 1. now rewrite Ho.
  - rewrite <- (validateMint_ledger H dest image traits tr tr0 _ Hv).
    revert Ho. unfold openMintContract, bind at 1.
    destruct (loadContractAddress H config tr0) as [[a|m] t1] eqn:Ea.
    + pose proof (loadContractAddress_ledger H config tr0 t1 _ Ea) as La.
      unfold bind at 1.
      destruct (loadPrivateKey H config t1) as [[k|m] t2] eqn:Ek;
        destruct (loadPrivateKey_cases H config t1 t2 _ Ek) as [Lk Hm].
      * unfold bind, lift, ret. destruct (newWallet H k) as [[]|m] eqn:Ew; [discriminate|].
        intros X; inversion X; subst. split; [congruence|]. right. right. right. right. eauto.
      * intros X; inversion X; subst. split; [congruence|].
        destruct (Hm message eq_refl) as [-> | ->]; auto.
    + intros X; inversion X; subst.
      split; [exact (loadContractAddress_ledger H config tr0 tr1 _ Ea)|].
      destruct (loadContractAddress_errors H config tr0 tr1 message Ea) as [-> | ->]; auto.
Qed.

(** No key override and no key file: nothing is submitted. *)
Lemma mint_setup_failure_before_ledger_witness :
  mint fiveHost (Some (JStr alice)) (Some (JStr "https://example.com/sword.png"))
    (Some swordTraits)
    {| cfg_contractAddress := Some gameItemAddress; cfg_privateKey := None;
       cfg_rpcUrl := None |} []
  = (Throw "Private key not provided and polygon_private_key.txt not found",
     [EvFetchHead "https://example.com/sword.png"; EvReadFile "polygon_private_key.txt"]).
Proof.
  exact (proj1 (mint_setup_failure_before_ledger fiveHost (Some (JStr alice))
                  (Some (JStr "https://example.com/sword.png")) (Some swordTraits)
                  {| cfg_contractAddress := Some gameItemAddress; cfg_privateKey := None;
                     cfg_rpcUrl := None |} [] _ _ _ _ eq_refl eq_refl)).
Defined.

(** X9.  The entry-point fallback covers submission only.  When [mint]
    was accepted and the confirmation then raises (a revert, a dropped
    transaction), [mint] raises that very error: [safeMint] and
    [mintWithMetadata] are not tried and the total supply is not read. *)
Theorem mint_confirmation_failure_is_final
  (H : Host) (dest image traits : option json) (config : Config)
  (tr tr0 tr1 : Trace) (to img : string) (t : json) (c : Contract) (tx : Tx) (e : string) :
  validateMint H dest image traits tr = (Return (to, img, t), tr0) ->
  openMintContract H config tr0 = (Return c, tr1) ->
  contract_mint c to (encodeMetadata img t) = Return tx ->
  wait tx = Throw e ->
  mint H dest image traits config tr =
  (Throw e,
   (tr1 ++ [EvLedger (CallMint to (encodeMetadata img t)); EvLedger (CallWait (hash tx))])%list).
Proof.
  intros Hv Ho Hm Hw.
  rewrite (mint_run H dest image traits config tr tr0 tr1 to img t c Hv Ho).
  unfold bind at 1. rewrite submitMint_run, Hm, confirmMint_run, Hw.
  cbv zeta. now rewrite <- List.app_assoc.
Qed.

Lemma mint_confirmation_failure_is_final_witness :
  mint revertingHost (Some (JStr alice)) (Some (JStr "https://example.com/sword.png"))
    (Some swordTraits) demoConfig [] =
  (Throw "transaction execution reverted",
   [EvFetchHead "https://example.com/sword.png";
    EvLedger (CallMint alice (encodeMetadata "https://example.com/sword.png" swordTraits));
    EvLedger (CallWait "0xdead")]).
Proof.
  exact (mint_confirmation_failure_is_final revertingHost (Some (JStr alice))
           (Some (JStr "https://example.com/sword.png")) (Some swordTraits) demoConfig
           [] _ _ _ _ _ _ _ _ eq_refl eq_refl eq_refl eq_refl).
Defined.

Lemma find_first {A : Type} (f : A -> bool) (pre post : list A) (x : A) :
  (forall y, In y pre -> f y = false) -> f x = true ->
  find f (pre ++ x :: post) = Some x.
Proof.
  induction pre as [|y pre IH]; intros Hpre Hx; simpl.
  - now rewrite Hx.
  - rewrite (Hpre y (or_introl eq_refl)). apply IH; [|exact Hx].
    intros z Hz. apply Hpre. now right.
Qed.

(** X10.  When the first log of the receipt that parses as a Transfer
    event carries a non-zero identifier, a confirmed mint returns
    success with that identifier in decimal, the hash of the accepted
    transaction, the block number of the receipt and the caller's
    destination, image reference and traits; the total supply is not
    read. *)
Theorem mint_identifier_from_transfer_event
  (H : Host) (dest image traits : option json) (config : Config)
  (tr tr0 tr1 tr2 : Trace) (to img : string) (t : json) (c : Contract) (tx : Tx)
  (receipt : Receipt) (before after : list Log) (d : LogDescription) (id : Z) :
  validateMint H dest image traits tr = (Return (to, img, t), tr0) ->
  openMintContract H config tr0 = (Return c, tr1) ->
  submitMint c to (encodeMetadata img t) tr1 = (Return tx, tr2) ->
  wait tx = Return receipt ->
  logs receipt = Some (before ++ LogEvent d :: after)%list ->
  (forall l, In l before -> isTransferLog l = false) ->
  ld_name d = "Transfer" ->
  ld_tokenId d = Some id -> id <> 0%Z ->
  mint H dest image traits config tr =
  (Return {| mr_success := true;
             mr_transactionHash := hash tx;
             mr_blockNumber := blockNumber receipt;
             mr_tokenId := Some (string_of_Z id);
             mr_destinationAddress := to;
             mr_imageUrl := img;
             mr_traits := t |},
   (tr2 ++ [EvLedger (CallWait (hash tx))])%list).
Proof.
  intros Hv Ho Hs Hw Hl Hpre Hname Hid Hnz.
  rewrite (mint_run H dest image traits config tr tr0 tr1 to img t c Hv Ho).
  unfold bind at 1. rewrite Hs, confirmMint_run, Hw, Hl. cbv zeta.
  rewrite (find_first isTransferLog before after (LogEvent d) Hpre)
    by (unfold isTransferLog; simpl; rewrite Hname; reflexivity).
  simpl. rewrite Hid. destruct (Z.eqb_spec id 0); [contradiction | reflexivity].
Qed.

(** Minting on the five-token contract: the event says 6. *)
Lemma mint_identifier_from_transfer_event_witness :
  exists r tr',
    mint fiveHost (Some (JStr alice)) (Some (JStr "https://example.com/sword.png"))
      (Some swordTraits) demoConfig [] = (Return r, tr') /\
    mr_tokenId r = Some "6".
Proof.
  eexists. eexists. split.
  - refine (mint_identifier_from_transfer_event fiveHost (Some (JStr alice))
              (Some (JStr "https://example.com/sword.png")) (Some swordTraits) demoConfig
              [] _ _ _ _ _ _ _ _ _ [LogUnknown] [] _ 6%Z
              eq_refl eq_refl eq_refl eq_refl eq_refl _ eq_refl eq_refl _).
    + intros l [<- | []]. reflexivity.
    + discriminate.
  - reflexivity.
Defined.

(** X11.  When the receipt has no [logs] at all, or its first Transfer
    event carries identifier 0 (or none), the total supply is read once
    and the mint still returns success: with [supply - 1] in decimal (so
    [-1] on an empty contract) when the read succeeds, with a null
    identifier when it raises.  In particular identifier 0 is not taken
    from the event. *)
Theorem mint_fallback_identifier
  (H : Host) (dest image traits : option json) (config : Config)
  (tr tr0 tr1 tr2 : Trace) (to img : string) (t : json) (c : Contract) (tx : Tx)
  (receipt : Receipt) :
  validateMint H dest image traits tr = (Return (to, img, t), tr0) ->
  openMintContract H config tr0 = (Return c, tr1) ->
  submitMint c to (encodeMetadata img t) tr1 = (Return tx, tr2) ->
  wait tx = Return receipt ->
  (logs receipt = None \/
   exists before d after,
     logs receipt = Some (before ++ LogEvent d :: after)%list /\
     (forall l, In l before -> isTransferLog l = false) /\
     ld_name d = "Transfer" /\
     (ld_tokenId d = Some 0%Z \/ ld_tokenId d = None)) ->
  mint H dest image traits config tr =
  (Return {| mr_success := true;
             mr_transactionHash := hash tx;
             mr_blockNumber := blockNumber receipt;
             mr_tokenId := match totalSupply c with
                           | Return supply => Some (string_of_Z (Z.of_N supply - 1))
                           | Throw _ => None
                           end;
             mr_destinationAddress := to;
             mr_imageUrl := img;
             mr_traits := t |},
   (tr2 ++ [EvLedger (CallWait (hash tx)); EvLedger CallTotalSupply])%list).
Proof.
  intros Hv Ho Hs Hw Hcase.
  rewrite (mint_run H dest image traits config tr tr0 tr1 to img t c Hv Ho).
  unfold bind at 1. rewrite Hs, confirmMint_run, Hw. cbv zeta.
  assert (match totalSupply c with
          | Return supply =>
              (Return {| mr_success := true; mr_transactionHash := hash tx;
                         mr_blockNumber := blockNumber receipt;
                         mr_tokenId := Some (string_of_Z (Z.of_N supply - 1));
                         mr_destinationAddress := to; mr_imageUrl := img; mr_traits := t |},
               ((tr2 ++ [EvLedger (CallWait (hash tx))]) ++ [EvLedger CallTotalSupply])%list)
          | Throw _ =>
              (Return {| mr_success := true; mr_transactionHash := hash tx;
                         mr_blockNumber := blockNumber receipt; mr_tokenId := None;
                         mr_destinationAddress := to; mr_imageUrl := img; mr_traits := t |},
               ((tr2 ++ [EvLedger (CallWait (hash tx))]) ++ [EvLedger CallTotalSupply])%list)
          end =
          (Return {| mr_success := true; mr_transactionHash := hash tx;
                     mr_blockNumber := blockNumber receipt;
                     mr_tokenId := match totalSupply c with
                                   | Return supply => Some (string_of_Z (Z.of_N supply - 1))
                                   | Throw _ => None
                                   end;
                     mr_destinationAddress := to; mr_imageUrl := img; mr_traits := t |},
           (tr2 ++ [EvLedger (CallWait (hash tx)); EvLedger CallTotalSupply])%list)) as F.
  { rewrite <- List.app_assoc. destruct (totalSupply c); reflexivity. }
  destruct Hcase as [Hl | (before & d & after & Hl & Hpre & Hname & Hid)]; rewrite Hl.
  - exact F.
  - rewrite (find_first isTransferLog before after (LogEvent d) Hpre)
      by (unfold isTransferLog; simpl; rewrite Hname; reflexivity).
    simpl. destruct Hid as [-> | ->]; exact F.
Qed.

(** The event says 0 on a contract whose supply reads 1: the result says
    [0] all the same, but from [1 - 1]. *)
Lemma mint_fallback_identifier_witness :
  exists r tr',
    mint zeroIdHost (Some (JStr alice)) (Some (JStr "https://example.com/sword.png"))
      (Some swordTraits) demoConfig [] = (Return r, tr') /\
    mr_tokenId r = Some "0" /\
    ledger_calls tr' =
    [CallMint alice (encodeMetadata "https://example.com/sword.png" swordTraits);
     CallWait "0xfeed"; CallTotalSupply].
Proof.
  eexists. eexists. split; [|split].
  - refine (mint_fallback_identifier zeroIdHost (Some (JStr alice))
              (Some (JStr "https://example.com/sword.png")) (Some swordTraits) demoConfig
              [] _ _ _ _ _ _ _ _ _ eq_refl eq_refl eq_refl eq_refl _).
    right. exists [], {| ld_name := "Transfer"; ld_tokenId := Some 0%Z |}, [].
    split; [reflexivity|]. split; [intros l []|]. split; [reflexivity | left; reflexivity].
  - reflexivity.
  - reflexivity.
Defined.

(** ** Point queries *)

(** X12.  In [getItem] only the owner read is fatal.  Once the owner is
    known, a metadata read that raises, a blob that does not decode, or
    a blob that decodes to [null] still gives a result: the owner and
    the contract address are reported, [metadata] is null, and the
    traits, name, description and image keep their initial values -- an
    empty object and three empty strings. *)
Theorem getItem_metadata_failure_is_not_fatal
  (H : Host) (tokenId : TokenIdArg) (config : Config) (tr tr1 : Trace) (a o : string) :
  ~ tokenId_refused H tokenId ->
  loadContractAddress H config tr = (Return a, tr1) ->
  ownerOf (connect H (rpcUrl_of config) a None) (Number H tokenId) = Return o ->
  ((exists e, tokenURI (connect H (rpcUrl_of config) a None) (Number H tokenId) = Throw e) \/
   (exists uri, tokenURI (connect H (rpcUrl_of config) a None) (Number H tokenId) = Return uri /\
                ((exists e, decodeMetadata H uri = Throw e) \/
                 decodeMetadata H uri = Return JNull))) ->
  getItem H tokenId config tr =
  (Return {| tv_tokenId := NumberToString H (Number H tokenId);
             tv_owner := o;
             tv_metadata := None;
             tv_traits := JObj [];
             tv_name := JStr "";
             tv_description := JStr "";
             tv_image := JStr "";
             tv_contractAddress := a |},
   (tr1 ++ [EvLedger (CallOwnerOf (Number H tokenId));
            EvLedger (CallTokenURI (Number H tokenId))])%list).
Proof.
  intros Hn Hc Ho Hfail.
  destruct (validateTokenId_cases H tokenId) as [(Hr & _) | (_ & E)]; [contradiction|].
  unfold getItem. rewrite try_rethrow. unfold bind at 1. rewrite E.
  unfold bind at 1. rewrite Hc.
  unfold bind at 1. rewrite readOwner_run, Ho.
  unfold bind at 1, readMetadata; run_effects. rewrite <- List.app_assoc.
  destruct Hfail as [(e & Hu) | (uri & Hu & [(e & Hd) | Hd])]; rewrite Hu;
    try rewrite Hd; reflexivity.
Qed.

(** Token 5 holds broken JSON. *)
Lemma getItem_metadata_failure_is_not_fatal_witness :
  exists item tr',
    getItem fiveHost (TidString "5") demoConfig [] = (Return item, tr') /\
    tv_owner item = bob /\ tv_metadata item = None /\ tv_name item = JStr "".
Proof.
  eexists. eexists. split.
  - refine (getItem_metadata_failure_is_not_fatal fiveHost (TidString "5") demoConfig
              [] [] gameItemAddress bob _ eq_refl eq_refl _).
    + intros [F | [F | [F | F]]]; discriminate F.
    + right. exists "{broken". split; [reflexivity|]. left. eexists. reflexivity.
  - repeat split.
Defined.

Lemma toLowerCase_idempotent (s : string) : toLowerCase (toLowerCase s) = toLowerCase s.
Proof.
  induction s as [|c s IH]; simpl; [reflexivity|]. rewrite IH. f_equal.
  destruct c as [[|] [|] [|] [|] [|] [|] [|] [|]]; reflexivity.
Qed.

(** X13.  [verifyOwner] does not depend on how the queried address is
    spelled: two well-formed spellings that differ only in the case of
    their letters get the same verdict, the same reported owner and the
    same ledger reads; and the lower-cased spelling of the owner itself,
    when the library accepts it, is verified as the owner. *)
Theorem verifyOwner_ignores_case
  (H : Host) (wallet1 wallet2 : option json) (w1 w2 : string) (tokenId : TokenIdArg)
  (config : Config) (tr tr' : Trace) (r1 : Verification) :
  valid_address H wallet1 = Some w1 ->
  valid_address H wallet2 = Some w2 ->
  toLowerCase w1 = toLowerCase w2 ->
  verifyOwner H wallet1 tokenId config tr = (Return r1, tr') ->
  (exists r2,
      verifyOwner H wallet2 tokenId config tr = (Return r2, tr') /\
      isOwner r2 = isOwner r1 /\ actualOwner r2 = actualOwner r1) /\
  (w2 = toLowerCase (actualOwner r1) -> isOwner r1 = true).
Proof.
  intros Hw1 Hw2 Hl Hv.
  destruct (validateTokenId_cases H tokenId) as [(Hr & _) | (Hn & _)].
  { destruct (verifyOwner_refused H wallet1 w1 tokenId config tr Hw1 Hr) as (m & _ & E).
    congruence. }
  destruct (loadContractAddress H config tr) as [[a|m] tr1] eqn:Hc.
  2:{ rewrite (verifyOwner_config_fails H wallet1 w1 tokenId config tr tr1 m Hw1 Hn Hc) in Hv.
      discriminate. }
  rewrite (verifyOwner_run H wallet1 w1 tokenId config tr tr1 a Hw1 Hn Hc) in Hv.
  rewrite (verifyOwner_run H wallet2 w2 tokenId config tr tr1 a Hw2 Hn Hc).
  destruct (ownerOf (connect H (rpcUrl_of config) a None) (Number H tokenId)) as [o|e];
    [|discriminate].
  inversion Hv; subst r1 tr'. clear Hv. cbn [isOwner actualOwner]. split.
  - eexists. split; [reflexivity|]. cbn [isOwner actualOwner]. rewrite Hl. split; reflexivity.
  - intros ->. rewrite Hl, toLowerCase_idempotent. apply String.eqb_refl.
Qed.

(** Token 2 is held by the checksummed spelling; both spellings of the
    holder are verified. *)
Lemma verifyOwner_ignores_case_witness :
  exists r2 tr',
    verifyOwner fiveHost (Some (JStr alice_checksummed)) (TidString "2") demoConfig []
    = (Return r2, tr') /\
    isOwner r2 = true.
Proof.
  destruct (verifyOwner_ignores_case fiveHost (Some (JStr alice)) (Some (JStr alice_checksummed))
              alice alice_checksummed (TidString "2") demoConfig [] _ _
              eq_refl eq_refl eq_refl eq_refl) as ((r2 & E & Hi & _) & _).
  exists r2. eexists. split; [exact E | exact Hi].
Defined.

(** X14.  The point queries are bounded reads.  Whatever the input and
    the host, [getItem] makes no ledger call, or the owner read alone, or
    the owner read followed by the metadata read of the same converted
    identifier; [verifyOwner] makes at most the owner read.  The
    metadata of a token is never read before, or without, a successful
    owner read. *)
Theorem point_queries_are_bounded_reads
  (H : Host) (wallet : option json) (tokenId : TokenIdArg) (config : Config) (tr : Trace) :
  (ledger_calls (snd (getItem H tokenId config tr)) = ledger_calls tr \/
   (ledger_calls (snd (getItem H tokenId config tr)) =
      (ledger_calls tr ++ [CallOwnerOf (Number H tokenId)])%list /\
    exists message, fst (getItem H tokenId config tr) = Throw message) \/
   (ledger_calls (snd (getItem H tokenId config tr)) =
      (ledger_calls tr ++ [CallOwnerOf (Number H tokenId); CallTokenURI (Number H tokenId)])%list /\
    exists item, fst (getItem H tokenId config tr) = Return item)) /\
  (ledger_calls (snd (verifyOwner H wallet tokenId config tr)) = ledger_calls tr \/
   ledger_calls (snd (verifyOwner H wallet tokenId config tr)) =
     (ledger_calls tr ++ [CallOwnerOf (Number H tokenId)])%list).
Proof.
  split.
  - destruct (validateTokenId_cases H tokenId) as [(Hr & _) | (Hn & _)].
    { destruct (getItem_refused H tokenId config tr Hr) as (m & _ & E). rewrite E. now left. }
    destruct (loadContractAddress H config tr) as [[a|m] tr1] eqn:Hc.
    + pose proof (loadContractAddress_ledger H config tr tr1 _ Hc) as L.
      destruct (ownerOf (connect H (rpcUrl_of config) a None) (Number H tokenId))
        as [o|e] eqn:Ho.
      * destruct (getItem_owner_found H tokenId config tr tr1 a o Hn Hc Ho) as (item & E & _).
        rewrite E. right. right. cbn [fst snd]. split; [|eauto].
        rewrite !ledger_calls_app, L. reflexivity.
      * rewrite (getItem_owner_fails H tokenId config tr tr1 a e Hn Hc Ho).
        right. left. cbn [fst snd]. split; [|eauto].
        rewrite ledger_calls_app, L. reflexivity.
    + rewrite (getItem_config_fails H tokenId config tr tr1 m Hn Hc). left.
      exact (loadContractAddress_ledger H config tr tr1 _ Hc).
  - destruct (valid_address H wallet) as [w|] eqn:Hw.
    + destruct (validateTokenId_cases H tokenId) as [(Hr & _) | (Hn & _)].
      { destruct (verifyOwner_refused H wallet w tokenId config tr Hw Hr) as (m & _ & E).
        rewrite E. now left. }
      destruct (loadContractAddress H config tr) as [[a|m] tr1] eqn:Hc.
      * rewrite (verifyOwner_run H wallet w tokenId config tr tr1 a Hw Hn Hc). right.
        cbn [snd]. rewrite ledger_calls_app,
          (loadContractAddress_ledger H config tr tr1 _ Hc). reflexivity.
      * rewrite (verifyOwner_config_fails H wallet w tokenId config tr tr1 m Hw Hn Hc). left.
        exact (loadContractAddress_ledger H config tr tr1 _ Hc).
    + left. unfold verifyOwner. rewrite try_rethrow, Hw. reflexivity.
Qed.

(** * The audit log (logger.js) *)

Lemma replaceAll_removes (c r : ascii) (s : string) :
  c <> r -> includes (replaceAll c r s) (String c "") = false.
Proof.
  intros Hcr. induction s as [|x tl IH]; [reflexivity|].
  cbn. destruct (Ascii.eqb x c) eqn:E.
  - destruct (Ascii.eqb r c) eqn:E2; [apply Ascii.eqb_eq in E2; congruence|].
    cbn. exact IH.
  - rewrite E. cbn. exact IH.
Qed.

Lemma replaceAll_keeps (c r k : ascii) (s : string) :
  k <> r -> includes s (String k "") = false ->
  includes (replaceAll c r s) (String k "") = false.
Proof.
  intros Hkr. induction s as [|x tl IH]; [reflexivity|].
  cbn. destruct (Ascii.eqb x k) eqn:E; cbn; [discriminate|].
  intros Hs. destruct (Ascii.eqb x c).
  - destruct (Ascii.eqb r k) eqn:E2; [apply Ascii.eqb_eq in E2; congruence|].
    cbn. exact (IH Hs).
  - rewrite E. cbn. exact (IH Hs).
Qed.

Lemma replaceAll_length (c r : ascii) (s : string) :
  String.length (replaceAll c r s) = String.length s.
Proof. induction s as [|x tl IH]; cbn; [reflexivity | now rewrite IH]. Qed.

Lemma disk_lookup_store (p v : string) (l : list (string * string)) :
  disk_lookup p (disk_store p v l) = Some v.
Proof.
  induction l as [|[q c] tl IH]; cbn.
  - now rewrite String.eqb_refl.
  - destruct (String.eqb p q) eqn:E; cbn; rewrite E; [reflexivity | exact IH].
Qed.

Lemma disk_lookup_store_other (p q v : string) (l : list (string * string)) :
  q <> p -> disk_lookup q (disk_store p v l) = disk_lookup q l.
Proof.
  intros Hqp. induction l as [|[k c] tl IH]; cbn.
  - destruct (String.eqb q p) eqn:E; [apply String.eqb_eq in E; congruence | reflexivity].
  - destruct (String.eqb p k) eqn:E; cbn.
    + apply String.eqb_eq in E. subst k.
      destruct (String.eqb q p) eqn:E2; [apply String.eqb_eq in E2; congruence | reflexivity].
    + destruct (String.eqb q k); [reflexivity | exact IH].
Qed.

Lemma appendLog_writable (file header line : string) (d : Disk) :
  writable (appendLog file header line d) = writable d.
Proof.
  unfold appendLog, writeFileSync, appendFileSync.
  destruct (existsSync d file); cbn.
  - destruct (writable d file); reflexivity.
  - destruct (writable d file) eqn:W; cbn; [rewrite W|]; reflexivity.
Qed.

Lemma appendLog_content (file header line : string) (d : Disk) :
  writable d file = true ->
  readDisk (appendLog file header line d) file =
  Some (match readDisk d file with Some old => old | None => header end ++ line).
Proof.
  intros W. unfold appendLog, writeFileSync, appendFileSync, existsSync.
  destruct (readDisk d file) as [old|] eqn:R.
  - rewrite W, R. unfold readDisk. cbn. apply disk_lookup_store.
  - rewrite W. cbn. rewrite W. unfold readDisk. cbn.
    rewrite !disk_lookup_store. reflexivity.
Qed.

Lemma appendLog_other (file header line : string) (d : Disk) (p : string) :
  p <> file -> readDisk (appendLog file header line d) p = readDisk d p.
Proof.
  intros Hp. unfold appendLog, writeFileSync, appendFileSync.
  destruct (existsSync d file); cbn.
  - destruct (writable d file); [|reflexivity].
    unfold readDisk. cbn. now apply disk_lookup_store_other.
  - destruct (writable d file) eqn:W; cbn; [rewrite W|reflexivity].
    unfold readDisk. cbn. rewrite disk_lookup_store_other by exact Hp.
    now apply disk_lookup_store_other.
Qed.


Lemma logAll_content (file header : string) (lines : list string) (d : Disk) :
  writable d file = true ->
  lines <> [] ->
  readDisk (logAll file header lines d) file =
  Some (match readDisk d file with Some old => old | None => header end
        ++ String.concat "" lines).
Proof.
  intros W. revert d W. induction lines as [|l tl IH]; intros d W Hne; [congruence|].
  unfold logAll. cbn [fold_left]. fold (logAll file header tl (appendLog file header l d)).
  destruct tl as [|l2 tl2].
  - cbn. rewrite appendLog_content by exact W. reflexivity.
  - rewrite IH; [|now rewrite appendLog_writable | discriminate].
    rewrite appendLog_content by exact W.
    f_equal. remember (l2 :: tl2) as rest.
    assert (Ec : String.concat "" (l :: rest) = l ++ String.concat "" rest).
    { subst rest. reflexivity. }
    rewrite Ec.
    destruct (readDisk d file); now rewrite append_assoc.
Qed.

(** X16 (logger.js, logMint and logRetrieve): a log file that did not
    exist and can be written holds, after any sequence of entries, the
    header once followed by the entries in the order they were made. *)
Theorem log_is_header_then_entries (file header : string) (lines : list string) (d : Disk) :
  writable d file = true ->
  readDisk d file = None ->
  lines <> [] ->
  readDisk (logAll file header lines d) file = Some (header ++ String.concat "" lines).
Proof.
  intros W R Hne. rewrite logAll_content by assumption. now rewrite R.
Qed.

Lemma log_is_header_then_entries_witness :
  readDisk (logAll "/storage/retrieve_logs.csv" retrieve_header
              [retrieve_line "t1" (Some (JStr alice)) 2 true "";
               retrieve_line "t2" (Some (JStr bob)) 0 false "Invalid wallet address"]
              emptyDisk) "/storage/retrieve_logs.csv" =
  Some (retrieve_header ++
        String.concat "" [retrieve_line "t1" (Some (JStr alice)) 2 true "";
                          retrieve_line "t2" (Some (JStr bob)) 0 false "Invalid wallet address"]).
Proof.
  apply (log_is_header_then_entries "/storage/retrieve_logs.csv" retrieve_header
           [retrieve_line "t1" (Some (JStr alice)) 2 true "";
            retrieve_line "t2" (Some (JStr bob)) 0 false "Invalid wallet address"]
           emptyDisk); [reflexivity | reflexivity | discriminate].
Defined.

(** * The HTTP server (server.js) *)

Lemma truthy_or_truthy (v otherwise : option json) (k : json) :
  (forall x, otherwise = Some x -> truthy x = true) ->
  truthy_or v otherwise = Some k -> truthy k = true.
Proof.
  intros Ho. unfold truthy_or. destruct v as [x|]; [destruct (truthy x) eqn:Ex|].
  - intros E. inversion E. now subst.
  - apply Ho.
  - apply Ho.
Qed.

Lemma providedKey_truthy (cr : Credentials) (k : json) :
  providedKey cr = Return (Some k) -> truthy k = true.
Proof.
  unfold providedKey.
  destruct (truthy_or (option_map JStr (header_apiKey cr)) None) as [key|] eqn:Eh.
  - intros E. inversion E. subst. eapply truthy_or_truthy; [|exact Eh]. discriminate.
  - destruct (body cr) as [b|]; [|discriminate].
    destruct (get_prop b "apiKey") as [fromBody|e]; [|discriminate].
    intros E. inversion E as [E']. eapply truthy_or_truthy; [|exact E'].
    intros x Ex. eapply truthy_or_truthy; [|exact Ex]. discriminate.
Qed.

Lemma providedKey_raises (cr : Credentials) (message : string) :
  providedKey cr = Throw message ->
  match header_apiKey cr with Some h => h = "" | None => True end /\
  (body cr = None \/ body cr = Some JNull).
Proof.
  unfold providedKey.
  destruct (header_apiKey cr) as [h|]; cbn.
  - unfold nonempty. destruct (String.eqb h "") eqn:E; cbn; [|discriminate].
    apply String.eqb_eq in E. intros F. split; [exact E|].
    destruct (body cr) as [[| | | | |]|]; try discriminate F; tauto.
  - intros F. split; [exact I|].
    destruct (body cr) as [[| | | | |]|]; try discriminate F; tauto.
Qed.

Lemma same_key_iff (k : json) (e : string) : same_key k e = true <-> k = JStr e.
Proof.
  destruct k; cbn; split; try discriminate.
  - intros E. apply String.eqb_eq in E. now subst.
  - intros E. inversion E. apply String.eqb_refl.
Qed.

Lemma ledger_calls_read (tr : Trace) (path : string) :
  ledger_calls (tr ++ [EvReadFile path]) = ledger_calls tr.
Proof. rewrite ledger_calls_app. cbn. apply List.app_nil_r. Qed.

Lemma authenticate_cases (H : Host) (cr : Credentials) (tr : Trace) :
  match providedKey cr with
  | Throw e => authenticate H cr tr = (Throw e, tr)
  | Return None =>
      authenticate H cr tr =
      (Return (Some (res_error 401 "Unauthorized"
                       "API key is required. Include it in X-API-Key header, or as apiKey in body/query.")),
       tr)
  | Return (Some k) =>
      match readFileSync H "endpoint_key.txt" with
      | Throw _ =>
          authenticate H cr tr =
          (Return (Some (res_error 500 "Server configuration error"
                           "Endpoint key file not found")),
           (tr ++ [EvReadFile "endpoint_key.txt"])%list)
      | Return text =>
          authenticate H cr tr =
          (Return (if same_key k (trim text) then None
                   else Some (res_error 403 "Forbidden" "Invalid API key")),
           (tr ++ [EvReadFile "endpoint_key.txt"])%list)
      end
  end.
Proof.
  unfold authenticate. unfold bind at 1, lift.
  destruct (providedKey cr) as [[k|]|e]; try reflexivity.
  run_effects.
  destruct (readFileSync H "endpoint_key.txt") as [text|e]; [|reflexivity].
  destruct (same_key k (trim text)); reflexivity.
Qed.

Lemma authenticate_ledger (H : Host) (cr : Credentials) (tr tr' : Trace)
  (outcome : Outcome (option Response)) :
  authenticate H cr tr = (outcome, tr') -> ledger_calls tr' = ledger_calls tr.
Proof.
  pose proof (authenticate_cases H cr tr) as E.
  destruct (providedKey cr) as [[k|]|e];
    [destruct (readFileSync H "endpoint_key.txt") as [text|e]| |];
    rewrite E; intros F; inversion F; subst;
    first [apply ledger_calls_read | reflexivity].
Qed.

(** X17 (server.js, authenticate): the middleware never touches the
    ledger.  It lets a request through only when the key file can be
    read and the first of header, body and query key that is set is the
    trimmed content of that file; a request it answers itself gets 401,
    403 or 500 and had no such key; and it raises only when the header
    carries no key and the request has no body to look into.  In
    particular, when the key file is empty or holds only white space, no
    request is let through, whatever key it carries. *)
Theorem authenticate_decision (H : Host) (cr : Credentials) (tr : Trace) :
  exists outcome tr',
    authenticate H cr tr = (outcome, tr') /\
    ledger_calls tr' = ledger_calls tr /\
    match outcome with
    | Return None =>
        exists text, readFileSync H "endpoint_key.txt" = Return text /\
                     providedKey cr = Return (Some (JStr (trim text)))
    | Return (Some response) =>
        (status response = 401 \/ status response = 403 \/ status response = 500) /\
        ~ (exists text, readFileSync H "endpoint_key.txt" = Return text /\
                        providedKey cr = Return (Some (JStr (trim text))))
    | Throw _ =>
        match header_apiKey cr with Some h => h = "" | None => True end /\
        (body cr = None \/ body cr = Some JNull)
    end /\
    (forall text, readFileSync H "endpoint_key.txt" = Return text -> trim text = "" ->
                  outcome <> Return None).
Proof.
  pose proof (authenticate_cases H cr tr) as E.
  destruct (providedKey cr) as [[k|]|e] eqn:Hp.
  - destruct (readFileSync H "endpoint_key.txt") as [text|e].
    + eexists _, _. split; [exact E|]. split; [apply ledger_calls_read|].
      destruct (same_key k (trim text)) eqn:Ek.
      * apply same_key_iff in Ek. subst k. split.
        -- exists text. split; reflexivity.
        -- intros text' Et Hblank. inversion Et; subst text'.
           apply providedKey_truthy in Hp. rewrite Hblank in Hp. discriminate.
      * split; [|discriminate].
        split; [cbn; tauto|]. intros (text' & Et & F). inversion Et; subst text'.
        inversion F; subst k.
        assert (T : same_key (JStr (trim text)) (trim text) = true) by now apply same_key_iff.
        congruence.
    + eexists _, _. split; [exact E|]. split; [apply ledger_calls_read|].
      split; [|discriminate].
      split; [cbn; tauto|]. intros (text & F & _). discriminate.
  - eexists _, _. split; [exact E|]. split; [reflexivity|].
    split; [|discriminate].
    split; [cbn; tauto|]. intros (text & _ & F). discriminate.
  - eexists _, _. split; [exact E|]. split; [reflexivity|].
    split; [|discriminate].
    now apply (providedKey_raises cr e).
Qed.

(** X18 (server.js, authenticate): a key in the header is the one that
    counts: with a wrong key there the request is answered 403, also
    when the body or the query string carries the right one. *)
Theorem header_key_takes_precedence (H : Host) (cr : Credentials) (h text : string)
  (tr : Trace) :
  header_apiKey cr = Some h ->
  h <> "" ->
  readFileSync H "endpoint_key.txt" = Return text ->
  trim text <> h ->
  authenticate H cr tr =
  (Return (Some (res_error 403 "Forbidden" "Invalid API key")),
   (tr ++ [EvReadFile "endpoint_key.txt"])%list).
Proof.
  intros Hh Hne Hr Hk.
  assert (Hp : providedKey cr = Return (Some (JStr h))).
  { unfold providedKey. rewrite Hh. cbn. unfold nonempty.
    destruct (String.eqb h "") eqn:E; [apply String.eqb_eq in E; contradiction | reflexivity]. }
  pose proof (authenticate_cases H cr tr) as E. rewrite Hp, Hr in E.
  destruct (same_key (JStr h) (trim text)) eqn:Ek; [|exact E].
  apply same_key_iff in Ek. inversion Ek. congruence.
Qed.

Lemma header_key_takes_precedence_witness :
  authenticate secretHost
    {| header_apiKey := Some "guess"; body := Some (JObj [("apiKey", JStr "secret")]);
       query_apiKey := Some (JStr "secret") |} [] =
  (Return (Some (res_error 403 "Forbidden" "Invalid API key")),
   [EvReadFile "endpoint_key.txt"]).
Proof.
  refine (header_key_takes_precedence secretHost
            {| header_apiKey := Some "guess"; body := Some (JObj [("apiKey", JStr "secret")]);
               query_apiKey := Some (JStr "secret") |}
            "guess" ("secret" ++ String "010" "") [] eq_refl _ eq_refl _); cbn; discriminate.
Defined.

(** X19 (server.js, the routes behind authenticate): a request whose key
    is not the trimmed content of the key file never reaches the
    handler behind the middleware: no ledger call is made, and what is
    answered is a 401, 403 or 500. *)
Theorem no_key_no_ledger_call (H : Host) (cr : Credentials) (handler : M Response)
  (tr : Trace) :
  (forall text, readFileSync H "endpoint_key.txt" = Return text ->
                providedKey cr <> Return (Some (JStr (trim text)))) ->
  exists outcome tr',
    guarded H cr handler tr = (outcome, tr') /\
    ledger_calls tr' = ledger_calls tr /\
    match outcome with
    | Return response =>
        status response = 401 \/ status response = 403 \/ status response = 500
    | Throw _ => True
    end.
Proof.
  intros Hk. unfold guarded, bind.
  pose proof (authenticate_cases H cr tr) as E.
  destruct (providedKey cr) as [[k|]|e] eqn:Hp.
  - destruct (readFileSync H "endpoint_key.txt") as [text|e] eqn:Hr.
    + destruct (same_key k (trim text)) eqn:Ek.
      * apply same_key_iff in Ek. subst k. exfalso. exact (Hk text eq_refl eq_refl).
      * rewrite E. eexists _, _. split; [reflexivity|].
        split; [apply ledger_calls_read|]. cbn. tauto.
    + rewrite E. eexists _, _. split; [reflexivity|].
      split; [apply ledger_calls_read|]. cbn. tauto.
  - rewrite E. eexists _, _. split; [reflexivity|]. split; [reflexivity|]. cbn. tauto.
  - rewrite E. eexists _, _. split; [reflexivity|]. split; [reflexivity|]. exact I.
Qed.

Lemma no_key_no_ledger_call_witness :
  exists outcome tr',
    guarded secretHost (headerKey "guess")
      (handleGetItem secretHost "2" None None) [] = (outcome, tr') /\
    ledger_calls tr' = ledger_calls [] /\
    match outcome with
    | Return response =>
        status response = 401 \/ status response = 403 \/ status response = 500
    | Throw _ => True
    end.
Proof.
  refine (no_key_no_ledger_call secretHost (headerKey "guess")
            (handleGetItem secretHost "2" None None) [] _).
  intros text E. inversion E. cbn. discriminate.
Defined.

(** X20 (server.js, GET /api/item/:tokenId): behind a valid key, a token
    identifier that is not a number or is negative is answered with
    status 500 and the message of the validation, not with a 400, and
    without any ledger call. *)
Theorem item_route_refused_token_is_500 (H : Host) (cr : Credentials) (tokenId : string)
  (contractAddress rpcUrl : option string) (tr tr1 : Trace) :
  authenticate H cr tr = (Return None, tr1) ->
  tokenId_refused H (TidString tokenId) ->
  guarded H cr (handleGetItem H tokenId contractAddress rpcUrl) tr =
  (Return (res_error 500 "Internal Server Error" "Token ID must be a valid number"), tr1)
  /\ ledger_calls tr1 = ledger_calls tr.
Proof.
  intros Ha Hr. split.
  - unfold guarded, bind. rewrite Ha. unfold handleGetItem, try_catch, bind.
    assert (Hg : getItem H (TidString tokenId) (queryConfig contractAddress rpcUrl) tr1 =
                 (Throw "Token ID must be a valid number", tr1)).
    { unfold getItem, try_catch, bind, validateTokenId.
      destruct Hr as [F | [F | [F | F]]]; try discriminate F.
      - rewrite F. reflexivity.
      - apply lt_zero_negative in F. rewrite F, Bool.orb_true_r. reflexivity. }
    rewrite Hg. reflexivity.
  - exact (authenticate_ledger H cr tr tr1 _ Ha).
Qed.

Lemma item_route_refused_token_is_500_witness :
  guarded secretHost (headerKey "secret") (handleGetItem secretHost "abc" None None) [] =
  (Return (res_error 500 "Internal Server Error" "Token ID must be a valid number"),
   [EvReadFile "endpoint_key.txt"]).
Proof.
  refine (proj1 (item_route_refused_token_is_500 secretHost (headerKey "secret") "abc"
                   None None [] [EvReadFile "endpoint_key.txt"] eq_refl _)).
  right. right. left. reflexivity.
Defined.






(** X24 (server.js, POST /api/mint, lines 162-195): a mint that fails is
    raised again with its message, and, on a log file that can be
    written, leaves one line with the destination and the image of the
    request, no token, hash or block, success false and the message --
    appended to what the file held, after the header when the file is
    new; every other file is left as it was. *)
Theorem failed_mint_is_logged_and_raised (H : Host) (storage now : string) (wallet : json)
  (dest image traits : option json) (config : Config) (tr tr' : Trace) (d : Disk)
  (message : string) :
  mint H dest image traits config tr = (Throw message, tr') ->
  writable d (logFile storage "mint_logs.csv") = true ->
  exists d',
    mintAndLog H storage now wallet dest image traits config tr d =
    (Throw message, tr', d') /\
    readDisk d' (logFile storage "mint_logs.csv") =
    Some (match readDisk d (logFile storage "mint_logs.csv") with
          | Some old => old
          | None => mint_header
          end ++
          csv_line [now; field_or_empty (Some wallet); field_or_empty dest;
                    field_or_empty image; ""; ""; ""; "false"; sanitize message]) /\
    forall p, p <> logFile storage "mint_logs.csv" -> readDisk d' p = readDisk d p.
Proof.
  intros Hm W. unfold mintAndLog. rewrite Hm. eexists. split; [reflexivity|].
  unfold logMint. split.
  - rewrite appendLog_content by exact W. reflexivity.
  - intros p Hp. now apply appendLog_other.
Qed.

Lemma failed_mint_is_logged_and_raised_witness :
  exists d',
    mintAndLog secretHost "/storage" "t" (JStr bob) (Some (JStr "nobody"))
      (Some (JStr "https://example.com/a.png")) (Some swordTraits) no_config [] emptyDisk =
    (Throw "Invalid destination address", [], d') /\
    readDisk d' "/storage/mint_logs.csv" =
    Some (mint_header ++
          csv_line ["t"; bob; "nobody"; "https://example.com/a.png"; ""; ""; ""; "false";
                    "Invalid destination address"]) /\
    forall p, p <> "/storage/mint_logs.csv" -> readDisk d' p = readDisk emptyDisk p.
Proof.
  exact (failed_mint_is_logged_and_raised secretHost "/storage" "t" (JStr bob)
           (Some (JStr "nobody")) (Some (JStr "https://example.com/a.png"))
           (Some swordTraits) no_config [] [] emptyDisk "Invalid destination address"
           eq_refl eq_refl).
Defined.

(** * The deployment script (deploy/scripts/deploy.js) *)

Lemma pollLoop_none (net : Network) (txHash : string) (remaining : nat) :
  forall attempts,
    (forall k, attempts < k <= attempts + remaining ->
               forall r, net_getTransactionReceipt net k txHash <> Return (Some r)) ->
    pollLoop net txHash remaining attempts = (None, attempts + remaining).
Proof.
  induction remaining as [|n IH]; intros attempts Hall; cbn [pollLoop].
  - now rewrite Nat.add_0_r.
  - assert (Hfirst := Hall (S attempts) ltac:(lia)).
    assert (Hrest : pollLoop net txHash n (S attempts) = (None, attempts + S n)).
    { rewrite IH; [f_equal; lia|]. intros k Hk. apply Hall. lia. }
    destruct (net_getTransactionReceipt net (S attempts) txHash) as [[r|]|e];
      [exfalso; exact (Hfirst r eq_refl) | exact Hrest | exact Hrest].
Qed.

Lemma pollLoop_first (net : Network) (txHash : string) (receipt : DeployReceipt)
  (remaining : nat) :
  forall attempts k,
    attempts < k <= attempts + remaining ->
    (forall j, attempts < j < k ->
               forall r, net_getTransactionReceipt net j txHash <> Return (Some r)) ->
    net_getTransactionReceipt net k txHash = Return (Some receipt) ->
    pollLoop net txHash remaining attempts = (Some receipt, k).
Proof.
  induction remaining as [|n IH]; intros attempts k Hk Hbefore Hat; [lia|].
  cbn [pollLoop]. destruct (Nat.eq_dec k (S attempts)) as [->|Hne].
  - now rewrite Hat.
  - assert (Hfirst := Hbefore (S attempts) ltac:(lia)).
    assert (Hrest : pollLoop net txHash n (S attempts) = (Some receipt, k)).
    { apply IH; [lia | | exact Hat]. intros j Hj. apply Hbefore. lia. }
    destruct (net_getTransactionReceipt net (S attempts) txHash) as [[r|]|e];
      [exfalso; exact (Hfirst r eq_refl) | exact Hrest | exact Hrest].
Qed.

Lemma pollLoop_bound (net : Network) (txHash : string) (remaining : nat) :
  forall attempts, snd (pollLoop net txHash remaining attempts) <= attempts + remaining.
Proof.
  induction remaining as [|n IH]; intros attempts; cbn [pollLoop].
  - cbn. lia.
  - specialize (IH (S attempts)).
    destruct (net_getTransactionReceipt net (S attempts) txHash) as [[r|]|e]; cbn in *; lia.
Qed.

Lemma quote_append (s rest : string) :
  quote s ++ rest = String dquote (escape s ++ String dquote rest).
Proof. unfold quote. cbn [append]. now rewrite append_assoc. Qed.

Lemma parse_member_step (f : nat) (k v tail : string) :
  parse_members (S (S f)) (newline ++ "  " ++ quote k ++ ": " ++ quote v ++ tail) =
  if startsWith (skip_ws tail) ","
  then match parse_members (S f) (tail_of (skip_ws tail)) with
       | Some (l, rest) => Some ((k, JStr v) :: l, rest)
       | None => None
       end
  else if startsWith (skip_ws tail) "}" then Some ([(k, JStr v)], tail_of (skip_ws tail))
  else None.
Proof.
  rewrite (quote_append k). rewrite (quote_append v).
  remember (escape k ++ String dquote (": " ++ String dquote (escape v ++ String dquote tail)))
    as body eqn:Hb.
  unfold newline. cbn. subst body. rewrite parse_string_escape.
  remember (escape v ++ String dquote tail) as body eqn:Hb.
  cbn. subst body. rewrite parse_string_escape.
  reflexivity.
Qed.

Lemma deployment_text_shape (a o now : string) :
  deployment_text a o now =
  String "{" (newline ++ "  " ++ quote "contractAddress" ++ ": " ++ quote a ++ ","
  ++ (newline ++ "  " ++ quote "ownerAddress" ++ ": " ++ quote o ++ ","
  ++ (newline ++ "  " ++ quote "network" ++ ": " ++ quote "polygon" ++ ","
  ++ (newline ++ "  " ++ quote "deployedAt" ++ ": " ++ quote now ++ newline ++ "}")))).
Proof.
  unfold deployment_text, deploymentInfo.
  cbn [stringify_indent map join fst snd stringify].
  change ("" ++ "  ") with "  ".
  rewrite !append_assoc. reflexivity.
Qed.

Lemma parse_member_more (f : nat) (k v tail : string) :
  parse_members (S (S f)) (newline ++ "  " ++ quote k ++ ": " ++ quote v ++ "," ++ tail) =
  match parse_members (S f) tail with
  | Some (l, rest) => Some ((k, JStr v) :: l, rest)
  | None => None
  end.
Proof. rewrite parse_member_step. reflexivity. Qed.

Lemma parse_member_last (f : nat) (k v rest : string) :
  parse_members (S (S f)) (newline ++ "  " ++ quote k ++ ": " ++ quote v ++ newline ++ "}" ++ rest) =
  Some ([(k, JStr v)], rest).
Proof. rewrite parse_member_step. reflexivity. Qed.

Lemma parse_value_object (f : nat) (r : string) :
  parse_value (S f) (String "{" r) =
  if startsWith (skip_ws r) "}" then Some (JObj [], tail_of (skip_ws r))
  else match parse_members f r with
       | Some (raw, rest) => Some (JObj (obj_of_members raw), rest)
       | None => None
       end.
Proof. reflexivity. Qed.

Lemma skip_ws_member (k tail : string) :
  skip_ws (newline ++ "  " ++ quote k ++ tail) = quote k ++ tail.
Proof. rewrite quote_append. reflexivity. Qed.

Lemma parse_deployment_text (f : nat) (a o now : string) :
  parse_value (S (S (S (S (S (S f)))))) (deployment_text a o now) =
  Some (deploymentInfo a o now, "").
Proof.
  rewrite deployment_text_shape.
  rewrite parse_value_object.
  match goal with
  | |- context [startsWith (skip_ws ?r) "}"] =>
      assert (Hs : startsWith (skip_ws r) "}" = false)
        by (rewrite skip_ws_member, quote_append; reflexivity);
      rewrite Hs; clear Hs
  end.
  rewrite !parse_member_more.
  rewrite <- (append_nil_r (newline ++ "  " ++ quote "deployedAt" ++ ": " ++ quote now ++ newline ++ "}")).
  rewrite !append_assoc. rewrite parse_member_last.
  reflexivity.
Qed.

Lemma deployment_text_parses (a o now : string) :
  JSON_parse (deployment_text a o now) = Return (deploymentInfo a o now).
Proof.
  assert (Hlen : exists f, String.length (deployment_text a o now) = S (S (S (S (S f))))).
  { rewrite deployment_text_shape. unfold newline, quote. cbn [append String.length].
    eexists. reflexivity. }
  destruct Hlen as (f & Hlen).
  unfold JSON_parse, parse_json. rewrite Hlen, parse_deployment_text. reflexivity.
Qed.

Lemma saveDeployment_cases (net : Network) (a o : string) :
  (saveDeployment net a o =
   (Return tt, Some ("deployment.json", deployment_text a o (net_now net)))) \/
  (exists e, saveDeployment net a o = (Throw e, None)).
Proof.
  unfold saveDeployment.
  destruct (net_writeFile net "deployment.json" (deployment_text a o (net_now net)));
    [left; reflexivity | right; eexists; reflexivity].
Qed.

Lemma nonempty_true (s : string) : nonempty s = true -> s <> "".
Proof.
  unfold nonempty. destruct (String.eqb s "") eqn:E; [discriminate|].
  intros _ F. subst s. discriminate.
Qed.

Lemma recordDeployment_consistent (net : Network) (g : Deployed) (o : string)
  (receipt : DeployReceipt) :
  run_is_consistent net (fst (recordDeployment net g o receipt))
    (snd (recordDeployment net g o receipt)).
Proof.
  assert (Hs : forall a, nonempty a = true ->
             run_is_consistent net (fst (saveDeployment net a o)) (snd (saveDeployment net a o))).
  { intros a Ha. destruct (saveDeployment_cases net a o) as [E | (e & E)]; rewrite E; cbn.
    - repeat split. exists a, o. split; [now apply nonempty_true | reflexivity].
    - discriminate. }
  assert (Hf : run_is_consistent net (fst (addressFallback net g o))
                 (snd (addressFallback net g o))).
  { unfold addressFallback. destruct (getAddress g) as [addr|e]; [|cbn; discriminate].
    destruct (nonempty addr) eqn:Ea; [|cbn; discriminate].
    destruct (saveDeployment_cases net addr o) as [E | (e & E)]; rewrite E; cbn.
    - repeat split. exists addr, o. split; [now apply nonempty_true | reflexivity].
    - discriminate. }
  unfold recordDeployment. destruct (dr_contractAddress receipt) as [a|]; [|exact Hf].
  destruct (nonempty a) eqn:Ea; [now apply Hs | exact Hf].
Qed.

(** X25 (deploy.js, main): whatever the network does, a run of the
    script makes at most 60 receipt lookups; it writes a file only when
    it ends well, and then the file is deployment.json with the record
    of a non-empty contract address; a run that writes nothing has
    failed. *)
Theorem deployment_run_is_consistent (net : Network) :
  lookups (main net) <= 60 /\
  match written (main net) with
  | Some (path, text) =>
      path = "deployment.json" /\ result (main net) = Return tt /\
      exists a o, a <> "" /\ text = deployment_text a o (net_now net)
  | None => result (main net) <> Return tt
  end.
Proof.
  assert (Hf : forall m, lookups (failed m) <= 60 /\
                         run_is_consistent net (result (failed m)) (written (failed m))).
  { intros m. cbn. split; [lia | discriminate]. }
  change (lookups (main net) <= 60 /\
          run_is_consistent net (result (main net)) (written (main net))).
  unfold main, and_then.
  destruct (net_readKey net) as [text|e]; [|apply Hf].
  destruct (net_wallet net _) as [owner|e]; [|apply Hf].
  destruct (net_getBalance net owner) as [b|e]; [|apply Hf].
  destruct (net_readArtifact net) as [u|e]; [|apply Hf].
  destruct (net_estimateGas net owner) as [gas|e]; [|apply Hf].
  destruct (net_deploy net owner _) as [g|e]; [|apply Hf].
  destruct (deploymentTransaction g) as [txHash|]; [|apply Hf].
  destruct (negb (nonempty txHash) || negb (String.length txHash =? 66)%nat); [apply Hf|].
  unfold confirmDeployment, pollReceipt.
  pose proof (pollLoop_bound net txHash maxAttempts 0) as B.
  destruct (pollLoop net txHash maxAttempts 0) as [[receipt|] attempts]; cbn in B |- *.
  - split; [exact B|]. apply recordDeployment_consistent.
  - split; [exact B | discriminate].
Qed.

(** X26 (deploy.js, main, lines 82-113): when none of the 60 lookups
    shows a receipt -- each finds nothing or raises -- the script gives
    up after exactly 60 lookups with the error that names 300 seconds
    and the transaction, and writes no file. *)
Theorem unconfirmed_deployment_times_out (net : Network) (g : Deployed) (o txHash : string) :
  (forall k, 1 <= k <= 60 ->
             forall r, net_getTransactionReceipt net k txHash <> Return (Some r)) ->
  confirmDeployment net g o txHash =
  {| result := Throw ("Transaction not confirmed after 300 seconds. Check PolygonScan: https://polygonscan.com/tx/" ++ txHash);
     lookups := 60;
     written := None |}.
Proof.
  intros Hall. unfold confirmDeployment, pollReceipt.
  rewrite (pollLoop_none net txHash maxAttempts 0); [reflexivity|].
  intros k Hk. apply Hall. unfold maxAttempts in Hk. lia.
Qed.

Lemma unconfirmed_deployment_times_out_witness :
  main silentNetwork =
  {| result := Throw ("Transaction not confirmed after 300 seconds. Check PolygonScan: https://polygonscan.com/tx/" ++ deployHash);
     lookups := 60;
     written := None |}.
Proof.
  refine (unconfirmed_deployment_times_out silentNetwork
            {| deploymentTransaction := Some deployHash; getAddress := Return gameItemAddress |}
            bob deployHash _).
  intros k _ r. cbn. destruct (Nat.even k); discriminate.
Defined.

(** X27 (deploy.js, main, lines 82-168): the first receipt ends the
    polling, whatever its status.  When the k-th lookup is the first to
    show a receipt and the receipt names a contract address, the run
    ends well after k lookups with that address saved -- also for a
    receipt whose status says that the transaction failed, since the
    error raised for it is caught by the polling loop itself. *)
Theorem first_receipt_ends_the_poll (net : Network) (g : Deployed) (o txHash a : string)
  (k : nat) (receipt : DeployReceipt) :
  1 <= k <= 60 ->
  (forall j, 1 <= j < k ->
             forall r, net_getTransactionReceipt net j txHash <> Return (Some r)) ->
  net_getTransactionReceipt net k txHash = Return (Some receipt) ->
  dr_contractAddress receipt = Some a ->
  a <> "" ->
  net_writeFile net "deployment.json" (deployment_text a o (net_now net)) = Return tt ->
  confirmDeployment net g o txHash =
  {| result := Return tt;
     lookups := k;
     written := Some ("deployment.json", deployment_text a o (net_now net)) |}.
Proof.
  intros Hk Hbefore Hat Ha Hne Hw. unfold confirmDeployment, pollReceipt.
  rewrite (pollLoop_first net txHash receipt maxAttempts 0 k);
    [ | unfold maxAttempts; lia | intros j Hj; apply Hbefore; lia | exact Hat].
  unfold recordDeployment. rewrite Ha.
  unfold nonempty. destruct (String.eqb a "") eqn:E; [apply String.eqb_eq in E; contradiction|].
  cbn [negb]. unfold saveDeployment. rewrite Hw. reflexivity.
Qed.

Lemma first_receipt_ends_the_poll_witness :
  main revertedNetwork =
  {| result := Return tt;
     lookups := 3;
     written := Some ("deployment.json",
                      deployment_text gameItemAddress bob "2024-01-01T00:00:00.000Z") |}.
Proof.
  refine (first_receipt_ends_the_poll revertedNetwork
            {| deploymentTransaction := Some deployHash; getAddress := Return gameItemAddress |}
            bob deployHash gameItemAddress 3
            {| dr_blockNumber := 9; dr_status := Some 0%Z;
               dr_contractAddress := Some gameItemAddress |}
            _ _ eq_refl eq_refl _ eq_refl).
  - lia.
  - intros j Hj r. destruct j as [|[|[|j]]]; [lia | discriminate | discriminate | lia].
  - discriminate.
Defined.

(** X28 (deploy.js, main, with mint.js and server.js): the file the
    deployment script writes is read back by the client: with that text
    as deployment.json and no override, the contract address the four
    client functions resolve is the deployed address, provided it is a
    well-formed address, and the wallet the server names in its mint log
    is the deployer. *)
Theorem deployment_file_is_read_back (H : Host) (a o now : string) (tr : Trace) :
  readFileSync H "deployment.json" = Return (deployment_text a o now) ->
  a <> "" ->
  isAddress H a = true ->
  loadContractAddress H no_config tr = (Return a, (tr ++ [EvReadFile "deployment.json"])%list)
  /\ (o <> "" ->
      logWallet H tr = (Return (JStr o), (tr ++ [EvReadFile "deployment.json"])%list)).
Proof.
  intros Hr Ha Hi. split.
  - unfold loadContractAddress, readDeployment. cbn [cfg_contractAddress no_config].
    run_effects. rewrite Hr, deployment_text_parses. cbn.
    unfold nonempty. destruct (String.eqb a "") eqn:E; [apply String.eqb_eq in E; contradiction|].
    cbn. rewrite Hi. reflexivity.
  - intros Ho. unfold logWallet. run_effects. rewrite Hr, deployment_text_parses. cbn.
    destruct (String.eqb o "") eqn:E; [apply String.eqb_eq in E; contradiction|]. reflexivity.
Qed.

Lemma deployment_file_is_read_back_witness :
  loadContractAddress freshlyDeployedHost no_config [] =
  (Return gameItemAddress, [EvReadFile "deployment.json"]) /\
  (bob <> "" ->
   logWallet freshlyDeployedHost [] = (Return (JStr bob), [EvReadFile "deployment.json"])).
Proof.
  refine (deployment_file_is_read_back freshlyDeployedHost gameItemAddress bob
            "2024-01-01T00:00:00.000Z" [] eq_refl _ eq_refl).
  discriminate.
Defined.

(** * The contract (deploy/contracts/GameItem.sol) *)

Section GameItemFacts.

Variable Token : Type.
Variable _safeMint : GameItemContract.address -> N -> Token -> Outcome Token.
Variable _setTokenURI : N -> string -> Token -> Outcome Token.

Lemma call_returns (c : GameItemContract.Call) (s s' : GameItemContract.Storage Token) (tokenId : N) :
  GameItemContract.call Token _safeMint _setTokenURI c s = Return (s', tokenId) ->
  tokenId = GameItemContract._nextTokenId s /\
  GameItemContract._nextTokenId s' = (tokenId + 1)%N /\
  GameItemContract.owner s' = GameItemContract.owner s /\
  (tokenId <= MAX_SUPPLY)%N /\
  match c with
  | GameItemContract.Mint sender _ _
  | GameItemContract.SafeMint sender _ _
  | GameItemContract.MintWithMetadata sender _ _ => sender = GameItemContract.owner s
  end.
Proof.
  assert (Hb : forall to md, GameItemContract.mintBody Token _safeMint _setTokenURI to md s
                             = Return (s', tokenId) ->
               tokenId = GameItemContract._nextTokenId s /\
               GameItemContract._nextTokenId s' = (tokenId + 1)%N /\
               GameItemContract.owner s' = GameItemContract.owner s /\
               (tokenId <= MAX_SUPPLY)%N).
  { intros to md. unfold GameItemContract.mintBody.
    destruct (GameItemContract._nextTokenId s <=? MAX_SUPPLY)%N eqn:Ec; [|discriminate].
    cbn [negb].
    destruct (GameItemContract._nextTokenId s =? GameItemContract.uint256_max)%N;
      [discriminate|].
    destruct (_safeMint to _ _) as [minted|e]; [|discriminate].
    destruct (_setTokenURI _ md minted) as [stored|e]; [|discriminate].
    intros E. inversion E; subst. cbn. apply N.leb_le in Ec. repeat split. exact Ec. }
  destruct c as [sender to md | sender to md | sender to md]; cbn;
    unfold GameItemContract.mint, GameItemContract.safeMint,
      GameItemContract.mintWithMetadata, GameItemContract.mint;
    destruct (sender =? GameItemContract.owner s)%N eqn:Eo; cbn [negb]; try discriminate;
    intros E; apply Hb in E; apply N.eqb_eq in Eo; tauto.
Qed.

Lemma run_identifiers (calls : list GameItemContract.Call) :
  forall s : GameItemContract.Storage Token,
    snd (GameItemContract.run Token _safeMint _setTokenURI calls s) =
    N_range (GameItemContract._nextTokenId s) (List.length (snd (GameItemContract.run Token _safeMint _setTokenURI calls s))) /\
    GameItemContract._nextTokenId (fst (GameItemContract.run Token _safeMint _setTokenURI calls s)) =
    (GameItemContract._nextTokenId s + N.of_nat (List.length (snd (GameItemContract.run Token _safeMint _setTokenURI calls s))))%N /\
    GameItemContract.owner (fst (GameItemContract.run Token _safeMint _setTokenURI calls s)) = GameItemContract.owner s /\
    ((GameItemContract._nextTokenId s <= MAX_SUPPLY + 1)%N ->
     (GameItemContract._nextTokenId (fst (GameItemContract.run Token _safeMint _setTokenURI calls s)) <= MAX_SUPPLY + 1)%N).
Proof.
  induction calls as [|c tl IH]; intros s.
  - cbn. repeat split; [lia | tauto].
  - cbn [GameItemContract.run].
    destruct (GameItemContract.call Token _safeMint _setTokenURI c s) as [[s' tokenId]|e] eqn:Ec; [|apply IH].
    apply call_returns in Ec. destruct Ec as (Hid & Hnext & Hown & Hcap & _).
    destruct (IH s') as (Hids & Hn & Ho & Hc). cbn [fst snd List.length N_range].
    repeat split.
    + rewrite Hids at 1. rewrite Hnext, Hid. reflexivity.
    + rewrite Hn, Hnext, Hid. lia.
    + rewrite Ho. exact Hown.
    + intros _. apply Hc. lia.
Qed.

End GameItemFacts.

(** X29 (GameItem.sol, mint, safeMint, mintWithMetadata, totalSupply):
    after any sequence of calls of the three entry points on a freshly
    deployed contract, by any senders, the identifiers returned by the
    calls that did not revert are 1, 2, 3, ... in order, without gaps;
    the total supply is their number and never exceeds MAX_SUPPLY; and
    the owner is still the deployer. *)
Theorem minted_identifiers_are_consecutive (Token : Type)
  (_safeMint : GameItemContract.address -> N -> Token -> Outcome Token)
  (_setTokenURI : N -> string -> Token -> Outcome Token)
  (initialOwner : GameItemContract.address) (fresh : Token)
  (calls : list GameItemContract.Call) :
  let final := GameItemContract.run Token _safeMint _setTokenURI calls
                 (GameItemContract.deployed initialOwner fresh) in
  snd final = N_range 1 (List.length (snd final)) /\
  GameItemContract.totalSupply (fst final) = Return (N.of_nat (List.length (snd final))) /\
  (N.of_nat (List.length (snd final)) <= MAX_SUPPLY)%N /\
  GameItemContract.owner (fst final) = initialOwner.
Proof.
  intros final.
  destruct (run_identifiers Token _safeMint _setTokenURI calls
              (GameItemContract.deployed initialOwner fresh)) as (Hids & Hn & Ho & Hc).
  fold final in Hids, Hn, Ho, Hc.
  cbn [GameItemContract._nextTokenId GameItemContract.owner GameItemContract.deployed]
    in Hids, Hn, Ho, Hc.
  specialize (Hc ltac:(unfold MAX_SUPPLY; lia)).
  repeat split.
  - exact Hids.
  - unfold GameItemContract.totalSupply. rewrite Hn.
    destruct (1 + N.of_nat (List.length (snd final)) =? 0)%N eqn:E;
      [apply N.eqb_eq in E; lia|]. f_equal. lia.
  - rewrite Hn in Hc. lia.
  - exact Ho.
Qed.


